(** * The node execution engine of libnodegl (src/libnodegl/nodes.c)

    A shallow embedding of the node lifecycle engine: node creation and
    alignment, context attachment, the lifecycle state machine
    (init / prefetch / release / uninit), the per-frame passes (visit,
    release/prefetch reconciliation, update, draw), the save/apply/restore of
    driver state around a draw, parameter mutation and reference counting.

    Conventions of the embedding:
    - a C pointer is an address in [Z], [0] being [NULL];
    - [int] and [size_t] values are in [Z]; unsigned arithmetic is wrapped
      explicitly, signed overflow is reported as undefined behaviour;
    - [double] timestamps are IEEE binary64 values ([PrimFloat.float]), compared
      with the IEEE comparison, as C's [!=] does;
    - the heap is typed: node headers, arrays of node pointers and hash maps
      live in separate finite maps indexed by address; the private data block
      of a node is a list of bytes;
    - a C function with side effects is a function in the monad [M] of
      computations over a [world] that can end in a [fault] (failed assertion,
      invalid memory access, undefined behaviour);
    - class callbacks are arbitrary computations; they receive the [engine]
      (the exported entry points of nodes.c) so that they can re-enter it. *)

From Stdlib Require Import ZArith List Ascii String Lia Bool.
From Stdlib Require Import Floats.PrimFloat.
From Stdlib Require Floats.FloatAxioms Floats.SpecFloat.
From stdpp Require Import base option list gmap strings.

Local Open Scope Z_scope.

(** ** Machine arithmetic *)

(** [size_t] is 64 bits wide (LP64). *)
Definition size_t_wrap (z : Z) : Z := z mod 2 ^ 64.

Definition INT_MAX : Z := 2 ^ 31 - 1.
Definition INT_MIN : Z := - 2 ^ 31.

(** Reinterpretation of a 32-bit pattern as an [int]. *)
Definition to_int32 (z : Z) : Z :=
  let u := z mod 2 ^ 32 in if u <? 2 ^ 31 then u else u - 2 ^ 32.

(** ** Allocation size rounding (nodes.c, lines 44-67) *)

Module Alloc.

(** [#define ALIGN(v, a) ((v) + (((v) + (a) - 1) & ~((v) - 1)))], every
    operand being a [size_t]. *)
Definition ALIGN (v a : Z) : Z :=
  size_t_wrap
    (v + Z.land (size_t_wrap (size_t_wrap (v + a) - 1))
                (size_t_wrap (Z.lnot (size_t_wrap (v - 1))))).

(** [(p & ~(NGLI_ALIGN - 1)) == p] on a [uintptr_t]. *)
Definition is_aligned (NGLI_ALIGN p : Z) : bool :=
  Z.land p (size_t_wrap (Z.lnot (size_t_wrap (NGLI_ALIGN - 1)))) =? p.

(** The address computations and the two alignment assertions of
    [node_create].  [sizeof_node] is [sizeof(struct ngl_node)] and [NGLI_ALIGN]
    the alignment constant, both declared in nodes.h; [node] is the address
    returned by [aligned_allocz].  The result is the pair of the truth values
    of the two assertions. *)
Definition node_create_asserts (sizeof_node NGLI_ALIGN node : Z) : bool * bool :=
  let node_size := ALIGN sizeof_node NGLI_ALIGN in
  let priv_data := size_t_wrap (node + node_size) in
  (is_aligned NGLI_ALIGN node, is_aligned NGLI_ALIGN priv_data).

End Alloc.

(** ** Default names (nodes.c, lines 95-116)

    A C string is the content of a buffer up to its first NUL character.
    A buffer is a [string]; its end stands for the terminator when it holds
    no NUL.  A [char] is read as the [int] it promotes to; characters above
    127 promote to negative values where [char] is signed, which changes
    nothing below: they are outside ['A'..'Z'] either way and are compared
    with characters promoted the same way. *)

Definition char_to_int (c : ascii) : Z := Z.of_N (N_of_ascii c).

(** The conversion of an [int] to the [char] it is stored in. *)
Definition int_to_char (z : Z) : ascii := ascii_of_N (Z.to_N (z mod 256)).

(** [#define DEF_NAME_CHR(c) (((c) >= 'A' && (c) <= 'Z') ? (c) ^ 0x20 : (c))] *)
Definition DEF_NAME_CHR (c : Z) : Z :=
  if (char_to_int "A" <=? c) && (c <=? char_to_int "Z")
  then Z.lxor c 0x20 else c.

(** The C string held by a buffer. *)
Fixpoint c_str (s : string) : string :=
  match s with
  | EmptyString => EmptyString
  | String c rest =>
      if char_to_int c =? 0 then EmptyString else String c (c_str rest)
  end.

Definition strlen (s : string) : Z := Z.of_nat (String.length (c_str s)).

(** Modelled from the spec: [ngli_strdup] (utils.c) returns a fresh buffer
    holding a copy of the C string (the name is "defaulted from the class
    name" through such a copy); the failure of the allocation is not
    modelled. *)
Definition ngli_strdup (s : string) : string := c_str s.

(** [for (int i = 0; name[i]; i++) name[i] = DEF_NAME_CHR(name[i]);] from
    index [i] on, [name] being the buffer from [name[i]] on.  The result is
    [None] when [i++] overflows [int], which is undefined. *)
Fixpoint default_name_loop (name : string) (i : Z) : option string :=
  match name with
  | EmptyString => Some EmptyString
  | String c rest =>
      if char_to_int c =? 0 then Some name
      else if i <? INT_MAX then
        String (int_to_char (DEF_NAME_CHR (char_to_int c)))
          <$> default_name_loop rest (i + 1)
      else None
  end.

Definition ngli_node_default_name (class_name : string) : option string :=
  default_name_loop (ngli_strdup class_name) 0.

(** [for (int i = 0; i < len; i++) if (DEF_NAME_CHR(class_name[i]) != str[i])
    return 0;] from index [i] on, with [n = len - i] iterations left and the
    two buffers from index [i] on.  Both buffers hold at least [len]
    characters; reading past one of them does not happen. *)
Fixpoint is_default_name_loop (class_name str : string) (i : Z) (n : nat)
    : option Z :=
  match n with
  | O => Some 1
  | S n' =>
      match class_name, str with
      | String c class_name', String d str' =>
          if negb (DEF_NAME_CHR (char_to_int c) =? char_to_int d) then Some 0
          else if i <? INT_MAX then
            is_default_name_loop class_name' str' (i + 1) n'
          else None
      | _, _ => None
      end
  end.

Definition ngli_is_default_name (class_name str : string) : option Z :=
  let len := strlen class_name in
  if negb (len =? strlen str) then Some 0
  else is_default_name_loop class_name str 0 (Z.to_nat len).

(** ** Data model *)

(** Lifecycle states (nodes.h). *)
Inductive node_state :=
| STATE_UNINITIALIZED
| STATE_INITIALIZED
| STATE_READY
| STATE_IDLE.

Definition state_eqb (a b : node_state) : bool :=
  match a, b with
  | STATE_UNINITIALIZED, STATE_UNINITIALIZED
  | STATE_INITIALIZED, STATE_INITIALIZED
  | STATE_READY, STATE_READY
  | STATE_IDLE, STATE_IDLE => true
  | _, _ => false
  end.

(** Parameter types, as indexed in [opt_sizes]. *)
Inductive param_type :=
| PARAM_TYPE_INT
| PARAM_TYPE_I64
| PARAM_TYPE_DBL
| PARAM_TYPE_STR
| PARAM_TYPE_DATA
| PARAM_TYPE_VEC2
| PARAM_TYPE_VEC3
| PARAM_TYPE_VEC4
| PARAM_TYPE_MAT4
| PARAM_TYPE_NODE
| PARAM_TYPE_NODELIST
| PARAM_TYPE_DBLLIST
| PARAM_TYPE_NODEDICT.

(** [static const size_t opt_sizes[]] on LP64: pointers are 8 bytes, [int]
    and [float] 4, [double] and [int64_t] 8. *)
Definition opt_sizes (t : param_type) : Z :=
  match t with
  | PARAM_TYPE_INT => 4
  | PARAM_TYPE_I64 => 8
  | PARAM_TYPE_DBL => 8
  | PARAM_TYPE_STR => 8
  | PARAM_TYPE_DATA => 8 + 4
  | PARAM_TYPE_VEC2 => 8
  | PARAM_TYPE_VEC3 => 12
  | PARAM_TYPE_VEC4 => 16
  | PARAM_TYPE_MAT4 => 64
  | PARAM_TYPE_NODE => 8
  | PARAM_TYPE_NODELIST => 8 + 4
  | PARAM_TYPE_DBLLIST => 8 + 4
  | PARAM_TYPE_NODEDICT => 8
  end.

(** [struct node_param]: one entry of a parameter schema.  A schema is the
    list of entries before the [{NULL}] terminator. *)
Record node_param := {
  key : string;
  type : param_type;
  offset : Z;
  flags : Z;
}.

(** [struct ngl_node]: the header of a node instance.  [class] is the address
    of the class descriptor, [glstates] the address of the array of
    state-override nodes, [priv_data] the private block as bytes. *)
Record ngl_node := {
  class : Z;
  ctx : Z;
  state : node_state;
  is_active : Z;
  visit_time : float;
  last_update_time : float;
  refcount : Z;
  glstates : Z;
  nb_glstates : Z;
  name : string;
  priv_data : list Z;
}.

(** The tracked state of the graphics driver. *)
Record gldriver := {
  gl_caps : gset Z;
  gl_blend_src_rgb : Z;
  gl_blend_dst_rgb : Z;
  gl_blend_src_alpha : Z;
  gl_blend_dst_alpha : Z;
  gl_blend_equation_rgb : Z;
  gl_blend_equation_alpha : Z;
  gl_color_writemask : Z * Z * Z * Z;
  gl_polygon_mode : Z;
  gl_stencil_writemask : Z;
  gl_stencil_func : Z;
  gl_stencil_ref : Z;
  gl_stencil_value_mask : Z;
  gl_stencil_fail : Z;
  gl_stencil_pass_depth_fail : Z;
  gl_stencil_pass_depth_pass : Z;
}.

(** The messages nodes.c emits through [LOG], with the node they are about. *)
Inductive log_msg :=
| LOG_CREATED (node : Z)
| LOG_RELEASE (node : Z)
| LOG_UNINIT (node : Z)
| LOG_OTHER_CTX (node : Z)
| LOG_INIT (node : Z)
| LOG_PREFETCH (node : Z)
| LOG_UPDATE (node : Z) (t : float)
| LOG_ALREADY_UPDATED (node : Z) (t : float)
| LOG_DRAW (node : Z)
| LOG_PARAM_NOT_FOUND (node : Z) (k : string)
| LOG_UNABLE_TO_ADD (node : Z) (k : string)
| LOG_UNABLE_TO_SET (node : Z) (k : string)
| LOG_DELETE (node : Z).

(** The program state: the typed heap, the driver and the log (most recent
    message last). *)
Record world := {
  nodes : gmap Z ngl_node;
  arrays : gmap Z (list Z);
  hmaps : gmap Z (list (string * Z));
  gl : gldriver;
  log : list log_msg;
}.

(** ** Computations *)

Inductive fault :=
| AssertFailed
| BadAccess
| Undefined
| OutOfFuel.

Inductive result (A : Type) :=
| Done (a : A) (w : world)
| Fault (f : fault).
Arguments Done {A} a w.
Arguments Fault {A} f.

Definition M (A : Type) : Type := world -> result A.

Definition ret {A} (a : A) : M A := fun w => Done a w.

Definition bind {A B} (m : M A) (k : A -> M B) : M B :=
  fun w => match m w with
           | Done a w' => k a w'
           | Fault f => Fault f
           end.

Definition fail {A} (f : fault) : M A := fun _ => Fault f.

Notation "'let*' x ':=' m 'in' k" := (bind m (fun x => k))
  (at level 10, x name, m at level 100, k at level 200).
Notation "m ';;' k" := (bind m (fun _ => k))
  (at level 100, k at level 200, right associativity).

Definition ngli_assert (c : bool) : M unit :=
  if c then ret tt else fail AssertFailed.

Definition add_log (m : log_msg) (w : world) : world :=
  {| nodes := nodes w; arrays := arrays w; hmaps := hmaps w; gl := gl w;
     log := log w ++ [m] |}.

Definition LOG (m : log_msg) : M unit := fun w => Done tt (add_log m w).

(** *** Access to the typed heap *)

Definition set_nodes (ns : gmap Z ngl_node) (w : world) : world :=
  {| nodes := ns; arrays := arrays w; hmaps := hmaps w; gl := gl w; log := log w |}.

Definition set_gl (d : gldriver) (w : world) : world :=
  {| nodes := nodes w; arrays := arrays w; hmaps := hmaps w; gl := d; log := log w |}.

(** Reading through a node pointer; a dangling or null pointer faults. *)
Definition get_node (node : Z) : M ngl_node :=
  fun w => match nodes w !! node with
           | Some nd => Done nd w
           | None => Fault BadAccess
           end.

(** Writing the header of a live node. *)
Definition put_node (node : Z) (nd : ngl_node) : M unit :=
  fun w => match nodes w !! node with
           | Some _ => Done tt (set_nodes (<[node := nd]> (nodes w)) w)
           | None => Fault BadAccess
           end.

Definition modify_node (node : Z) (f : ngl_node -> ngl_node) : M unit :=
  let* nd := get_node node in put_node node (f nd).

(** [free(node)] *)
Definition free_node (node : Z) : M unit :=
  fun w => match nodes w !! node with
           | Some _ => Done tt (set_nodes (delete node (nodes w)) w)
           | None => Fault BadAccess
           end.

Definition get_gl : M gldriver := fun w => Done (gl w) w.
Definition put_gl (d : gldriver) : M unit := fun w => Done tt (set_gl d w).

(** [elems[j]] for an array of node pointers at address [elems]. *)
Definition load_elem (elems j : Z) : M Z :=
  fun w => match arrays w !! elems with
           | Some l => if j <? 0 then Fault BadAccess
                       else match l !! Z.to_nat j with
                            | Some p => Done p w
                            | None => Fault BadAccess
                            end
           | None => Fault BadAccess
           end.

(** The entries of the hash map at address [hmap], in the order
    [ngli_hmap_next] enumerates them (hmap.c). *)
Definition load_hmap (hmap : Z) : M (list (string * Z)) :=
  fun w => match hmaps w !! hmap with
           | Some l => Done l w
           | None => Fault BadAccess
           end.

(** Field assignments on a node header. *)
Definition set_ctx (v : Z) (nd : ngl_node) : ngl_node :=
  {| class := class nd; ctx := v; state := state nd; is_active := is_active nd;
     visit_time := visit_time nd; last_update_time := last_update_time nd;
     refcount := refcount nd; glstates := glstates nd;
     nb_glstates := nb_glstates nd; name := name nd; priv_data := priv_data nd |}.

Definition set_state (v : node_state) (nd : ngl_node) : ngl_node :=
  {| class := class nd; ctx := ctx nd; state := v; is_active := is_active nd;
     visit_time := visit_time nd; last_update_time := last_update_time nd;
     refcount := refcount nd; glstates := glstates nd;
     nb_glstates := nb_glstates nd; name := name nd; priv_data := priv_data nd |}.

Definition set_is_active (v : Z) (nd : ngl_node) : ngl_node :=
  {| class := class nd; ctx := ctx nd; state := state nd; is_active := v;
     visit_time := visit_time nd; last_update_time := last_update_time nd;
     refcount := refcount nd; glstates := glstates nd;
     nb_glstates := nb_glstates nd; name := name nd; priv_data := priv_data nd |}.

Definition set_visit_time (v : float) (nd : ngl_node) : ngl_node :=
  {| class := class nd; ctx := ctx nd; state := state nd; is_active := is_active nd;
     visit_time := v; last_update_time := last_update_time nd;
     refcount := refcount nd; glstates := glstates nd;
     nb_glstates := nb_glstates nd; name := name nd; priv_data := priv_data nd |}.

Definition set_last_update_time (v : float) (nd : ngl_node) : ngl_node :=
  {| class := class nd; ctx := ctx nd; state := state nd; is_active := is_active nd;
     visit_time := visit_time nd; last_update_time := v;
     refcount := refcount nd; glstates := glstates nd;
     nb_glstates := nb_glstates nd; name := name nd; priv_data := priv_data nd |}.

Definition set_refcount (v : Z) (nd : ngl_node) : ngl_node :=
  {| class := class nd; ctx := ctx nd; state := state nd; is_active := is_active nd;
     visit_time := visit_time nd; last_update_time := last_update_time nd;
     refcount := v; glstates := glstates nd;
     nb_glstates := nb_glstates nd; name := name nd; priv_data := priv_data nd |}.

Definition set_priv_data (v : list Z) (nd : ngl_node) : ngl_node :=
  {| class := class nd; ctx := ctx nd; state := state nd; is_active := is_active nd;
     visit_time := visit_time nd; last_update_time := last_update_time nd;
     refcount := refcount nd; glstates := glstates nd;
     nb_glstates := nb_glstates nd; name := name nd; priv_data := v |}.

(** *** Bytes *)

Fixpoint le_decode (l : list Z) : Z :=
  match l with
  | [] => 0
  | b :: r => b + 256 * le_decode r
  end.

Fixpoint le_encode (n : nat) (v : Z) : list Z :=
  match n with
  | O => []
  | S n' => v mod 256 :: le_encode n' (v / 256)
  end.

(** The [len] bytes at [off], when they lie inside the block. *)
Definition load_bytes (bs : list Z) (off len : Z) : option (list Z) :=
  if (0 <=? off) && (0 <=? len) && (off + len <=? Z.of_nat (length bs))
  then Some (take (Z.to_nat len) (drop (Z.to_nat off) bs))
  else None.

Definition store_bytes (bs : list Z) (off : Z) (new : list Z) : option (list Z) :=
  if (0 <=? off) && (off + Z.of_nat (length new) <=? Z.of_nat (length bs))
  then Some (take (Z.to_nat off) bs ++ new
             ++ drop (Z.to_nat off + length new) bs)
  else None.

(** [memset(base + off, c, len)] on a block; writing outside the block is an
    invalid access. *)
Definition memset (bs : list Z) (off c len : Z) : option (list Z) :=
  if (0 <=? len) then store_bytes bs off (replicate (Z.to_nat len) c) else None.

(** A pointer stored at [off] (8 bytes, little endian). *)
Definition load_ptr (bs : list Z) (off : Z) : option Z :=
  le_decode <$> load_bytes bs off 8.

(** An [int] stored at [off]. *)
Definition load_int (bs : list Z) (off : Z) : option Z :=
  (fun l => to_int32 (le_decode l)) <$> load_bytes bs off 4.

Definition store_int (bs : list Z) (off v : Z) : option (list Z) :=
  store_bytes bs off (le_encode 4 v).

Definition of_option {A} (o : option A) : M A :=
  match o with
  | Some a => ret a
  | None => fail BadAccess
  end.

(** *** Parameter fields *)

(** The two base addresses parameter offsets are relative to: the node header
    (the node pointer cast to bytes) and the private block ([node->priv_data]). *)
Inductive base_ptr :=
| BASE_NODE (node : Z)
| BASE_PRIV (node : Z).

(** [offsetof(struct ngl_node, x)] for the two header fields that are
    parameters.  The header is declared in nodes.h; only the fact that the
    list pointer is followed by its element count (as every node list
    parameter is) and that the two offsets differ matters here. *)
Inductive header_field := FIELD_glstates | FIELD_name.

Definition OFFSET (x : header_field) : Z :=
  match x with
  | FIELD_glstates => 56
  | FIELD_name => 72
  end.

(** [const struct node_param ngli_base_node_params[]]; the flag of [glstates]
    is [PARAM_FLAG_DOT_DISPLAY_PACKED]. *)
Definition ngli_base_node_params : list node_param :=
  [ {| key := "glstates"; type := PARAM_TYPE_NODELIST;
       offset := OFFSET FIELD_glstates; flags := 4 |};
    {| key := "name"; type := PARAM_TYPE_STR;
       offset := OFFSET FIELD_name; flags := 0 |} ].

(** The pointer stored at [base_ptr + offset]: a child node, the elements
    of a node list or a hash map. *)
Definition base_load_ptr (base : base_ptr) (off : Z) : M Z :=
  match base with
  | BASE_PRIV node =>
      let* nd := get_node node in of_option (load_ptr (priv_data nd) off)
  | BASE_NODE node =>
      let* nd := get_node node in
      if off =? OFFSET FIELD_glstates then ret (glstates nd) else fail BadAccess
  end.

(** The [int] stored at [base_ptr + offset]: the length of a node list. *)
Definition base_load_int (base : base_ptr) (off : Z) : M Z :=
  match base with
  | BASE_PRIV node =>
      let* nd := get_node node in of_option (load_int (priv_data nd) off)
  | BASE_NODE node =>
      let* nd := get_node node in
      if off =? OFFSET FIELD_glstates + 8 then ret (nb_glstates nd)
      else fail BadAccess
  end.

(** ** The graphics driver and the state-override block *)

(** GL enumerants (glcorearb.h). *)
Definition GL_BLEND : Z := 0x0BE2.
Definition GL_BLEND_SRC_RGB : Z := 0x80C9.
Definition GL_BLEND_DST_RGB : Z := 0x80C8.
Definition GL_BLEND_SRC_ALPHA : Z := 0x80CB.
Definition GL_BLEND_DST_ALPHA : Z := 0x80CA.
Definition GL_BLEND_EQUATION_RGB : Z := 0x8009.
Definition GL_BLEND_EQUATION_ALPHA : Z := 0x883D.
Definition GL_COLOR_WRITEMASK : Z := 0x0C23.
Definition GL_POLYGON_MODE : Z := 0x0B40.
Definition GL_FRONT_AND_BACK : Z := 0x0408.
Definition GL_STENCIL_TEST : Z := 0x0B90.
Definition GL_STENCIL_WRITEMASK : Z := 0x0B98.
Definition GL_STENCIL_FUNC : Z := 0x0B92.
Definition GL_STENCIL_REF : Z := 0x0B97.
Definition GL_STENCIL_VALUE_MASK : Z := 0x0B93.
Definition GL_STENCIL_FAIL : Z := 0x0B94.
Definition GL_STENCIL_PASS_DEPTH_FAIL : Z := 0x0B95.
Definition GL_STENCIL_PASS_DEPTH_PASS : Z := 0x0B96.

(** Class identifiers of the state-override nodes (nodegl.h): four-character
    codes; only their being distinct matters. *)
Definition NGL_NODE_GLBLENDSTATE : Z := 0x474c4253.
Definition NGL_NODE_GLCOLORSTATE : Z := 0x474c4353.
Definition NGL_NODE_GLPOLYGONMODESTATE : Z := 0x474c5053.
Definition NGL_NODE_GLSTENCILSTATE : Z := 0x474c5353.
Definition NGL_NODE_GLSTATE : Z := 0x474c5354.

Definition uint32_wrap (z : Z) : Z := z mod 2 ^ 32.

(** A [GLboolean] argument or result: [GL_FALSE] or [GL_TRUE]. *)
Definition GLboolean_of (v : Z) : Z := if v mod 256 =? 0 then 0 else 1.

(** Modelled from the spec: the graphics driver is an external collaborator
    ("GPU backend"); the calls below are the driver entry points nodes.c uses,
    acting on the tracked state of [gldriver] as the OpenGL specification
    describes them.  Values are 32-bit patterns; enumerant validation is not
    modelled. *)
Definition ngli_glGetIntegerv (pname : Z) : M Z :=
  let* d := get_gl in
  ret (if pname =? GL_BLEND_SRC_RGB then gl_blend_src_rgb d
       else if pname =? GL_BLEND_DST_RGB then gl_blend_dst_rgb d
       else if pname =? GL_BLEND_SRC_ALPHA then gl_blend_src_alpha d
       else if pname =? GL_BLEND_DST_ALPHA then gl_blend_dst_alpha d
       else if pname =? GL_BLEND_EQUATION_RGB then gl_blend_equation_rgb d
       else if pname =? GL_BLEND_EQUATION_ALPHA then gl_blend_equation_alpha d
       else if pname =? GL_POLYGON_MODE then gl_polygon_mode d
       else if pname =? GL_STENCIL_WRITEMASK then gl_stencil_writemask d
       else if pname =? GL_STENCIL_FUNC then gl_stencil_func d
       else if pname =? GL_STENCIL_REF then gl_stencil_ref d
       else if pname =? GL_STENCIL_VALUE_MASK then gl_stencil_value_mask d
       else if pname =? GL_STENCIL_FAIL then gl_stencil_fail d
       else if pname =? GL_STENCIL_PASS_DEPTH_FAIL
            then gl_stencil_pass_depth_fail d
       else if pname =? GL_STENCIL_PASS_DEPTH_PASS
            then gl_stencil_pass_depth_pass d
       else if bool_decide (pname ∈ gl_caps d) then 1 else 0).

(** [glGetBooleanv(GL_COLOR_WRITEMASK, rgba)] *)
Definition ngli_glGetBooleanv_color_writemask : M (Z * Z * Z * Z) :=
  let* d := get_gl in ret (gl_color_writemask d).

Definition with_caps (c : gset Z) (d : gldriver) : gldriver :=
  {| gl_caps := c;
     gl_blend_src_rgb := gl_blend_src_rgb d;
     gl_blend_dst_rgb := gl_blend_dst_rgb d;
     gl_blend_src_alpha := gl_blend_src_alpha d;
     gl_blend_dst_alpha := gl_blend_dst_alpha d;
     gl_blend_equation_rgb := gl_blend_equation_rgb d;
     gl_blend_equation_alpha := gl_blend_equation_alpha d;
     gl_color_writemask := gl_color_writemask d;
     gl_polygon_mode := gl_polygon_mode d;
     gl_stencil_writemask := gl_stencil_writemask d;
     gl_stencil_func := gl_stencil_func d;
     gl_stencil_ref := gl_stencil_ref d;
     gl_stencil_value_mask := gl_stencil_value_mask d;
     gl_stencil_fail := gl_stencil_fail d;
     gl_stencil_pass_depth_fail := gl_stencil_pass_depth_fail d;
     gl_stencil_pass_depth_pass := gl_stencil_pass_depth_pass d |}.

Definition ngli_glEnable (cap : Z) : M unit :=
  let* d := get_gl in put_gl (with_caps (gl_caps d ∪ {[cap]}) d).

Definition ngli_glDisable (cap : Z) : M unit :=
  let* d := get_gl in put_gl (with_caps (gl_caps d ∖ {[cap]}) d).

Definition ngli_glBlendFuncSeparate (src_rgb dst_rgb src_alpha dst_alpha : Z)
    : M unit :=
  let* d := get_gl in
  put_gl
    {| gl_caps := gl_caps d;
       gl_blend_src_rgb := src_rgb;
       gl_blend_dst_rgb := dst_rgb;
       gl_blend_src_alpha := src_alpha;
       gl_blend_dst_alpha := dst_alpha;
       gl_blend_equation_rgb := gl_blend_equation_rgb d;
       gl_blend_equation_alpha := gl_blend_equation_alpha d;
       gl_color_writemask := gl_color_writemask d;
       gl_polygon_mode := gl_polygon_mode d;
       gl_stencil_writemask := gl_stencil_writemask d;
       gl_stencil_func := gl_stencil_func d;
       gl_stencil_ref := gl_stencil_ref d;
       gl_stencil_value_mask := gl_stencil_value_mask d;
       gl_stencil_fail := gl_stencil_fail d;
       gl_stencil_pass_depth_fail := gl_stencil_pass_depth_fail d;
       gl_stencil_pass_depth_pass := gl_stencil_pass_depth_pass d |}.

Definition ngli_glBlendEquationSeparate (mode_rgb mode_alpha : Z) : M unit :=
  let* d := get_gl in
  put_gl
    {| gl_caps := gl_caps d;
       gl_blend_src_rgb := gl_blend_src_rgb d;
       gl_blend_dst_rgb := gl_blend_dst_rgb d;
       gl_blend_src_alpha := gl_blend_src_alpha d;
       gl_blend_dst_alpha := gl_blend_dst_alpha d;
       gl_blend_equation_rgb := mode_rgb;
       gl_blend_equation_alpha := mode_alpha;
       gl_color_writemask := gl_color_writemask d;
       gl_polygon_mode := gl_polygon_mode d;
       gl_stencil_writemask := gl_stencil_writemask d;
       gl_stencil_func := gl_stencil_func d;
       gl_stencil_ref := gl_stencil_ref d;
       gl_stencil_value_mask := gl_stencil_value_mask d;
       gl_stencil_fail := gl_stencil_fail d;
       gl_stencil_pass_depth_fail := gl_stencil_pass_depth_fail d;
       gl_stencil_pass_depth_pass := gl_stencil_pass_depth_pass d |}.

Definition ngli_glColorMask (r g b a : Z) : M unit :=
  let* d := get_gl in
  put_gl
    {| gl_caps := gl_caps d;
       gl_blend_src_rgb := gl_blend_src_rgb d;
       gl_blend_dst_rgb := gl_blend_dst_rgb d;
       gl_blend_src_alpha := gl_blend_src_alpha d;
       gl_blend_dst_alpha := gl_blend_dst_alpha d;
       gl_blend_equation_rgb := gl_blend_equation_rgb d;
       gl_blend_equation_alpha := gl_blend_equation_alpha d;
       gl_color_writemask :=
         (GLboolean_of r, GLboolean_of g, GLboolean_of b, GLboolean_of a);
       gl_polygon_mode := gl_polygon_mode d;
       gl_stencil_writemask := gl_stencil_writemask d;
       gl_stencil_func := gl_stencil_func d;
       gl_stencil_ref := gl_stencil_ref d;
       gl_stencil_value_mask := gl_stencil_value_mask d;
       gl_stencil_fail := gl_stencil_fail d;
       gl_stencil_pass_depth_fail := gl_stencil_pass_depth_fail d;
       gl_stencil_pass_depth_pass := gl_stencil_pass_depth_pass d |}.

(** [glPolygonMode(GL_FRONT_AND_BACK, mode)] *)
Definition ngli_glPolygonMode (face mode : Z) : M unit :=
  let* d := get_gl in
  put_gl
    {| gl_caps := gl_caps d;
       gl_blend_src_rgb := gl_blend_src_rgb d;
       gl_blend_dst_rgb := gl_blend_dst_rgb d;
       gl_blend_src_alpha := gl_blend_src_alpha d;
       gl_blend_dst_alpha := gl_blend_dst_alpha d;
       gl_blend_equation_rgb := gl_blend_equation_rgb d;
       gl_blend_equation_alpha := gl_blend_equation_alpha d;
       gl_color_writemask := gl_color_writemask d;
       gl_polygon_mode :=
         if face =? GL_FRONT_AND_BACK then mode else gl_polygon_mode d;
       gl_stencil_writemask := gl_stencil_writemask d;
       gl_stencil_func := gl_stencil_func d;
       gl_stencil_ref := gl_stencil_ref d;
       gl_stencil_value_mask := gl_stencil_value_mask d;
       gl_stencil_fail := gl_stencil_fail d;
       gl_stencil_pass_depth_fail := gl_stencil_pass_depth_fail d;
       gl_stencil_pass_depth_pass := gl_stencil_pass_depth_pass d |}.

Definition ngli_glStencilMask (mask : Z) : M unit :=
  let* d := get_gl in
  put_gl
    {| gl_caps := gl_caps d;
       gl_blend_src_rgb := gl_blend_src_rgb d;
       gl_blend_dst_rgb := gl_blend_dst_rgb d;
       gl_blend_src_alpha := gl_blend_src_alpha d;
       gl_blend_dst_alpha := gl_blend_dst_alpha d;
       gl_blend_equation_rgb := gl_blend_equation_rgb d;
       gl_blend_equation_alpha := gl_blend_equation_alpha d;
       gl_color_writemask := gl_color_writemask d;
       gl_polygon_mode := gl_polygon_mode d;
       gl_stencil_writemask := mask;
       gl_stencil_func := gl_stencil_func d;
       gl_stencil_ref := gl_stencil_ref d;
       gl_stencil_value_mask := gl_stencil_value_mask d;
       gl_stencil_fail := gl_stencil_fail d;
       gl_stencil_pass_depth_fail := gl_stencil_pass_depth_fail d;
       gl_stencil_pass_depth_pass := gl_stencil_pass_depth_pass d |}.

Definition ngli_glStencilFunc (func ref mask : Z) : M unit :=
  let* d := get_gl in
  put_gl
    {| gl_caps := gl_caps d;
       gl_blend_src_rgb := gl_blend_src_rgb d;
       gl_blend_dst_rgb := gl_blend_dst_rgb d;
       gl_blend_src_alpha := gl_blend_src_alpha d;
       gl_blend_dst_alpha := gl_blend_dst_alpha d;
       gl_blend_equation_rgb := gl_blend_equation_rgb d;
       gl_blend_equation_alpha := gl_blend_equation_alpha d;
       gl_color_writemask := gl_color_writemask d;
       gl_polygon_mode := gl_polygon_mode d;
       gl_stencil_writemask := gl_stencil_writemask d;
       gl_stencil_func := func;
       gl_stencil_ref := ref;
       gl_stencil_value_mask := mask;
       gl_stencil_fail := gl_stencil_fail d;
       gl_stencil_pass_depth_fail := gl_stencil_pass_depth_fail d;
       gl_stencil_pass_depth_pass := gl_stencil_pass_depth_pass d |}.

Definition ngli_glStencilOp (sfail dpfail dppass : Z) : M unit :=
  let* d := get_gl in
  put_gl
    {| gl_caps := gl_caps d;
       gl_blend_src_rgb := gl_blend_src_rgb d;
       gl_blend_dst_rgb := gl_blend_dst_rgb d;
       gl_blend_src_alpha := gl_blend_src_alpha d;
       gl_blend_dst_alpha := gl_blend_dst_alpha d;
       gl_blend_equation_rgb := gl_blend_equation_rgb d;
       gl_blend_equation_alpha := gl_blend_equation_alpha d;
       gl_color_writemask := gl_color_writemask d;
       gl_polygon_mode := gl_polygon_mode d;
       gl_stencil_writemask := gl_stencil_writemask d;
       gl_stencil_func := gl_stencil_func d;
       gl_stencil_ref := gl_stencil_ref d;
       gl_stencil_value_mask := gl_stencil_value_mask d;
       gl_stencil_fail := sfail;
       gl_stencil_pass_depth_fail := dpfail;
       gl_stencil_pass_depth_pass := dppass |}.

(** The fields of [struct glstate], the private block of a state-override
    node.  The structure is declared in nodes.h; the fields are the ones
    nodes.c accesses, each a 32-bit word, in this order: a scalar
    [capability], pairs indexed by 0 (the configured value) and 1 (the saved
    value), and the 2x4 matrix [rgba]. *)
Inductive glstate_field :=
| capability | enabled
| src_rgb | dst_rgb | src_alpha | dst_alpha | mode_rgb | mode_alpha
| rgba
| mode
| writemask | func | func_ref | func_mask
| op_sfail | op_dpfail | op_dppass.

Definition glstate_offset (f : glstate_field) : Z :=
  match f with
  | capability => 0
  | enabled => 4
  | src_rgb => 12
  | dst_rgb => 20
  | src_alpha => 28
  | dst_alpha => 36
  | mode_rgb => 44
  | mode_alpha => 52
  | rgba => 60
  | mode => 92
  | writemask => 100
  | func => 108
  | func_ref => 116
  | func_mask => 124
  | op_sfail => 132
  | op_dpfail => 140
  | op_dppass => 148
  end.

Definition sizeof_glstate : Z := 156.

(** [st->f[i]] read through [stnode->priv_data]. *)
Definition st_load (stnode : Z) (f : glstate_field) (i : Z) : M Z :=
  let* nd := get_node stnode in
  of_option (le_decode <$> load_bytes (priv_data nd) (glstate_offset f + 4 * i) 4).

(** [st->f[i] = v] *)
Definition st_store (stnode : Z) (f : glstate_field) (i v : Z) : M unit :=
  let* nd := get_node stnode in
  let* priv := of_option (store_int (priv_data nd) (glstate_offset f + 4 * i) v) in
  put_node stnode (set_priv_data priv nd).

(** [ngli_glGetIntegerv(gl, pname, (GLint * )&st->f[i])] *)
Definition st_get_integer (pname stnode : Z) (f : glstate_field) (i : Z)
    : M unit :=
  let* v := ngli_glGetIntegerv pname in st_store stnode f i v.

(** The word [st->f[i]] of a state-override block, as [st_load] reads it
    (0 when it lies outside the block). *)
Definition glstate_word (bs : list Z) (f : glstate_field) (i : Z) : Z :=
  default 0 (le_decode <$> load_bytes bs (glstate_offset f + 4 * i) 4).

(** The enumerants [ngli_glGetIntegerv] answers with a value of the tracked
    state; any other enumerant is answered with the state of the capability
    it names. *)
Definition value_pnames : list Z :=
  [ GL_BLEND_SRC_RGB; GL_BLEND_DST_RGB; GL_BLEND_SRC_ALPHA; GL_BLEND_DST_ALPHA;
    GL_BLEND_EQUATION_RGB; GL_BLEND_EQUATION_ALPHA; GL_POLYGON_MODE;
    GL_STENCIL_WRITEMASK; GL_STENCIL_FUNC; GL_STENCIL_REF;
    GL_STENCIL_VALUE_MASK; GL_STENCIL_FAIL; GL_STENCIL_PASS_DEPTH_FAIL;
    GL_STENCIL_PASS_DEPTH_PASS ].

(** ** Classes and the engine *)

(** The entry points of nodes.c a class callback can re-enter. *)
Record engine := {
  call_init : Z -> M Z;
  call_visit : Z -> Z -> float -> M Z;
  call_honor_release_prefetch : Z -> float -> M Z;
  call_update : Z -> float -> M Z;
  call_draw : Z -> M unit;
  call_attach_ctx : Z -> Z -> M Z;
  call_detach_ctx : Z -> M unit;
}.

(** [struct node_class]: an absent callback or schema is a null pointer. *)
Record node_class := {
  id : Z;
  class_name : string;
  params : option (list node_param);
  priv_size : Z;
  init : option (engine -> Z -> M Z);
  prefetch : option (engine -> Z -> M Z);
  release : option (engine -> Z -> M unit);
  uninit : option (engine -> Z -> M unit);
  update : option (engine -> Z -> float -> M Z);
  draw : option (engine -> Z -> M unit);
  visit : option (engine -> Z -> Z -> float -> M Z);
}.

(** The [while (par && par->key)] view of a schema pointer. *)
Definition schema (params : option (list node_param)) : list node_param :=
  default [] params.

(** C's [a != b] on doubles. *)
Definition double_ne (a b : float) : bool := negb (PrimFloat.eqb a b).

Section Engine.

(** The class descriptors of the program, by address
    ([NODE_MAP_TYPE2CLASS] and the [extern] class definitions). *)
Variable classes : Z -> node_class.

Definition class_of (nd : ngl_node) : node_class := classes (class nd).

(** *** Lifecycle *)

Definition node_release (e : engine) (node : Z) : M unit :=
  let* nd := get_node node in
  if state_eqb (state nd) STATE_IDLE then ret tt
  else if negb (state_eqb (state nd) STATE_READY) then ret tt
  else
    ngli_assert (negb (ctx nd =? 0));;
    match release (class_of nd) with
    | Some cb => LOG (LOG_RELEASE node);; cb e node
    | None => ret tt
    end;;
    modify_node node (set_state STATE_IDLE).

(** The loop of [reset_non_params]: [cur_offset] and the block after the
    parameters walked so far; [None] when a [memset] leaves the block. *)
Fixpoint reset_non_params_loop (par : list node_param) (cur_offset : Z)
    (priv : list Z) : option (Z * list Z) :=
  match par with
  | [] => Some (cur_offset, priv)
  | p :: par' =>
      let offset := size_t_wrap (offset p) in
      match (if negb (offset =? cur_offset)
             then memset priv cur_offset 0 (size_t_wrap (offset - cur_offset))
             else Some priv) with
      | Some priv' =>
          reset_non_params_loop par'
            (size_t_wrap (offset + opt_sizes (type p))) priv'
      | None => None
      end
  end.

(** The effect of [reset_non_params] on the bytes of the block: the loop,
    then the [memset] of the tail up to [priv_size]. *)
Definition reset_block (par : list node_param) (priv_size : Z)
    (priv : list Z) : option (list Z) :=
  match reset_non_params_loop par 0 priv with
  | Some (cur_offset, priv') =>
      memset priv' cur_offset 0 (size_t_wrap (priv_size - cur_offset))
  | None => None
  end.

Definition reset_non_params (node : Z) : M unit :=
  let* nd := get_node node in
  let* priv := of_option
                 (reset_block (schema (params (class_of nd)))
                    (priv_size (class_of nd)) (priv_data nd)) in
  modify_node node (set_priv_data priv).

Definition node_uninit (e : engine) (node : Z) : M unit :=
  let* nd := get_node node in
  if state_eqb (state nd) STATE_UNINITIALIZED then ret tt
  else
    ngli_assert (negb (ctx nd =? 0));;
    node_release e node;;
    let* nd := get_node node in
    match uninit (class_of nd) with
    | Some cb => LOG (LOG_UNINIT node);; cb e node
    | None => ret tt
    end;;
    reset_non_params node;;
    modify_node node (set_state STATE_UNINITIALIZED).

(** *** Context attachment *)

(** Loops return the value the enclosing function returns early with (a
    negative [ret]), or a non-negative value when they run to their end. *)
Fixpoint set_ctx_elems (e : engine) (elems ctx j : Z) (n : nat) : M Z :=
  match n with
  | O => ret 0
  | S n' =>
      let* child := load_elem elems j in
      let* r := call_attach_ctx e child ctx in
      if r <? 0 then ret r else set_ctx_elems e elems ctx (j + 1) n'
  end.

Fixpoint set_ctx_entries (e : engine) (entries : list (string * Z)) (ctx : Z)
    : M Z :=
  match entries with
  | [] => ret 0
  | entry :: rest =>
      let* r := call_attach_ctx e entry.2 ctx in
      if r <? 0 then ret r else set_ctx_entries e rest ctx
  end.

Fixpoint node_set_children_ctx_loop (e : engine) (base_ptr : base_ptr)
    (params : list node_param) (ctx : Z) : M Z :=
  match params with
  | [] => ret 0
  | par :: rest =>
      let* r :=
        match type par with
        | PARAM_TYPE_NODE =>
            let* node := base_load_ptr base_ptr (offset par) in
            if negb (node =? 0) then call_attach_ctx e node ctx else ret 0
        | PARAM_TYPE_NODELIST =>
            let* elems := base_load_ptr base_ptr (offset par) in
            let* nb_elems := base_load_int base_ptr (offset par + 8) in
            set_ctx_elems e elems ctx 0 (Z.to_nat nb_elems)
        | PARAM_TYPE_NODEDICT =>
            let* hmap := base_load_ptr base_ptr (offset par) in
            if hmap =? 0 then ret 0
            else let* entries := load_hmap hmap in
                 set_ctx_entries e entries ctx
        | _ => ret 0
        end in
      if r <? 0 then ret r else node_set_children_ctx_loop e base_ptr rest ctx
  end.

Definition node_set_children_ctx (e : engine) (base_ptr : base_ptr)
    (params : option (list node_param)) (ctx : Z) : M Z :=
  match params with
  | None => ret 0
  | Some l =>
      let* r := node_set_children_ctx_loop e base_ptr l ctx in
      if r <? 0 then ret r else ret 0
  end.

Definition node_set_ctx (e : engine) (node ctxp : Z) : M Z :=
  let* nd := get_node node in
  let* conflict :=
    if negb (ctxp =? 0) then
      if negb (ctx nd =? 0) then
        if negb (ctx nd =? ctxp) then
          LOG (LOG_OTHER_CTX node);; ret true
        else ret false
      else modify_node node (set_ctx ctxp);; ret false
    else
      node_uninit e node;;
      modify_node node (set_ctx 0);; ret false in
  if conflict : bool then ret (-1)
  else
    let* nd := get_node node in
    let* r := node_set_children_ctx e (BASE_PRIV node)
                (params (class_of nd)) ctxp in
    if r <? 0 then ret r
    else
      let* r := node_set_children_ctx e (BASE_NODE node)
                  (Some ngli_base_node_params) ctxp in
      if r <? 0 then ret r else ret 0.

Definition ngli_node_attach_ctx (e : engine) (node ctxp : Z) : M Z :=
  node_set_ctx e node ctxp.

Definition ngli_node_detach_ctx (e : engine) (node : Z) : M unit :=
  let* r := node_set_ctx e node 0 in
  ngli_assert (r =? 0).

(** *** The per-frame passes *)

(** [for (int i = 0; i < node->nb_glstates; i++)] of [ngli_node_init]: the
    bound and the array are read from the node at every iteration; [n] is the
    number of overrides when the loop starts. *)
Fixpoint init_glstates (e : engine) (node i : Z) (n : nat) : M Z :=
  match n with
  | O => ret 0
  | S n' =>
      let* nd := get_node node in
      if i <? nb_glstates nd then
        let* stnode := load_elem (glstates nd) i in
        let* r := call_init e stnode in
        if r <? 0 then ret r else init_glstates e node (i + 1) n'
      else ret 0
  end.

Definition ngli_node_init (e : engine) (node : Z) : M Z :=
  let* nd := get_node node in
  if state_eqb (state nd) STATE_INITIALIZED then ret 0
  else if negb (state_eqb (state nd) STATE_UNINITIALIZED) then ret 0
  else
    ngli_assert (negb (ctx nd =? 0));;
    let* r := match init (class_of nd) with
              | Some cb => LOG (LOG_INIT node);; cb e node
              | None => ret 0
              end in
    if r <? 0 then ret r
    else
      let* nd := get_node node in
      let* r := init_glstates e node 0 (Z.to_nat (nb_glstates nd)) in
      if r <? 0 then ret r
      else modify_node node (set_state STATE_INITIALIZED);; ret 0.

Fixpoint visit_elems (e : engine) (elems node : Z) (t : float) (i : Z)
    (n : nat) : M Z :=
  match n with
  | O => ret 0
  | S n' =>
      let* child := load_elem elems i in
      let* r := call_visit e child node t in
      if r <? 0 then ret r else visit_elems e elems node t (i + 1) n'
  end.

Fixpoint visit_entries (e : engine) (entries : list (string * Z)) (node : Z)
    (t : float) : M Z :=
  match entries with
  | [] => ret 0
  | entry :: rest =>
      let* r := call_visit e entry.2 node t in
      if r <? 0 then ret r else visit_entries e rest node t
  end.

(** The [while (par && par->key)] loop of [ngli_node_visit]. *)
Fixpoint visit_params (e : engine) (node : Z) (t : float)
    (par : list node_param) : M Z :=
  match par with
  | [] => ret 0
  | p :: par' =>
      let* r :=
        match type p with
        | PARAM_TYPE_NODE =>
            let* child := base_load_ptr (BASE_PRIV node) (offset p) in
            if negb (child =? 0) then call_visit e child node t else ret 0
        | PARAM_TYPE_NODELIST =>
            let* elems := base_load_ptr (BASE_PRIV node) (offset p) in
            let* nb_elems := base_load_int (BASE_PRIV node) (offset p + 8) in
            visit_elems e elems node t 0 (Z.to_nat nb_elems)
        | PARAM_TYPE_NODEDICT =>
            let* hmap := base_load_ptr (BASE_PRIV node) (offset p) in
            if hmap =? 0 then ret 0
            else let* entries := load_hmap hmap in
                 visit_entries e entries node t
        | _ => ret 0
        end in
      if r <? 0 then ret r else visit_params e node t par'
  end.

Definition ngli_node_visit (e : engine) (node from : Z) (t : float) : M Z :=
  let* r := ngli_node_init e node in
  if r <? 0 then ret r
  else
    let* nd := get_node node in
    match visit (class_of nd) with
    | Some cb => cb e node from t
    | None =>
        let* act := if negb (from =? 0)
                    then let* f := get_node from in ret (is_active f)
                    else ret 1 in
        modify_node node (set_is_active act);;
        modify_node node (set_visit_time t);;
        let* nd := get_node node in
        visit_params e node t (schema (params (class_of nd)))
    end.

Definition node_prefetch (e : engine) (node : Z) : M Z :=
  let* nd := get_node node in
  if state_eqb (state nd) STATE_READY then ret 0
  else
    let* r := ngli_node_init e node in
    if r <? 0 then ret r
    else
      let* nd := get_node node in
      let* r := match prefetch (class_of nd) with
                | Some cb => LOG (LOG_PREFETCH node);; cb e node
                | None => ret 0
                end in
      if r <? 0 then ret r
      else modify_node node (set_state STATE_READY);; ret 0.

Fixpoint honor_release_prefetch_elems (e : engine) (elems : Z) (t : float)
    (i : Z) (n : nat) : M Z :=
  match n with
  | O => ret 0
  | S n' =>
      let* child := load_elem elems i in
      let* r := call_honor_release_prefetch e child t in
      if r <? 0 then ret r
      else honor_release_prefetch_elems e elems t (i + 1) n'
  end.

Fixpoint honor_release_prefetch_entries (e : engine)
    (entries : list (string * Z)) (t : float) : M Z :=
  match entries with
  | [] => ret 0
  | entry :: rest =>
      let* r := call_honor_release_prefetch e entry.2 t in
      if r <? 0 then ret r else honor_release_prefetch_entries e rest t
  end.

(** The [while (par && par->key)] loop of
    [ngli_node_honor_release_prefetch]. *)
Fixpoint honor_release_prefetch_params (e : engine) (node : Z) (t : float)
    (par : list node_param) : M Z :=
  match par with
  | [] => ret 0
  | p :: par' =>
      let* r :=
        match type p with
        | PARAM_TYPE_NODE =>
            let* child := base_load_ptr (BASE_PRIV node) (offset p) in
            if negb (child =? 0) then call_honor_release_prefetch e child t
            else ret 0
        | PARAM_TYPE_NODELIST =>
            let* elems := base_load_ptr (BASE_PRIV node) (offset p) in
            let* nb_elems := base_load_int (BASE_PRIV node) (offset p + 8) in
            honor_release_prefetch_elems e elems t 0 (Z.to_nat nb_elems)
        | PARAM_TYPE_NODEDICT =>
            let* hmap := base_load_ptr (BASE_PRIV node) (offset p) in
            if hmap =? 0 then ret 0
            else let* entries := load_hmap hmap in
                 honor_release_prefetch_entries e entries t
        | _ => ret 0
        end in
      if r <? 0 then ret r else honor_release_prefetch_params e node t par'
  end.

Definition ngli_node_honor_release_prefetch (e : engine) (node : Z)
    (t : float) : M Z :=
  let* nd := get_node node in
  if double_ne (visit_time nd) t then ret 0
  else
    let* r := honor_release_prefetch_params e node t
                (schema (params (class_of nd))) in
    if r <? 0 then ret r
    else
      let* nd := get_node node in
      if negb (is_active nd =? 0) then node_prefetch e node
      else node_release e node;; ret 0.

Definition ngli_node_update (e : engine) (node : Z) (t : float) : M Z :=
  let* r := ngli_node_init e node in
  if r <? 0 then ret r
  else
    let* nd := get_node node in
    match update (class_of nd) with
    | Some cb =>
        let* r :=
          if double_ne (last_update_time nd) t then
            let* r := node_prefetch e node in
            if r <? 0 then ret r
            else LOG (LOG_UPDATE node t);; cb e node t
          else LOG (LOG_ALREADY_UPDATED node t);; ret 0 in
        if r <? 0 then ret r
        else modify_node node (set_last_update_time t);; ret 0
    | None => ret 0
    end.

(** *** Pipeline-state scoping *)

(** One iteration of the loop of [ngli_honor_glstates]. *)
Definition honor_glstate (stnode : Z) : M unit :=
  let* snd := get_node stnode in
  let cid := id (class_of snd) in
  if cid =? NGL_NODE_GLBLENDSTATE then
    let* cap := st_load stnode capability 0 in
    st_get_integer cap stnode enabled 1;;
    let* enabled0 := st_load stnode enabled 0 in
    if negb (enabled0 =? 0) then
      st_get_integer GL_BLEND_SRC_RGB stnode src_rgb 1;;
      st_get_integer GL_BLEND_DST_RGB stnode dst_rgb 1;;
      st_get_integer GL_BLEND_SRC_ALPHA stnode src_alpha 1;;
      st_get_integer GL_BLEND_DST_ALPHA stnode dst_alpha 1;;
      st_get_integer GL_BLEND_EQUATION_RGB stnode mode_rgb 1;;
      st_get_integer GL_BLEND_EQUATION_ALPHA stnode mode_alpha 1;;
      let* cap := st_load stnode capability 0 in
      ngli_glEnable cap;;
      let* a := st_load stnode src_rgb 0 in
      let* b := st_load stnode dst_rgb 0 in
      let* c := st_load stnode src_alpha 0 in
      let* d := st_load stnode dst_alpha 0 in
      ngli_glBlendFuncSeparate a b c d;;
      let* a := st_load stnode mode_rgb 0 in
      let* b := st_load stnode mode_alpha 0 in
      ngli_glBlendEquationSeparate a b
    else
      let* cap := st_load stnode capability 0 in
      ngli_glDisable cap
  else if cid =? NGL_NODE_GLCOLORSTATE then
    let* m := ngli_glGetBooleanv_color_writemask in
    st_store stnode rgba (4 * 1 + 0) m.1.1.1;;
    st_store stnode rgba (4 * 1 + 1) m.1.1.2;;
    st_store stnode rgba (4 * 1 + 2) m.1.2;;
    st_store stnode rgba (4 * 1 + 3) m.2;;
    let* r := st_load stnode rgba (4 * 0 + 0) in
    let* g := st_load stnode rgba (4 * 0 + 1) in
    let* b := st_load stnode rgba (4 * 0 + 2) in
    let* a := st_load stnode rgba (4 * 0 + 3) in
    ngli_glColorMask r g b a
  else if cid =? NGL_NODE_GLPOLYGONMODESTATE then
    st_get_integer GL_POLYGON_MODE stnode mode 1;;
    let* m := st_load stnode mode 0 in
    ngli_glPolygonMode GL_FRONT_AND_BACK m
  else if cid =? NGL_NODE_GLSTENCILSTATE then
    let* cap := st_load stnode capability 0 in
    st_get_integer cap stnode enabled 1;;
    let* enabled0 := st_load stnode enabled 0 in
    if negb (enabled0 =? 0) then
      st_get_integer GL_STENCIL_WRITEMASK stnode writemask 1;;
      st_get_integer GL_STENCIL_FUNC stnode func 1;;
      st_get_integer GL_STENCIL_REF stnode func_ref 1;;
      st_get_integer GL_STENCIL_VALUE_MASK stnode func_mask 1;;
      st_get_integer GL_STENCIL_FAIL stnode op_sfail 1;;
      st_get_integer GL_STENCIL_PASS_DEPTH_FAIL stnode op_dpfail 1;;
      st_get_integer GL_STENCIL_PASS_DEPTH_PASS stnode op_dppass 1;;
      let* cap := st_load stnode capability 0 in
      ngli_glEnable cap;;
      let* m := st_load stnode writemask 0 in
      ngli_glStencilMask m;;
      let* f := st_load stnode func 0 in
      let* r := st_load stnode func_ref 0 in
      let* m := st_load stnode func_mask 0 in
      ngli_glStencilFunc f r m;;
      let* a := st_load stnode op_sfail 0 in
      let* b := st_load stnode op_dpfail 0 in
      let* c := st_load stnode op_dppass 0 in
      ngli_glStencilOp a b c
    else
      let* cap := st_load stnode capability 0 in
      ngli_glDisable cap
  else
    let* cap := st_load stnode capability 0 in
    st_get_integer cap stnode enabled 1;;
    let* enabled0 := st_load stnode enabled 0 in
    let* enabled1 := st_load stnode enabled 1 in
    if negb (enabled0 =? enabled1) then
      let* cap := st_load stnode capability 0 in
      if negb (enabled0 =? 0) then ngli_glEnable cap else ngli_glDisable cap
    else ret tt.

Fixpoint honor_glstates_loop (glstates i : Z) (n : nat) : M unit :=
  match n with
  | O => ret tt
  | S n' =>
      let* stnode := load_elem glstates i in
      honor_glstate stnode;;
      honor_glstates_loop glstates (i + 1) n'
  end.

(** [ctx->glcontext] is read first: a null [ctx] is an invalid access. *)
Definition ngli_honor_glstates (ctxp nb_glstates glstates : Z) : M unit :=
  if ctxp =? 0 then fail BadAccess
  else honor_glstates_loop glstates 0 (Z.to_nat nb_glstates).

(** One iteration of the loop of [ngli_restore_glstates]. *)
Definition restore_glstate (stnode : Z) : M unit :=
  let* snd := get_node stnode in
  let cid := id (class_of snd) in
  if cid =? NGL_NODE_GLBLENDSTATE then
    let* enabled1 := st_load stnode enabled 1 in
    let* cap := st_load stnode capability 0 in
    if negb (enabled1 =? 0) then
      ngli_glEnable cap;;
      let* a := st_load stnode src_rgb 1 in
      let* b := st_load stnode dst_rgb 1 in
      let* c := st_load stnode src_alpha 1 in
      let* d := st_load stnode dst_alpha 1 in
      ngli_glBlendFuncSeparate a b c d;;
      let* a := st_load stnode mode_rgb 1 in
      let* b := st_load stnode mode_alpha 1 in
      ngli_glBlendEquationSeparate a b
    else ngli_glDisable cap
  else if cid =? NGL_NODE_GLCOLORSTATE then
    let* r := st_load stnode rgba (4 * 1 + 0) in
    let* g := st_load stnode rgba (4 * 1 + 1) in
    let* b := st_load stnode rgba (4 * 1 + 2) in
    let* a := st_load stnode rgba (4 * 1 + 3) in
    ngli_glColorMask r g b a
  else if cid =? NGL_NODE_GLPOLYGONMODESTATE then
    let* m := st_load stnode mode 1 in
    ngli_glPolygonMode GL_FRONT_AND_BACK m
  else if cid =? NGL_NODE_GLSTENCILSTATE then
    let* enabled1 := st_load stnode enabled 1 in
    let* cap := st_load stnode capability 0 in
    if negb (enabled1 =? 0) then
      ngli_glEnable cap;;
      let* m := st_load stnode writemask 1 in
      ngli_glStencilMask m;;
      let* f := st_load stnode func 1 in
      let* r := st_load stnode func_ref 1 in
      let* m := st_load stnode func_mask 1 in
      ngli_glStencilFunc f r m;;
      let* a := st_load stnode op_sfail 1 in
      let* b := st_load stnode op_dpfail 1 in
      let* c := st_load stnode op_dppass 1 in
      ngli_glStencilOp a b c
    else ngli_glDisable cap
  else
    let* enabled0 := st_load stnode enabled 0 in
    let* enabled1 := st_load stnode enabled 1 in
    if negb (enabled0 =? enabled1) then
      let* cap := st_load stnode capability 0 in
      if negb (enabled1 =? 0) then ngli_glEnable cap else ngli_glDisable cap
    else ret tt.

Fixpoint restore_glstates_loop (glstates i : Z) (n : nat) : M unit :=
  match n with
  | O => ret tt
  | S n' =>
      let* stnode := load_elem glstates i in
      restore_glstate stnode;;
      restore_glstates_loop glstates (i + 1) n'
  end.

Definition ngli_restore_glstates (ctxp nb_glstates glstates : Z) : M unit :=
  if ctxp =? 0 then fail BadAccess
  else restore_glstates_loop glstates 0 (Z.to_nat nb_glstates).

Definition ngli_node_draw (e : engine) (node : Z) : M unit :=
  let* nd := get_node node in
  match draw (class_of nd) with
  | Some cb =>
      LOG (LOG_DRAW node);;
      ngli_honor_glstates (ctx nd) (nb_glstates nd) (glstates nd);;
      cb e node;;
      let* nd := get_node node in
      ngli_restore_glstates (ctx nd) (nb_glstates nd) (glstates nd)
  | None => ret tt
  end.

(** *** The engine handed to callbacks *)

Definition engine_step (e : engine) : engine :=
  {| call_init := ngli_node_init e;
     call_visit := ngli_node_visit e;
     call_honor_release_prefetch := ngli_node_honor_release_prefetch e;
     call_update := ngli_node_update e;
     call_draw := ngli_node_draw e;
     call_attach_ctx := ngli_node_attach_ctx e;
     call_detach_ctx := ngli_node_detach_ctx e |}.

Definition engine_stuck : engine :=
  {| call_init := fun _ => fail OutOfFuel;
     call_visit := fun _ _ _ => fail OutOfFuel;
     call_honor_release_prefetch := fun _ _ => fail OutOfFuel;
     call_update := fun _ _ => fail OutOfFuel;
     call_draw := fun _ => fail OutOfFuel;
     call_attach_ctx := fun _ _ => fail OutOfFuel;
     call_detach_ctx := fun _ => fail OutOfFuel |}.

(** The engine whose recursive calls and callbacks may nest [fuel] deep. *)
Fixpoint engine_of (fuel : nat) : engine :=
  match fuel with
  | O => engine_stuck
  | S fuel' => engine_step (engine_of fuel')
  end.

(** *** Parameters and reference counting *)

(** The parameter system (params.c) is an external collaborator: setting,
    extending and freeing parameter fields are arbitrary computations on the
    block designated by the base pointer.  The variadic arguments of a set
    are passed as a list of words. *)
Variable ngli_params_set : base_ptr -> node_param -> list Z -> M Z.
Variable ngli_params_add : base_ptr -> node_param -> Z -> Z -> M Z.
Variable ngli_params_free : base_ptr -> option (list node_param) -> M unit.

(** Modelled from the spec: [ngli_params_find] (params.c) returns the first
    entry of the schema whose key is the requested one, or [NULL]. *)
Fixpoint params_find_loop (params : list node_param) (k : string)
    : option node_param :=
  match params with
  | [] => None
  | p :: rest => if String.eqb (key p) k then Some p else params_find_loop rest k
  end.

Definition ngli_params_find (params : option (list node_param)) (k : string)
    : option node_param :=
  match params with
  | None => None
  | Some l => params_find_loop l k
  end.

(** The result pairs the parameter with the base pointer stored through
    [base_ptrp]. *)
Definition ngli_node_param_find (node : Z) (k : string)
    : M (option (node_param * base_ptr)) :=
  match ngli_params_find (Some ngli_base_node_params) k with
  | Some par => ret (Some (par, BASE_NODE node))
  | None =>
      let* nd := get_node node in
      match ngli_params_find (params (class_of nd)) k with
      | Some par => ret (Some (par, BASE_PRIV node))
      | None => LOG (LOG_PARAM_NOT_FOUND node k);; ret None
      end
  end.

Definition ngl_node_param_add (e : engine) (node : Z) (k : string)
    (nb_elems elems : Z) : M Z :=
  let* found := ngli_node_param_find node k in
  match found with
  | None => ret (-1)
  | Some (par, base_ptr) =>
      let* r := ngli_params_add base_ptr par nb_elems elems in
      (if r <? 0 then LOG (LOG_UNABLE_TO_ADD node k) else ret tt);;
      node_uninit e node;;
      ret r
  end.

Definition ngl_node_param_set (e : engine) (node : Z) (k : string)
    (ap : list Z) : M Z :=
  let* found := ngli_node_param_find node k in
  match found with
  | None => ret (-1)
  | Some (par, base_ptr) =>
      let* r := ngli_params_set base_ptr par ap in
      (if r <? 0 then LOG (LOG_UNABLE_TO_SET node k) else ret tt);;
      node_uninit e node;;
      ret r
  end.

(** [node->refcount++]; overflowing an [int] is undefined. *)
Definition ngl_node_ref (node : Z) : M Z :=
  let* nd := get_node node in
  if refcount nd <? INT_MAX then
    put_node node (set_refcount (refcount nd + 1) nd);; ret node
  else fail Undefined.

(** [ngl_node_unrefp(nodep)] is given the pointer stored in [*nodep] and
    returns the pointer stored there when it returns. *)
Definition ngl_node_unrefp (node : Z) : M Z :=
  if node =? 0 then ret node
  else
    let* nd := get_node node in
    (if INT_MIN <? refcount nd
     then put_node node (set_refcount (refcount nd - 1) nd)
     else fail Undefined);;
    (if refcount nd =? 1 then
       LOG (LOG_DELETE node);;
       let* nd := get_node node in
       ngli_assert (ctx nd =? 0);;
       ngli_params_free (BASE_NODE node) (Some ngli_base_node_params);;
       let* nd := get_node node in
       ngli_params_free (BASE_PRIV node) (params (class_of nd));;
       free_node node
     else ret tt);;
    ret 0.

End Engine.

(** ** Schemas and private blocks

    Byte [i] of a private block is covered by a schema when it belongs to
    the field of one of its parameters. *)
Definition covered (pars : list node_param) (i : Z) : Prop :=
  Exists (fun p => offset p <= i < offset p + opt_sizes (type p)) pars.

(** A schema fits a block of [size] bytes from [cur] on when its entries come
    in increasing offset order, without overlap, inside the block (the order
    of declaration of the fields of the private structure). *)
Fixpoint schema_fits (pars : list node_param) (cur size : Z) : Prop :=
  match pars with
  | [] => cur <= size
  | p :: rest =>
      cur <= offset p /\ schema_fits rest (offset p + opt_sizes (type p)) size
  end.

(** Byte [i] of a block. *)
Definition byte_at (bs : list Z) (i : Z) : option Z := bs !! Z.to_nat i.

(** ** The traversal of node-typed fields, as the specification words it

    "Edges are node-typed schema fields (single reference, ordered list, or
    name-keyed map -- each is walked in the same way for traversal
    purposes)": [for_each_child f base_ptr params] applies [f] to every child
    referenced by a node-typed field, in schema order, and stops at the
    first negative result. *)

Fixpoint for_each_elem (f : Z -> M Z) (elems i : Z) (n : nat) : M Z :=
  match n with
  | O => ret 0
  | S n' =>
      let* child := load_elem elems i in
      let* r := f child in
      if r <? 0 then ret r else for_each_elem f elems (i + 1) n'
  end.

Fixpoint for_each_entry (f : Z -> M Z) (entries : list (string * Z)) : M Z :=
  match entries with
  | [] => ret 0
  | entry :: rest =>
      let* r := f entry.2 in
      if r <? 0 then ret r else for_each_entry f rest
  end.

Definition for_each_field (f : Z -> M Z) (base_ptr : base_ptr)
    (p : node_param) : M Z :=
  match type p with
  | PARAM_TYPE_NODE =>
      let* child := base_load_ptr base_ptr (offset p) in
      if child =? 0 then ret 0 else f child
  | PARAM_TYPE_NODELIST =>
      let* elems := base_load_ptr base_ptr (offset p) in
      let* nb_elems := base_load_int base_ptr (offset p + 8) in
      for_each_elem f elems 0 (Z.to_nat nb_elems)
  | PARAM_TYPE_NODEDICT =>
      let* hmap := base_load_ptr base_ptr (offset p) in
      if hmap =? 0 then ret 0
      else let* entries := load_hmap hmap in for_each_entry f entries
  | _ => ret 0
  end.

Fixpoint for_each_child (f : Z -> M Z) (base_ptr : base_ptr)
    (params : list node_param) : M Z :=
  match params with
  | [] => ret 0
  | p :: rest =>
      let* r := for_each_field f base_ptr p in
      if r <? 0 then ret r else for_each_child f base_ptr rest
  end.


(** A schema without node-typed fields: the node is a leaf of the graph. *)
Definition is_node_type (t : param_type) : bool :=
  match t with
  | PARAM_TYPE_NODE | PARAM_TYPE_NODELIST | PARAM_TYPE_NODEDICT => true
  | _ => false
  end.

Definition leaf_schema (pars : list node_param) : Prop :=
  Forall (fun p => is_node_type (type p) = false) pars.

(** The activity a visit coming from [from] hands to the visited node:
    that of the parent, or 1 for a root. *)
Definition inherited_activity (w : world) (from : Z) : option Z :=
  if from =? 0 then Some 1 else is_active <$> nodes w !! from.

(** The header assignments of the default visit. *)
Definition mark_visited (act : Z) (t : float) (nd : ngl_node) : ngl_node :=
  set_visit_time t (set_is_active act nd).

(** What a successful [ngli_node_update] at [t] has done between [w] and
    [w']: the node is initialized first; if its class has no update callback
    nothing else happens; otherwise, when the node is not stamped with [t],
    it is prefetched (it is READY when the callback starts), the callback
    runs and succeeds, and the node is stamped with [t] last. *)
Definition update_outcome (classes : Z -> node_class) (e : engine) (node : Z)
    (t : float) (w w' : world) : Prop :=
  exists w1 nd1,
    ngli_node_init classes e node w = Done 0 w1
    /\ nodes w1 !! node = Some nd1
    /\ state nd1 <> STATE_UNINITIALIZED
    /\ match update (classes (class nd1)) with
       | None => w' = w1
       | Some cb =>
           double_ne (last_update_time nd1) t = true ->
           exists w2 nd2 rc w3 nd3,
             node_prefetch classes e node w1 = Done 0 w2
             /\ nodes w2 !! node = Some nd2
             /\ state nd2 = STATE_READY
             /\ cb e node t (add_log (LOG_UPDATE node t) w2) = Done rc w3
             /\ 0 <= rc
             /\ nodes w3 !! node = Some nd3
             /\ w' = set_nodes
                       (<[node := set_last_update_time t nd3]> (nodes w3)) w3
       end.







(** Between [w] and [w'] the set of nodes is the same and the context of a
    node changes only from [NULL] to [c]. *)
Definition ctx_grows (c : Z) (w w' : world) : Prop :=
  forall n,
    match nodes w !! n, nodes w' !! n with
    | Some nd, Some nd' => ctx nd' = ctx nd \/ (ctx nd = 0 /\ ctx nd' = c)
    | None, None => True
    | _, _ => False
    end.

(** No node of the heap is attached to a context other than [c]. *)
Definition ctx_compatible (c : Z) (w : world) : Prop :=
  forall n nd, nodes w !! n = Some nd -> ctx nd = 0 \/ ctx nd = c.

(** Attaching the children of [node], as [node_set_ctx] does once the node
    itself is settled: the fields of the private block, then the
    state-override list of the header. *)
Definition attach_children (classes : Z -> node_class) (e : engine)
    (node c : Z) : M Z :=
  let* nd := get_node node in
  let* r := for_each_child (fun child => call_attach_ctx e child c)
              (BASE_PRIV node) (schema (params (classes (class nd)))) in
  if r <? 0 then ret r
  else
    let* r := for_each_child (fun child => call_attach_ctx e child c)
                (BASE_NODE node) ngli_base_node_params in
    if r <? 0 then ret r else ret 0.

(** Between [w] and [w'] the arrays, the hash maps and the driver are the
    same, the set of nodes is the same, and a node differs at most by its
    context. *)
Definition only_ctx_changed (w w' : world) : Prop :=
  arrays w' = arrays w /\ hmaps w' = hmaps w /\ gl w' = gl w
  /\ forall n,
       match nodes w !! n, nodes w' !! n with
       | Some nd, Some nd' => nd' = set_ctx (ctx nd') nd
       | None, None => True
       | _, _ => False
       end.

(** The value a read returns in [w]; [None] when it is an invalid access. *)
Definition value_of {A} (m : M A) (w : world) : option A :=
  match m w with
  | Done a _ => Some a
  | Fault _ => None
  end.

(** The children one walk of the node-typed fields calls its operation on,
    in order: the [n] elements of a list from index [i], the children of a
    field, of a schema, and of a node (private block, then header). *)
Fixpoint elems_of (elems i : Z) (n : nat) (w : world) : option (list Z) :=
  match n with
  | O => Some []
  | S n' =>
      c ← value_of (load_elem elems i) w;
      l ← elems_of elems (i + 1) n' w;
      Some (c :: l)
  end.

Definition field_children (base : base_ptr) (p : node_param) (w : world)
    : option (list Z) :=
  match type p with
  | PARAM_TYPE_NODE =>
      c ← value_of (base_load_ptr base (offset p)) w;
      Some (if c =? 0 then [] else [c])
  | PARAM_TYPE_NODELIST =>
      elems ← value_of (base_load_ptr base (offset p)) w;
      nb_elems ← value_of (base_load_int base (offset p + 8)) w;
      elems_of elems 0 (Z.to_nat nb_elems) w
  | PARAM_TYPE_NODEDICT =>
      hmap ← value_of (base_load_ptr base (offset p)) w;
      if hmap =? 0 then Some []
      else entries ← value_of (load_hmap hmap) w; Some (entries.*2)
  | _ => Some []
  end.

Fixpoint params_children (base : base_ptr) (params : list node_param)
    (w : world) : option (list Z) :=
  match params with
  | [] => Some []
  | p :: rest =>
      l ← field_children base p w;
      l' ← params_children base rest w;
      Some (l ++ l')
  end.

Definition children (classes : Z -> node_class) (node : Z) (w : world)
    : option (list Z) :=
  nd ← nodes w !! node;
  l ← params_children (BASE_PRIV node)
        (schema (params (classes (class nd)))) w;
  l' ← params_children (BASE_NODE node) ngli_base_node_params w;
  Some (l ++ l').

(** The graph under [node] can be attached to [c] with calls nested at most
    [n] deep: the node exists and is attached to no context or to [c], its
    node-typed fields can be read, and its children are such graphs of depth
    [n - 1]. *)
Fixpoint graph_attachable (classes : Z -> node_class) (c : Z) (n : nat)
    (node : Z) (w : world) : bool :=
  match n with
  | O => false
  | S n' =>
      match nodes w !! node, children classes node w with
      | Some nd, Some l =>
          ((ctx nd =? 0) || (ctx nd =? c))
          && forallb (fun child => graph_attachable classes c n' child w) l
      | _, _ => false
      end
  end.

(** The world a computation ends in ([w] itself when it faults). *)
Definition world_after {A} (m : M A) (w : world) : world :=
  match m w with
  | Done _ w' => w'
  | Fault _ => w
  end.

(** ** Test classes and scenes

    A small class table in the style of the "call counter in a test class"
    of the specification, and the scenes the properties are evaluated on. *)

Module Scene.

(** Increment the 32-bit counter at [off] in the private block of [node]. *)
Definition bump (node off : Z) : M unit :=
  let* nd := get_node node in
  let* v := of_option (load_int (priv_data nd) off) in
  let* priv := of_option (store_int (priv_data nd) off (v + 1)) in
  put_node node (set_priv_data priv nd).

Definition counter (w : world) (node off : Z) : option Z :=
  nd ← nodes w !! node; load_int (priv_data nd) off.

(** A container: one node list parameter, whose update and draw callbacks
    forward to the children (the usual group behaviour). *)
Definition group_params : list node_param :=
  [ {| key := "children"; type := PARAM_TYPE_NODELIST; offset := 0; flags := 0 |} ].

Definition group_update (e : engine) (node : Z) (t : float) : M Z :=
  let* elems := base_load_ptr (BASE_PRIV node) 0 in
  let* nb_elems := base_load_int (BASE_PRIV node) 8 in
  for_each_elem (fun child => call_update e child t) elems 0 (Z.to_nat nb_elems).

Definition group_draw (e : engine) (node : Z) : M unit :=
  let* elems := base_load_ptr (BASE_PRIV node) 0 in
  let* nb_elems := base_load_int (BASE_PRIV node) 8 in
  for_each_elem (fun child => call_draw e child;; ret 0) elems 0
    (Z.to_nat nb_elems);;
  ret tt.

Definition group_class : node_class :=
  {| id := 1; class_name := "Group"; params := Some group_params;
     priv_size := 16;
     init := None; prefetch := Some (fun _ _ => ret 0);
     release := Some (fun _ _ => ret tt); uninit := None;
     update := Some group_update; draw := Some group_draw; visit := None |}.

(** A leaf with one integer parameter at offset 0 and four call counters
    (init, prefetch, release, update) in the rest of its private block. *)
Definition probe_params : list node_param :=
  [ {| key := "value"; type := PARAM_TYPE_INT; offset := 0; flags := 0 |} ].

Definition probe_class : node_class :=
  {| id := 2; class_name := "Probe"; params := Some probe_params;
     priv_size := 20;
     init := Some (fun _ node => bump node 4;; ret 0);
     prefetch := Some (fun _ node => bump node 8;; ret 0);
     release := Some (fun _ node => bump node 12);
     uninit := None;
     update := Some (fun _ node _ => bump node 16;; ret 0);
     draw := Some (fun _ _ => ret tt); visit := None |}.

(** A class with no callback at all. *)
Definition plain_class : node_class :=
  {| id := 3; class_name := "Plain"; params := Some probe_params;
     priv_size := 20;
     init := None; prefetch := None; release := None; uninit := None;
     update := None; draw := None; visit := None |}.

(** Filters with one child at offset 0 and a custom visit callback that
    decides the activity of the subtree by itself, as a time range filter
    does: [gate_class true] is active, [gate_class false] inactive. *)
Definition gate_params : list node_param :=
  [ {| key := "child"; type := PARAM_TYPE_NODE; offset := 0; flags := 0 |} ].

Definition gate_visit (active : bool) (e : engine) (node from : Z) (t : float)
    : M Z :=
  modify_node node (set_is_active (if active then 1 else 0));;
  modify_node node (set_visit_time t);;
  let* child := base_load_ptr (BASE_PRIV node) 0 in
  call_visit e child node t.

Definition gate_class (active : bool) : node_class :=
  {| id := if active then 4 else 5; class_name := "Gate";
     params := Some gate_params; priv_size := 8;
     init := None; prefetch := None; release := None; uninit := None;
     update := None; draw := None; visit := Some (gate_visit active) |}.

(** State-override classes: their private block is a [struct glstate]. *)
Definition glstate_class (cid : Z) : node_class :=
  {| id := cid; class_name := "GLState"; params := None;
     priv_size := sizeof_glstate;
     init := None; prefetch := None; release := None; uninit := None;
     update := None; draw := None; visit := None |}.

(** The class table, by address of the descriptor. *)
Definition classes (c : Z) : node_class :=
  if c =? 1 then group_class
  else if c =? 2 then probe_class
  else if c =? 4 then gate_class true
  else if c =? 5 then gate_class false
  else if c =? 6 then glstate_class NGL_NODE_GLBLENDSTATE
  else if c =? 7 then glstate_class NGL_NODE_GLSTATE
  else plain_class.

(** The header [node_create] leaves, once attached to the context [ctxp] and
    given its private block. *)
Definition new_node (cls ctxp : Z) (priv : list Z) : ngl_node :=
  {| class := cls; ctx := ctxp; state := STATE_UNINITIALIZED; is_active := 0;
     visit_time := (-1)%float; last_update_time := (-1)%float;
     refcount := 1; glstates := 0; nb_glstates := 0; name := "";
     priv_data := priv |}.

(** The private block of a container whose children are the [n] pointers of
    the array at [elems]. *)
Definition group_priv (elems n : Z) : list Z :=
  le_encode 8 elems ++ le_encode 4 n ++ [0; 0; 0; 0].

Definition the_ctx : Z := 64.

Definition default_gl : gldriver :=
  {| gl_caps := ∅;
     gl_blend_src_rgb := 1; gl_blend_dst_rgb := 0;
     gl_blend_src_alpha := 1; gl_blend_dst_alpha := 0;
     gl_blend_equation_rgb := 0x8006; gl_blend_equation_alpha := 0x8006;
     gl_color_writemask := (1, 1, 1, 1);
     gl_polygon_mode := 0x1B02;
     gl_stencil_writemask := 0xFFFFFFFF;
     gl_stencil_func := 0x0207; gl_stencil_ref := 0;
     gl_stencil_value_mask := 0xFFFFFFFF;
     gl_stencil_fail := 0x1E00; gl_stencil_pass_depth_fail := 0x1E00;
     gl_stencil_pass_depth_pass := 0x1E00 |}.

Definition mk_world (ns : list (Z * ngl_node)) (arrs : list (Z * list Z))
    (d : gldriver) : world :=
  {| nodes := list_to_map ns; arrays := list_to_map arrs; hmaps := ∅;
     gl := d; log := [] |}.

(** The diamond: root 100 -> {A 101, B 102} -> shared leaf C 103. *)
Definition diamond : world :=
  mk_world
    [ (100, new_node 1 the_ctx (group_priv 1000 2));
      (101, new_node 1 the_ctx (group_priv 1001 1));
      (102, new_node 1 the_ctx (group_priv 1002 1));
      (103, new_node 2 the_ctx (replicate 20 0)) ]
    [ (1000, [101; 102]); (1001, [103]); (1002, [103]) ]
    default_gl.

(** The gated diamond: root 100 -> {X 101, Y 102} -> shared leaf C 103, with
    X of class [cx] and Y of class [cy] (4: active gate, 5: inactive gate). *)
Definition gated_diamond (cx cy : Z) : world :=
  mk_world
    [ (100, new_node 1 the_ctx (group_priv 1000 2));
      (101, new_node cx the_ctx (le_encode 8 103));
      (102, new_node cy the_ctx (le_encode 8 103));
      (103, new_node 2 the_ctx (replicate 20 0)) ]
    [ (1000, [101; 102]) ]
    default_gl.

(** The same nodes before any attachment. *)
Definition detached_diamond : world :=
  mk_world
    [ (100, new_node 1 0 (group_priv 1000 2));
      (101, new_node 1 0 (group_priv 1001 1));
      (102, new_node 1 0 (group_priv 1002 1));
      (103, new_node 2 0 (replicate 20 0)) ]
    [ (1000, [101; 102]); (1001, [103]); (1002, [103]) ]
    default_gl.

(** A parent attached to [the_ctx] whose child is attached to another
    context (128). *)
Definition split_ownership : world :=
  mk_world
    [ (100, new_node 1 the_ctx (group_priv 1000 1));
      (101, new_node 2 128 (replicate 20 0)) ]
    [ (1000, [101]) ]
    default_gl.

(** A single node of the class without callbacks. *)
Definition plain_scene : world :=
  mk_world [ (200, new_node 3 the_ctx (replicate 20 0)) ] [] default_gl.

(** A single detached node holding [n] references. *)
Definition counted_scene (n : Z) : world :=
  mk_world [ (200, set_refcount n (new_node 3 0 (replicate 20 0))) ] []
    default_gl.

(** A READY probe whose private block is dirty: parameter 7, counters and
    padding set. *)
Definition dirty_probe : world :=
  mk_world
    [ (103, set_state STATE_READY
              (new_node 2 the_ctx
                 ([7; 0; 0; 0] ++ [1; 0; 0; 0] ++ [1; 0; 0; 0] ++ [0; 0; 0; 0]
                  ++ [9; 9; 9; 9]))) ]
    [] default_gl.

(** A stand-in for the parameter system on integer parameters: a set writes
    its first argument into the field, an add is refused. *)
Definition params_set (base : base_ptr) (par : node_param) (ap : list Z)
    : M Z :=
  match base, ap with
  | BASE_PRIV node, v :: _ =>
      let* nd := get_node node in
      let* priv := of_option (store_int (priv_data nd) (offset par) v) in
      put_node node (set_priv_data priv nd);; ret 0
  | _, _ => ret (-1)
  end.

Definition params_add (base : base_ptr) (par : node_param) (nb_elems elems : Z)
    : M Z := ret (-1).

Definition params_free (base : base_ptr) (params : option (list node_param))
    : M unit := ret tt.

(** A [struct glstate] block with the given fields set, the others zero. *)
Definition glstate_block (fields : list (glstate_field * Z * Z)) : list Z :=
  fold_left
    (fun bs '(f, i, v) =>
       default bs (store_int bs (glstate_offset f + 4 * i) v))
    fields (replicate (Z.to_nat sizeof_glstate) 0).

(** A drawable node (300) with one state override (301 of class [cls] and
    block [st]), under the driver state [d]. *)
Definition override_scene (cls : Z) (st : list Z) (d : gldriver) : world :=
  mk_world
    [ (300, {| class := 2; ctx := the_ctx; state := STATE_READY;
               is_active := 1; visit_time := 1%float;
               last_update_time := 1%float; refcount := 1;
               glstates := 3000; nb_glstates := 1; name := "";
               priv_data := replicate 20 0 |});
      (301, set_state STATE_INITIALIZED (new_node cls the_ctx st)) ]
    [ (3000, [301]) ]
    d.

(** Blending enabled with the usual alpha blending functions. *)
Definition blending_gl : gldriver :=
  {| gl_caps := {[ GL_BLEND ]};
     gl_blend_src_rgb := 0x0302; gl_blend_dst_rgb := 0x0303;
     gl_blend_src_alpha := 1; gl_blend_dst_alpha := 0x0303;
     gl_blend_equation_rgb := 0x8006; gl_blend_equation_alpha := 0x8006;
     gl_color_writemask := (1, 1, 1, 1);
     gl_polygon_mode := 0x1B02;
     gl_stencil_writemask := 0xFFFFFFFF;
     gl_stencil_func := 0x0207; gl_stencil_ref := 0;
     gl_stencil_value_mask := 0xFFFFFFFF;
     gl_stencil_fail := 0x1E00; gl_stencil_pass_depth_fail := 0x1E00;
     gl_stencil_pass_depth_pass := 0x1E00 |}.

(** A blend override that disables blending. *)
Definition blend_off : list Z :=
  glstate_block [ (capability, 0, GL_BLEND); (enabled, 0, 0) ].

(** A blend override that enables additive blending. *)
Definition blend_additive : list Z :=
  glstate_block
    [ (capability, 0, GL_BLEND); (enabled, 0, 1);
      (src_rgb, 0, 1); (dst_rgb, 0, 1); (src_alpha, 0, 1); (dst_alpha, 0, 1);
      (mode_rgb, 0, 0x8006); (mode_alpha, 0, 0x8006) ].

(** A generic override that disables the capability [cap]. *)
Definition capability_off (cap : Z) : list Z :=
  glstate_block [ (capability, 0, cap); (enabled, 0, 0) ].

(** The driver state after [ngli_node_draw] of node 300. *)
Definition gl_after_draw (w : world) : option gldriver :=
  match ngli_node_draw classes (engine_of classes 2) 300 w with
  | Done _ w' => Some (gl w')
  | Fault _ => None
  end.

(** The header of the node at [node] (an empty header where there is
    none). *)
Definition node_at (w : world) (node : Z) : ngl_node :=
  default (new_node 0 0 []) (nodes w !! node).

(** The log as a list of (kind, node) pairs. *)
Definition event (m : log_msg) : string * Z :=
  match m with
  | LOG_CREATED n => ("CREATED", n)
  | LOG_RELEASE n => ("RELEASE", n)
  | LOG_UNINIT n => ("UNINIT", n)
  | LOG_OTHER_CTX n => ("OTHER_CTX", n)
  | LOG_INIT n => ("INIT", n)
  | LOG_PREFETCH n => ("PREFETCH", n)
  | LOG_UPDATE n _ => ("UPDATE", n)
  | LOG_ALREADY_UPDATED n _ => ("ALREADY_UPDATED", n)
  | LOG_DRAW n => ("DRAW", n)
  | LOG_PARAM_NOT_FOUND n _ => ("PARAM_NOT_FOUND", n)
  | LOG_UNABLE_TO_ADD n _ => ("UNABLE_TO_ADD", n)
  | LOG_UNABLE_TO_SET n _ => ("UNABLE_TO_SET", n)
  | LOG_DELETE n => ("DELETE", n)
  end.

Definition events (w : world) : list (string * Z) := event <$> log w.

Fixpoint same_events (l1 l2 : list (string * Z)) : bool :=
  match l1, l2 with
  | [], [] => true
  | (k1, n1) :: r1, (k2, n2) :: r2 =>
      String.eqb k1 k2 && (n1 =? n2) && same_events r1 r2
  | _, _ => false
  end.

Definition count_log (p : log_msg -> bool) (w : world) : nat :=
  length (filter (fun m => p m = true) (log w)).

Definition is_prefetch_of (node : Z) (m : log_msg) : bool :=
  match m with LOG_PREFETCH n => n =? node | _ => false end.

Definition is_update_of (node : Z) (m : log_msg) : bool :=
  match m with LOG_UPDATE n _ => n =? node | _ => false end.

(** One frame of the first two passes on [root]: visit, then reconcile. *)
Definition visit_then_reconcile (fuel : nat) (root : Z) (t : float) : M Z :=
  let* r := ngli_node_visit classes (engine_of classes fuel) root 0 t in
  if r <? 0 then ret r
  else ngli_node_honor_release_prefetch classes (engine_of classes fuel) root t.

(** The diamond once visited at [t = 1], and once reconciled. *)
Definition visited_diamond : world :=
  world_after (ngli_node_visit classes (engine_of classes 4) 100 0 1) diamond.

Definition reconciled_diamond : world :=
  world_after (visit_then_reconcile 4 100 1) diamond.

(** The facts checked on the diamond after one frame at [t]: the frame
    succeeds, the log is the post-order sequence of prefetches, and the
    shared child was prefetched once. *)
Definition reconcile_check (t : float) : bool :=
  match visit_then_reconcile 4 100 t diamond with
  | Done r w' =>
      (r =? 0)
      && same_events (events w')
           [("INIT", 103); ("PREFETCH", 103); ("PREFETCH", 101);
            ("PREFETCH", 102); ("PREFETCH", 100)]
      && (count_log (is_prefetch_of 103) w' <=? 1)%nat
      && match counter w' 103 8 with
         | Some n => n =? 1
         | None => false
         end
  | Fault _ => false
  end.

End Scene.

(** ** Further classes and scenes *)

Module Cases.

(** A leaf whose update callback fails. *)
Definition failing_class : node_class :=
  {| id := 8; class_name := "Failing"; params := Some Scene.probe_params;
     priv_size := 20;
     init := None; prefetch := None; release := None; uninit := None;
     update := Some (fun _ _ _ => ret (-1)); draw := None; visit := None |}.

(** A class whose schema lists the parameter at offset 8 before the one at
    offset 0. *)
Definition unsorted_params : list node_param :=
  [ {| key := "second"; type := PARAM_TYPE_INT; offset := 8; flags := 0 |};
    {| key := "first"; type := PARAM_TYPE_INT; offset := 0; flags := 0 |} ].

Definition unsorted_class : node_class :=
  {| id := 9; class_name := "Unsorted"; params := Some unsorted_params;
     priv_size := 12;
     init := None; prefetch := None; release := None; uninit := None;
     update := None; draw := None; visit := None |}.

(** The class table of [Scene], with the two classes above and the
    polygon-mode, colour-mask and stencil overrides. *)
Definition classes (c : Z) : node_class :=
  if c =? 8 then failing_class
  else if c =? 9 then unsorted_class
  else if c =? 10 then Scene.glstate_class NGL_NODE_GLPOLYGONMODESTATE
  else if c =? 11 then Scene.glstate_class NGL_NODE_GLCOLORSTATE
  else if c =? 12 then Scene.glstate_class NGL_NODE_GLSTENCILSTATE
  else Scene.classes c.

(** A single attached node of class [cls] with a zeroed block of [n]
    bytes. *)
Definition single (cls : Z) (n : nat) : world :=
  Scene.mk_world [ (200, Scene.new_node cls Scene.the_ctx (replicate n 0)) ] []
    Scene.default_gl.

(** Polygon-mode overrides to [GL_LINE] and to [GL_POINT], and a colour-mask
    override that keeps the red channel only. *)
Definition polygon_line : list Z := Scene.glstate_block [ (mode, 0, 0x1B01) ].
Definition polygon_point : list Z := Scene.glstate_block [ (mode, 0, 0x1B00) ].
Definition mask_red : list Z := Scene.glstate_block [ (rgba, 0, 1) ].

(** A drawable node (300) with two state overrides (301 and 302) of class
    [cls], under the driver state [d]. *)
Definition two_overrides (cls : Z) (st1 st2 : list Z) (d : gldriver) : world :=
  Scene.mk_world
    [ (300, {| class := 2; ctx := Scene.the_ctx; state := STATE_READY;
               is_active := 1; visit_time := 1%float;
               last_update_time := 1%float; refcount := 1;
               glstates := 3000; nb_glstates := 2; name := "";
               priv_data := replicate 20 0 |});
      (301, set_state STATE_INITIALIZED
              (Scene.new_node cls Scene.the_ctx st1));
      (302, set_state STATE_INITIALIZED
              (Scene.new_node cls Scene.the_ctx st2)) ]
    [ (3000, [301; 302]) ]
    d.

(** A leaf whose update callback detaches the node from its context, and
    the class table that has it at 13. *)
Definition leaving_class : node_class :=
  {| id := 13; class_name := "Leaving"; params := Some Scene.probe_params;
     priv_size := 20;
     init := None; prefetch := None; release := None; uninit := None;
     update := Some (fun e node _ => call_detach_ctx e node;; ret 0);
     draw := None; visit := None |}.

Definition leaving_classes (c : Z) : node_class :=
  if c =? 13 then leaving_class else Scene.classes c.

End Cases.

(** * Properties *)

(** ** Basic facts about computations *)

Lemma get_node_Done (node : Z) (nd : ngl_node) (w : world) :
  nodes w !! node = Some nd -> get_node node w = Done nd w.
Proof. intros H. unfold get_node. now rewrite H. Qed.

Lemma put_node_Done (node : Z) (nd nd' : ngl_node) (w : world) :
  nodes w !! node = Some nd ->
  put_node node nd' w = Done tt (set_nodes (<[node := nd']> (nodes w)) w).
Proof. intros H. unfold put_node. now rewrite H. Qed.

Lemma modify_node_Done (node : Z) (f : ngl_node -> ngl_node) (nd : ngl_node)
    (w : world) :
  nodes w !! node = Some nd ->
  modify_node node f w = Done tt (set_nodes (<[node := f nd]> (nodes w)) w).
Proof.
  intros H. unfold modify_node, bind. rewrite (get_node_Done _ _ _ H).
  now apply put_node_Done with nd.
Qed.

Lemma bind_Done_inv {A B} (m : M A) (k : A -> M B) (w w' : world) (b : B) :
  bind m k w = Done b w' ->
  exists a w1, m w = Done a w1 /\ k a w1 = Done b w'.
Proof.
  unfold bind. destruct (m w) as [a w1|f]; [|discriminate].
  intros H. now exists a, w1.
Qed.

Lemma set_nodes_id (w : world) : set_nodes (nodes w) w = w.
Proof. now destruct w. Qed.

Lemma nodes_set_nodes ns w : nodes (set_nodes ns w) = ns.
Proof. reflexivity. Qed.

(** ** Allocation of a node *)


Lemma Z_land_le (a b : Z) : 0 <= a -> 0 <= b -> Z.land a b <= a.
Proof.
  intros Ha Hb.
  assert (Hd : Z.land (Z.ldiff a b) (Z.land a b) = 0).
  { apply Z.bits_inj'. intros n Hn.
    rewrite !Z.land_spec, Z.ldiff_spec, Z.bits_0.
    destruct (Z.testbit a n), (Z.testbit b n); reflexivity. }
  assert (He : Z.ldiff a b + Z.land a b = a).
  { rewrite Z.add_nocarry_lxor by exact Hd.
    rewrite Z.lxor_lor by exact Hd. apply Z.lor_ldiff_and. }
  assert (0 <= Z.ldiff a b) by (apply Z.ldiff_nonneg; lia).
  lia.
Qed.


(** ** Reference counting *)

(** C9. Only the last reference destroys a node, and only a detached one.
    For a node holding [refcount] references (within the range of [int]):
    [ngl_node_ref] adds one; [ngl_node_unrefp] with a count other than 1
    only decrements the count and the node stays in the heap; with a count
    of 1 on a node that is still attached to a context the assertion
    fails; with a count of 1 on a detached node the parameters of the
    header and of the private block are freed and the node is removed from
    the heap.  A null pointer is left alone. *)
Theorem unrefp_frees_only_last_detached_reference
    (classes : Z -> node_class)
    (params_free : base_ptr -> option (list node_param) -> M unit)
    (node : Z) (nd : ngl_node) (w : world) :
  node <> 0 ->
  nodes w !! node = Some nd ->
  INT_MIN < refcount nd < INT_MAX ->
  let dec := set_nodes (<[node := set_refcount (refcount nd - 1) nd]> (nodes w)) w in
  ngl_node_ref node w
  = Done node (set_nodes (<[node := set_refcount (refcount nd + 1) nd]> (nodes w)) w)
  /\ (refcount nd <> 1 ->
      ngl_node_unrefp classes params_free node w = Done 0 dec)
  /\ (refcount nd = 1 -> ctx nd <> 0 ->
      ngl_node_unrefp classes params_free node w = Fault AssertFailed)
  /\ (refcount nd = 1 -> ctx nd = 0 ->
      forall w1 nd1 w2 nd2,
        params_free (BASE_NODE node) (Some ngli_base_node_params)
          (add_log (LOG_DELETE node) dec) = Done tt w1 ->
        nodes w1 !! node = Some nd1 ->
        params_free (BASE_PRIV node) (params (classes (class nd1))) w1
        = Done tt w2 ->
        nodes w2 !! node = Some nd2 ->
        ngl_node_unrefp classes params_free node w
        = Done 0 (set_nodes (delete node (nodes w2)) w2))
  /\ ngl_node_unrefp classes params_free 0 w = Done 0 w.
Proof.
  intros Hnz Hnd [Hlo Hhi] dec.
  assert (Hne : (node =? 0) = false) by now apply Z.eqb_neq.
  assert (Hlt : (INT_MIN <? refcount nd) = true) by now apply Z.ltb_lt.
  assert (Hdec : put_node node (set_refcount (refcount nd - 1) nd) w = Done tt dec)
    by now apply put_node_Done with nd.
  assert (Hlk : nodes (add_log (LOG_DELETE node) dec) !! node
                = Some (set_refcount (refcount nd - 1) nd)).
  { unfold dec. cbn. apply lookup_insert_eq. }
  repeat split.
  - unfold ngl_node_ref, bind. rewrite (get_node_Done _ _ _ Hnd).
    replace (refcount nd <? INT_MAX) with true by (symmetry; now apply Z.ltb_lt).
    now rewrite (put_node_Done _ nd _ _ Hnd).
  - intros Hr. unfold ngl_node_unrefp, bind. rewrite Hne.
    rewrite (get_node_Done _ _ _ Hnd), Hlt, Hdec.
    replace (refcount nd =? 1) with false by (symmetry; now apply Z.eqb_neq).
    reflexivity.
  - intros Hr Hc. unfold ngl_node_unrefp, bind. rewrite Hne.
    rewrite (get_node_Done _ _ _ Hnd), Hlt, Hdec.
    replace (refcount nd =? 1) with true by (symmetry; now apply Z.eqb_eq).
    unfold LOG. rewrite (get_node_Done _ _ _ Hlk). cbn.
    replace (ctx nd =? 0) with false by (symmetry; now apply Z.eqb_neq).
    reflexivity.
  - intros Hr Hc w1 nd1 w2 nd2 Hf1 Hn1 Hf2 Hn2.
    unfold ngl_node_unrefp, bind. rewrite Hne.
    rewrite (get_node_Done _ _ _ Hnd), Hlt, Hdec.
    replace (refcount nd =? 1) with true by (symmetry; now apply Z.eqb_eq).
    unfold LOG. rewrite (get_node_Done _ _ _ Hlk). cbn.
    replace (ctx nd =? 0) with true by (symmetry; now apply Z.eqb_eq).
    cbn. rewrite Hf1, (get_node_Done _ _ _ Hn1). unfold class_of. rewrite Hf2.
    unfold free_node. now rewrite Hn2.
Qed.

(** ** Inversion of computations *)

Lemma ret_inv {A} (a b : A) (w w' : world) : ret a w = Done b w' -> b = a /\ w' = w.
Proof. intros H. now inversion H. Qed.

Lemma get_node_inv (node : Z) (nd : ngl_node) (w w' : world) :
  get_node node w = Done nd w' -> w' = w /\ nodes w !! node = Some nd.
Proof.
  unfold get_node. destruct (nodes w !! node); [|discriminate].
  intros H. now inversion H.
Qed.

Lemma modify_node_inv (node : Z) (f : ngl_node -> ngl_node) (u : unit)
    (w w' : world) :
  modify_node node f w = Done u w' ->
  exists nd, nodes w !! node = Some nd
             /\ w' = set_nodes (<[node := f nd]> (nodes w)) w.
Proof.
  unfold modify_node, bind, get_node, put_node.
  destruct (nodes w !! node) as [nd|] eqn:E; [|discriminate].
  rewrite E. intros H. inversion H. now exists nd.
Qed.

Lemma LOG_inv (m : log_msg) (u : unit) (w w' : world) :
  LOG m w = Done u w' -> w' = add_log m w.
Proof. intros H. now inversion H. Qed.


Tactic Notation "inv_bind" hyp(H) "as" ident(a) ident(w) ident(Hm) :=
  apply bind_Done_inv in H; destruct H as (a & w & Hm & H).

Tactic Notation "inv_get" hyp(H) "as" ident(nd) ident(Hl) :=
  let w := fresh "w" in
  let Hg := fresh "Hg" in
  let Hw := fresh "Hw" in
  apply bind_Done_inv in H; destruct H as (nd & w & Hg & H);
  apply get_node_inv in Hg; destruct Hg as [Hw Hl]; subst w.

Ltac neg_ret H E :=
  apply ret_inv in H; destruct H as [-> _]; apply Z.ltb_lt in E; lia.

(** ** The lifecycle state machine *)

Section Lifecycle.

Variable classes : Z -> node_class.
Variable e : engine.

(** [ngli_node_init] on a node that is not UNINITIALIZED does nothing. *)
Lemma init_noop (node : Z) (nd : ngl_node) (w : world) :
  nodes w !! node = Some nd ->
  state nd <> STATE_UNINITIALIZED ->
  ngli_node_init classes e node w = Done 0 w.
Proof.
  intros Hnd Hs. unfold ngli_node_init, bind.
  rewrite (get_node_Done _ _ _ Hnd).
  destruct (state nd); try reflexivity. now destruct Hs.
Qed.

(** A successful [ngli_node_init] returns 0 and leaves the node in a state
    other than UNINITIALIZED. *)
Lemma init_success (node : Z) (r : Z) (w w1 : world) :
  ngli_node_init classes e node w = Done r w1 ->
  0 <= r ->
  r = 0 /\ exists nd1, nodes w1 !! node = Some nd1
                       /\ state nd1 <> STATE_UNINITIALIZED.
Proof.
  intros H Hr. unfold ngli_node_init in H. inv_get H as nd Hl.
  destruct (state nd) eqn:Es; cbn in H;
    try (apply ret_inv in H; destruct H as [-> ->]; split; [reflexivity|];
         exists nd; split; [assumption | rewrite Es; discriminate]).
  inv_bind H as u wa Ha. inv_bind H as rc wc Hc.
  destruct (rc <? 0) eqn:Ec; [neg_ret H Ec|].
  inv_get H as ndc Hlc. inv_bind H as rg wg Hg.
  destruct (rg <? 0) eqn:Eg; [neg_ret H Eg|].
  inv_bind H as u' wm Hmod. apply ret_inv in H. destruct H as [-> ->].
  apply modify_node_inv in Hmod. destruct Hmod as (nd' & Hl' & ->).
  split; [reflexivity|]. eexists. split.
  - cbn. apply lookup_insert_eq.
  - discriminate.
Qed.

(** Prefetch is idempotent: on a READY node it returns 0 and changes
    nothing, in particular it does not reach the class callback. *)
Lemma prefetch_ready (node : Z) (nd : ngl_node) (w : world) :
  nodes w !! node = Some nd ->
  state nd = STATE_READY ->
  node_prefetch classes e node w = Done 0 w.
Proof.
  intros Hnd Hs. unfold node_prefetch, bind.
  rewrite (get_node_Done _ _ _ Hnd), Hs. reflexivity.
Qed.

(** A successful [node_prefetch] returns 0 and leaves the node READY. *)
Lemma prefetch_success (node : Z) (r : Z) (w w2 : world) :
  node_prefetch classes e node w = Done r w2 ->
  0 <= r ->
  r = 0 /\ exists nd2, nodes w2 !! node = Some nd2 /\ state nd2 = STATE_READY.
Proof.
  intros H Hr. unfold node_prefetch in H. inv_get H as nd Hl.
  destruct (state_eqb (state nd) STATE_READY) eqn:Es.
  { apply ret_inv in H. destruct H as [-> ->]. split; [reflexivity|].
    exists nd. split; [assumption|]. now destruct (state nd). }
  inv_bind H as ri wi Hi.
  destruct (ri <? 0) eqn:Ei; [neg_ret H Ei|].
  inv_get H as ndi Hli. inv_bind H as rc wc Hc.
  destruct (rc <? 0) eqn:Ec; [neg_ret H Ec|].
  inv_bind H as u wm Hmod. apply ret_inv in H. destruct H as [-> ->].
  apply modify_node_inv in Hmod. destruct Hmod as (nd' & Hl' & ->).
  split; [reflexivity|]. eexists. split; [cbn; apply lookup_insert_eq | reflexivity].
Qed.

(** Release does nothing unless the node is READY. *)
Lemma release_not_ready (node : Z) (nd : ngl_node) (w : world) :
  nodes w !! node = Some nd ->
  state nd <> STATE_READY ->
  node_release classes e node w = Done tt w.
Proof.
  intros Hnd Hs. unfold node_release, bind.
  rewrite (get_node_Done _ _ _ Hnd).
  destruct (state nd); try reflexivity. now destruct Hs.
Qed.

End Lifecycle.

(** ** Update *)

Section Update.

Variable classes : Z -> node_class.
Variable e : engine.

Lemma set_last_update_time_id (nd : ngl_node) :
  set_last_update_time (last_update_time nd) nd = nd.
Proof. now destruct nd. Qed.

(** What a successful [ngli_node_update] has done. *)
Lemma update_success_inv (node : Z) (t : float) (r : Z) (w w' : world) :
  ngli_node_update classes e node t w = Done r w' ->
  0 <= r ->
  r = 0 /\
  exists w1 nd1,
    ngli_node_init classes e node w = Done 0 w1 /\
    nodes w1 !! node = Some nd1 /\
    state nd1 <> STATE_UNINITIALIZED /\
    match update (classes (class nd1)) with
    | None => w' = w1
    | Some cb =>
        if double_ne (last_update_time nd1) t then
          exists w2 nd2 rc w3 nd3,
            node_prefetch classes e node w1 = Done 0 w2 /\
            nodes w2 !! node = Some nd2 /\
            state nd2 = STATE_READY /\
            cb e node t (add_log (LOG_UPDATE node t) w2) = Done rc w3 /\
            0 <= rc /\
            nodes w3 !! node = Some nd3 /\
            w' = set_nodes (<[node := set_last_update_time t nd3]> (nodes w3)) w3
        else
          w' = set_nodes (<[node := set_last_update_time t nd1]> (nodes w1))
                 (add_log (LOG_ALREADY_UPDATED node t) w1)
    end.
Proof.
  intros H Hr. unfold ngli_node_update in H. inv_bind H as ri w1 Hi.
  destruct (ri <? 0) eqn:Ei; [neg_ret H Ei|].
  apply Z.ltb_ge in Ei.
  destruct (init_success classes e _ _ _ _ Hi Ei) as (-> & nd1 & Hl1 & Hs1).
  inv_get H as nd Hl. rewrite Hl1 in Hl. inversion Hl; subst nd. clear Hl.
  unfold class_of in H.
  destruct (update (classes (class nd1))) as [cb|] eqn:Eu.
  2:{ apply ret_inv in H. destruct H as [-> ->]. split; [reflexivity|].
      exists w1, nd1. rewrite Eu. auto. }
  inv_bind H as rb wb Hb.
  destruct (rb <? 0) eqn:Eb; [neg_ret H Eb|].
  apply Z.ltb_ge in Eb.
  inv_bind H as u wm Hmod. apply ret_inv in H. destruct H as [-> ->].
  apply modify_node_inv in Hmod. destruct Hmod as (nd3 & Hl3 & ->).
  split; [reflexivity|]. exists w1, nd1. rewrite Eu.
  repeat (split; [assumption|]).
  destruct (double_ne (last_update_time nd1) t) eqn:En.
  - inv_bind Hb as rp w2 Hp.
    destruct (rp <? 0) eqn:Ep.
    { apply ret_inv in Hb. destruct Hb as [-> _]. apply Z.ltb_lt in Ep. lia. }
    apply Z.ltb_ge in Ep.
    destruct (prefetch_success classes e _ _ _ _ Hp Ep) as (-> & nd2 & Hl2 & Hs2).
    inv_bind Hb as u' wl Hlog. apply LOG_inv in Hlog. subst wl.
    exists w2, nd2, rb, wb, nd3. auto 10.
  - inv_bind Hb as u' wl Hlog. apply LOG_inv in Hlog. subst wl.
    apply ret_inv in Hb. destruct Hb as [_ ->].
    cbn in Hl3. rewrite Hl1 in Hl3. now inversion Hl3.
Qed.

(** After a successful update at [t], either the class has no update
    callback or the node is stamped with [t]. *)
Lemma update_success_stamp (node : Z) (t : float) (r : Z) (w w' : world) :
  ngli_node_update classes e node t w = Done r w' ->
  0 <= r ->
  exists nd', nodes w' !! node = Some nd'
              /\ (update (classes (class nd')) = None
                  \/ last_update_time nd' = t).
Proof.
  intros H Hr.
  destruct (update_success_inv _ _ _ _ _ H Hr) as (_ & w1 & nd1 & _ & Hl1 & _ & Hc).
  destruct (update (classes (class nd1))) as [cb|] eqn:Eu.
  - destruct (double_ne (last_update_time nd1) t).
    + destruct Hc as (w2 & nd2 & rc & w3 & nd3 & _ & _ & _ & _ & _ & _ & ->).
      eexists. split; [cbn; apply lookup_insert_eq|]. now right.
    + subst w'. eexists. split; [cbn; apply lookup_insert_eq|]. now right.
  - subst w'. exists nd1. split; [assumption|]. now left.
Qed.

(** An update at the timestamp the node is stamped with, on a node that is
    not UNINITIALIZED, only logs. *)
Lemma update_skip (node : Z) (t : float) (nd : ngl_node) (w : world) :
  nodes w !! node = Some nd ->
  state nd <> STATE_UNINITIALIZED ->
  PrimFloat.eqb t t = true ->
  update (classes (class nd)) = None \/ last_update_time nd = t ->
  ngli_node_update classes e node t w
  = Done 0 (match update (classes (class nd)) with
            | Some _ => add_log (LOG_ALREADY_UPDATED node t) w
            | None => w
            end).
Proof.
  intros Hl Hs Ht Hc. unfold ngli_node_update, bind.
  rewrite (init_noop classes e _ _ _ Hl Hs). cbn.
  rewrite (get_node_Done _ _ _ Hl). unfold class_of.
  destruct (update (classes (class nd))) as [cb|] eqn:Eu; [|reflexivity].
  destruct Hc as [Hc|Hc]; [discriminate|].
  unfold double_ne. rewrite Hc, Ht. cbn.
  assert (Hl' : nodes (add_log (LOG_ALREADY_UPDATED node t) w) !! node = Some nd)
    by exact Hl.
  rewrite (modify_node_Done _ _ _ _ Hl').
  replace (set_last_update_time t nd) with nd
    by (rewrite <- Hc; symmetry; apply set_last_update_time_id).
  cbn. rewrite (insert_id _ _ _ Hl). reflexivity.
Qed.

End Update.

(** ** The reset of the private block *)

Lemma opt_sizes_pos (t : param_type) : 0 < opt_sizes t <= 64.
Proof. destruct t; cbn; lia. Qed.

Lemma schema_fits_le (pars : list node_param) (cur size : Z) :
  schema_fits pars cur size -> cur <= size.
Proof.
  revert cur. induction pars as [|p rest IH]; intros cur H; cbn in H; [exact H|].
  destruct H as [H1 H2]. apply IH in H2. pose proof (opt_sizes_pos (type p)). lia.
Qed.

Lemma covered_ge (pars : list node_param) (cur size i : Z) :
  schema_fits pars cur size -> covered pars i -> cur <= i.
Proof.
  revert cur. induction pars as [|p rest IH]; intros cur H Hc.
  - inversion Hc.
  - cbn in H. destruct H as [H1 H2]. inversion Hc as [? ? Hp|? ? Hr]; subst.
    + lia.
    + specialize (IH _ H2 Hr). pose proof (opt_sizes_pos (type p)). lia.
Qed.

Lemma memset_spec (bs : list Z) (off len : Z) :
  0 <= off -> 0 <= len -> off + len <= Z.of_nat (length bs) ->
  exists bs', memset bs off 0 len = Some bs'
              /\ length bs' = length bs
              /\ (forall i, off <= i < off + len -> byte_at bs' i = Some 0)
              /\ (forall i, 0 <= i -> ~ (off <= i < off + len) ->
                            byte_at bs' i = byte_at bs i).
Proof.
  intros Ho Hl Hb. unfold memset, store_bytes.
  rewrite length_replicate.
  replace (0 <=? len) with true by (symmetry; apply Z.leb_le; lia).
  replace (0 <=? off) with true by (symmetry; apply Z.leb_le; lia).
  replace (off + Z.of_nat (Z.to_nat len) <=? Z.of_nat (length bs)) with true
    by (symmetry; apply Z.leb_le; lia).
  cbn. eexists. split; [reflexivity|].
  assert (Hlt : length (take (Z.to_nat off) bs) = Z.to_nat off)
    by (rewrite length_take; lia).
  split; [|split].
  - rewrite !length_app, Hlt, length_replicate, length_drop. lia.
  - intros i Hi. unfold byte_at.
    rewrite lookup_app_r by lia. rewrite Hlt.
    rewrite lookup_app_l by (rewrite length_replicate; lia).
    apply lookup_replicate_2. lia.
  - intros i Hi Hn. unfold byte_at.
    destruct (Z_lt_dec i off) as [Hlo|Hhi].
    + rewrite lookup_app_l by lia. apply lookup_take_lt. lia.
    + rewrite lookup_app_r by lia. rewrite Hlt.
      rewrite lookup_app_r by (rewrite length_replicate; lia).
      rewrite length_replicate, lookup_drop. f_equal. lia.
Qed.

Lemma memset_inv (bs bs' : list Z) (off len : Z) :
  memset bs off 0 len = Some bs' ->
  0 <= off /\ 0 <= len /\ off + len <= Z.of_nat (length bs)
  /\ length bs' = length bs
  /\ (forall i, off <= i < off + len -> byte_at bs' i = Some 0)
  /\ (forall i, 0 <= i -> ~ (off <= i < off + len) ->
                byte_at bs' i = byte_at bs i).
Proof.
  intros H.
  assert (Hb : 0 <= off /\ 0 <= len /\ off + len <= Z.of_nat (length bs)).
  { unfold memset, store_bytes in H. rewrite length_replicate in H.
    destruct (0 <=? len) eqn:E1; [|discriminate].
    destruct (0 <=? off) eqn:E2; [|discriminate].
    destruct (off + Z.of_nat (Z.to_nat len) <=? Z.of_nat (length bs)) eqn:E3;
      [|discriminate].
    apply Z.leb_le in E1, E2, E3. lia. }
  destruct Hb as (H1 & H2 & H3).
  destruct (memset_spec bs off len H1 H2 H3) as (b & Hb & Hl & Hz & Ho).
  rewrite H in Hb. inversion Hb; subst b. auto 10.
Qed.

(** The loop of [reset_non_params] on a schema that fits: every byte it has
    passed is zero unless a parameter covers it, and covered bytes keep
    their value. *)
Lemma reset_non_params_loop_spec (size : Z) (pars : list node_param) :
  forall (cur cur' : Z) (priv priv' : list Z),
    0 <= cur ->
    size < 2 ^ 64 ->
    schema_fits pars cur size ->
    reset_non_params_loop pars cur priv = Some (cur', priv') ->
    length priv' = length priv
    /\ cur <= cur' <= size
    /\ (forall i, cur' <= i -> ~ covered pars i)
    /\ (forall i, 0 <= i -> (i < cur \/ cur' <= i \/ covered pars i) ->
                  byte_at priv' i = byte_at priv i)
    /\ (forall i, cur <= i < cur' -> ~ covered pars i ->
                  byte_at priv' i = Some 0).
Proof.
  induction pars as [|p rest IH]; intros cur cur' priv priv' Hc Hsz Hf Hrun.
  - cbn in *. inversion Hrun; subst.
    split; [reflexivity|]. split; [lia|]. split; [|split].
    + intros i _ H. inversion H.
    + reflexivity.
    + intros i Hi. lia.
  - cbn in Hf. destruct Hf as [Hle Hrest].
    pose proof (opt_sizes_pos (type p)) as Hp.
    pose proof (schema_fits_le _ _ _ Hrest) as Hend.
    assert (Hwo : size_t_wrap (offset p) = offset p)
      by (unfold size_t_wrap; apply Z.mod_small; lia).
    assert (Hwn : size_t_wrap (offset p + opt_sizes (type p))
                  = offset p + opt_sizes (type p))
      by (unfold size_t_wrap; apply Z.mod_small; lia).
    assert (Hwg : size_t_wrap (offset p - cur) = offset p - cur)
      by (unfold size_t_wrap; apply Z.mod_small; lia).
    cbn in Hrun. rewrite Hwo, Hwg, Hwn in Hrun.
    destruct (if negb (offset p =? cur)
              then memset priv cur 0 (offset p - cur) else Some priv)
      as [priv1|] eqn:Hs1; [|discriminate].
    assert (Hstep : length priv1 = length priv
               /\ (forall i, cur <= i < offset p -> byte_at priv1 i = Some 0)
               /\ (forall i, 0 <= i -> ~ (cur <= i < offset p) ->
                             byte_at priv1 i = byte_at priv i)).
    { destruct (offset p =? cur) eqn:E; cbn in Hs1.
      - apply Z.eqb_eq in E. inversion Hs1; subst priv1.
        split; [reflexivity|]. split.
        + intros i Hi. lia.
        + reflexivity.
      - apply memset_inv in Hs1.
        destruct Hs1 as (_ & _ & _ & Hl & Hz & Ho).
        split; [assumption|]. split.
        + intros i Hi. apply Hz. lia.
        + intros i Hi Hn. apply Ho; [assumption | lia]. }
    destruct Hstep as (Hl1 & Hz1 & Ho1).
    assert (Hc1 : 0 <= offset p + opt_sizes (type p)) by lia.
    destruct (IH _ _ _ _ Hc1 Hsz Hrest Hrun) as
      (Hl' & Hb' & Hn' & Hk' & Hz').
    split; [congruence|]. split; [lia|].
    split; [|split].
    + intros i Hi Hcov. inversion Hcov as [? ? Hp0|? ? Hr0]; subst.
      * lia.
      * now apply (Hn' i).
    + intros i Hi [Hlt|[Hge|Hcov]].
      * rewrite Hk' by (try assumption; left; lia). apply Ho1; [assumption|lia].
      * rewrite Hk' by (try assumption; right; left; lia).
        apply Ho1; [assumption|lia].
      * inversion Hcov as [? ? Hp0|? ? Hr0]; subst.
        -- rewrite Hk' by (try assumption; left; lia). apply Ho1; [assumption|lia].
        -- pose proof (covered_ge _ _ _ _ Hrest Hr0).
           rewrite Hk' by (try assumption; right; right; assumption).
           apply Ho1; [assumption|lia].
    + intros i Hi Hnc.
      destruct (Z_lt_dec i (offset p)) as [Hlo|Hhi].
      * rewrite Hk' by (try lia; left; lia). apply Hz1. lia.
      * destruct (Z_lt_dec i (offset p + opt_sizes (type p))) as [Hin|Hout].
        -- exfalso. apply Hnc. left. lia.
        -- apply Hz'; [lia|]. intros Hr0. apply Hnc. now right.
Qed.

(** [reset_non_params] zeroes exactly the bytes no parameter covers. *)
Lemma reset_block_spec (pars : list node_param) (size : Z)
    (priv priv' : list Z) :
  size < 2 ^ 64 ->
  schema_fits pars 0 size ->
  reset_block pars size priv = Some priv' ->
  length priv' = length priv
  /\ size <= Z.of_nat (length priv)
  /\ (forall i, 0 <= i < size -> ~ covered pars i -> byte_at priv' i = Some 0)
  /\ (forall i, 0 <= i -> covered pars i -> byte_at priv' i = byte_at priv i).
Proof.
  intros Hsz Hf H. unfold reset_block in H.
  destruct (reset_non_params_loop pars 0 priv) as [[cur p1]|] eqn:Hl; [|discriminate].
  destruct (reset_non_params_loop_spec size pars _ _ _ _ (Z.le_refl 0) Hsz Hf Hl)
    as (Hl1 & Hb & Hn & Hk & Hz).
  assert (Hw : size_t_wrap (size - cur) = size - cur)
    by (unfold size_t_wrap; apply Z.mod_small; lia).
  rewrite Hw in H. apply memset_inv in H.
  destruct H as (_ & _ & Hle & Hl2 & Hz2 & Ho2).
  split; [congruence|]. split; [lia|]. split.
  - intros i Hi Hnc. destruct (Z_lt_dec i cur) as [Hlo|Hhi].
    + rewrite Ho2 by lia. apply Hz; [lia|assumption].
    + apply Hz2. lia.
  - intros i Hi Hcov.
    assert (i < cur) by (destruct (Z_lt_dec i cur); [assumption|]; exfalso; apply (Hn i); [lia|assumption]).
    rewrite Ho2 by lia. apply Hk; [assumption|]. now right; right.
Qed.

(** On a block of [priv_size] bytes and a schema that fits, the reset
    succeeds. *)
Lemma reset_block_total (pars : list node_param) (priv : list Z) :
  Z.of_nat (length priv) < 2 ^ 64 ->
  schema_fits pars 0 (Z.of_nat (length priv)) ->
  exists priv', reset_block pars (Z.of_nat (length priv)) priv = Some priv'.
Proof.
  intros Hsz Hf. unfold reset_block.
  assert (Hloop : forall pars cur priv,
             0 <= cur -> Z.of_nat (length priv) < 2 ^ 64 ->
             schema_fits pars cur (Z.of_nat (length priv)) ->
             exists cur' priv',
               reset_non_params_loop pars cur priv = Some (cur', priv')).
  { clear. induction pars as [|p rest IH]; intros cur priv Hc Hsz Hf.
    - cbn. eauto.
    - cbn in Hf. destruct Hf as [Hle Hrest].
      pose proof (opt_sizes_pos (type p)) as Hp.
      pose proof (schema_fits_le _ _ _ Hrest) as Hend.
      cbn.
      replace (size_t_wrap (offset p)) with (offset p)
        by (unfold size_t_wrap; symmetry; apply Z.mod_small; lia).
      replace (size_t_wrap (offset p + opt_sizes (type p)))
        with (offset p + opt_sizes (type p))
        by (unfold size_t_wrap; symmetry; apply Z.mod_small; lia).
      replace (size_t_wrap (offset p - cur)) with (offset p - cur)
        by (unfold size_t_wrap; symmetry; apply Z.mod_small; lia).
      destruct (offset p =? cur) eqn:E; cbn.
      + apply IH; [lia|assumption|assumption].
      + destruct (memset_spec priv cur (offset p - cur)) as (b & Hb & Hl & _);
          try lia.
        rewrite Hb. apply IH; [lia| |]; now rewrite Hl. }
  destruct (Hloop pars 0 priv (Z.le_refl 0) Hsz Hf) as (cur & p1 & Hl).
  rewrite Hl.
  destruct (reset_non_params_loop_spec _ pars _ _ _ _ (Z.le_refl 0) Hsz Hf Hl)
    as (Hl1 & Hb & _).
  replace (size_t_wrap (Z.of_nat (length priv) - cur))
    with (Z.of_nat (length priv) - cur)
    by (unfold size_t_wrap; symmetry; apply Z.mod_small; lia).
  destruct (memset_spec p1 cur (Z.of_nat (length priv) - cur)) as (b & Hb2 & _);
    try lia.
  eauto.
Qed.

(** ** Full uninitialisation *)

Section Uninit.

Variable classes : Z -> node_class.
Variable e : engine.



End Uninit.

(** ** Parameter mutation *)

Section ParamMutation.

Variable classes : Z -> node_class.
Variable e : engine.


End ParamMutation.


(** ** The three walks over node-typed fields are the same traversal *)

Lemma bind_ext {A B} (m m' : M A) (k k' : A -> M B) (w : world) :
  m w = m' w ->
  (forall a w1, k a w1 = k' a w1) ->
  bind m k w = bind m' k' w.
Proof.
  intros Hm Hk. unfold bind. rewrite Hm. destruct (m' w); [apply Hk | reflexivity].
Qed.

Section Walks.

Variable e : engine.

Lemma set_ctx_elems_walk (elems ctxp : Z) (n : nat) :
  forall (j : Z) (w : world),
    set_ctx_elems e elems ctxp j n w
    = for_each_elem (fun child => call_attach_ctx e child ctxp) elems j n w.
Proof.
  induction n as [|n IH]; intros j w; [reflexivity|].
  cbn. unfold bind. destruct (load_elem elems j w) as [child w1|]; [|reflexivity].
  destruct (call_attach_ctx e child ctxp w1) as [r w2|]; [|reflexivity].
  destruct (r <? 0); [reflexivity | apply IH].
Qed.

Lemma set_ctx_entries_walk (ctxp : Z) (entries : list (string * Z)) :
  forall w : world,
    set_ctx_entries e entries ctxp w
    = for_each_entry (fun child => call_attach_ctx e child ctxp) entries w.
Proof.
  induction entries as [|entry rest IH]; intros w; [reflexivity|].
  cbn. unfold bind.
  destruct (call_attach_ctx e entry.2 ctxp w) as [r w2|]; [|reflexivity].
  destruct (r <? 0); [reflexivity | apply IH].
Qed.

Lemma node_set_children_ctx_walk (base : base_ptr) (ctxp : Z)
    (params : list node_param) :
  forall w : world,
    node_set_children_ctx_loop e base params ctxp w
    = for_each_child (fun child => call_attach_ctx e child ctxp) base params w.
Proof.
  induction params as [|p rest IH]; intros w; [reflexivity|].
  cbn.
  assert (Hf : forall w,
             match type p with
             | PARAM_TYPE_NODE =>
                 let* node := base_load_ptr base (offset p) in
                 if negb (node =? 0) then call_attach_ctx e node ctxp else ret 0
             | PARAM_TYPE_NODELIST =>
                 let* elems := base_load_ptr base (offset p) in
                 let* nb_elems := base_load_int base (offset p + 8) in
                 set_ctx_elems e elems ctxp 0 (Z.to_nat nb_elems)
             | PARAM_TYPE_NODEDICT =>
                 let* hmap := base_load_ptr base (offset p) in
                 if hmap =? 0 then ret 0
                 else let* entries := load_hmap hmap in
                      set_ctx_entries e entries ctxp
             | _ => ret 0
             end w
             = for_each_field (fun child => call_attach_ctx e child ctxp) base p w).
  { intros w0. unfold for_each_field. destruct (type p); try reflexivity.
    - unfold bind. destruct (base_load_ptr base (offset p) w0) as [c w1|];
        [|reflexivity].
      now destruct (c =? 0).
    - unfold bind. destruct (base_load_ptr base (offset p) w0) as [c w1|];
        [|reflexivity].
      destruct (base_load_int base (offset p + 8) w1) as [k w2|]; [|reflexivity].
      apply set_ctx_elems_walk.
    - unfold bind. destruct (base_load_ptr base (offset p) w0) as [c w1|];
        [|reflexivity].
      destruct (c =? 0); [reflexivity|].
      destruct (load_hmap c w1) as [l w2|]; [|reflexivity].
      apply set_ctx_entries_walk. }
  apply bind_ext; [apply Hf|].
  intros r w1. destruct (r <? 0); [reflexivity | apply IH].
Qed.

Lemma visit_elems_walk (elems node : Z) (t : float) (n : nat) :
  forall (i : Z) (w : world),
    visit_elems e elems node t i n w
    = for_each_elem (fun child => call_visit e child node t) elems i n w.
Proof.
  induction n as [|n IH]; intros i w; [reflexivity|].
  cbn. unfold bind. destruct (load_elem elems i w) as [child w1|]; [|reflexivity].
  destruct (call_visit e child node t w1) as [r w2|]; [|reflexivity].
  destruct (r <? 0); [reflexivity | apply IH].
Qed.

Lemma visit_entries_walk (node : Z) (t : float) (entries : list (string * Z)) :
  forall w : world,
    visit_entries e entries node t w
    = for_each_entry (fun child => call_visit e child node t) entries w.
Proof.
  induction entries as [|entry rest IH]; intros w; [reflexivity|].
  cbn. unfold bind.
  destruct (call_visit e entry.2 node t w) as [r w2|]; [|reflexivity].
  destruct (r <? 0); [reflexivity | apply IH].
Qed.

(** The loop of [ngli_node_visit] visits the children in schema order with
    the node as parent. *)
Lemma visit_params_walk (node : Z) (t : float) (params : list node_param) :
  forall w : world,
    visit_params e node t params w
    = for_each_child (fun child => call_visit e child node t)
        (BASE_PRIV node) params w.
Proof.
  induction params as [|p rest IH]; intros w; [reflexivity|].
  cbn.
  assert (Hf : forall w,
             match type p with
             | PARAM_TYPE_NODE =>
                 let* child := base_load_ptr (BASE_PRIV node) (offset p) in
                 if negb (child =? 0) then call_visit e child node t else ret 0
             | PARAM_TYPE_NODELIST =>
                 let* elems := base_load_ptr (BASE_PRIV node) (offset p) in
                 let* nb_elems := base_load_int (BASE_PRIV node) (offset p + 8) in
                 visit_elems e elems node t 0 (Z.to_nat nb_elems)
             | PARAM_TYPE_NODEDICT =>
                 let* hmap := base_load_ptr (BASE_PRIV node) (offset p) in
                 if hmap =? 0 then ret 0
                 else let* entries := load_hmap hmap in
                      visit_entries e entries node t
             | _ => ret 0
             end w
             = for_each_field (fun child => call_visit e child node t)
                 (BASE_PRIV node) p w).
  { intros w0. unfold for_each_field. destruct (type p); try reflexivity.
    - unfold bind.
      destruct (base_load_ptr (BASE_PRIV node) (offset p) w0) as [c w1|];
        [|reflexivity].
      now destruct (c =? 0).
    - unfold bind.
      destruct (base_load_ptr (BASE_PRIV node) (offset p) w0) as [c w1|];
        [|reflexivity].
      destruct (base_load_int (BASE_PRIV node) (offset p + 8) w1) as [k w2|];
        [|reflexivity].
      apply visit_elems_walk.
    - unfold bind.
      destruct (base_load_ptr (BASE_PRIV node) (offset p) w0) as [c w1|];
        [|reflexivity].
      destruct (c =? 0); [reflexivity|].
      destruct (load_hmap c w1) as [l w2|]; [|reflexivity].
      apply visit_entries_walk. }
  apply bind_ext; [apply Hf|].
  intros r w1. destruct (r <? 0); [reflexivity | apply IH].
Qed.

Lemma honor_release_prefetch_elems_walk (elems : Z) (t : float) (n : nat) :
  forall (i : Z) (w : world),
    honor_release_prefetch_elems e elems t i n w
    = for_each_elem (fun child => call_honor_release_prefetch e child t)
        elems i n w.
Proof.
  induction n as [|n IH]; intros i w; [reflexivity|].
  cbn. unfold bind. destruct (load_elem elems i w) as [child w1|]; [|reflexivity].
  destruct (call_honor_release_prefetch e child t w1) as [r w2|]; [|reflexivity].
  destruct (r <? 0); [reflexivity | apply IH].
Qed.

Lemma honor_release_prefetch_entries_walk (t : float)
    (entries : list (string * Z)) :
  forall w : world,
    honor_release_prefetch_entries e entries t w
    = for_each_entry (fun child => call_honor_release_prefetch e child t)
        entries w.
Proof.
  induction entries as [|entry rest IH]; intros w; [reflexivity|].
  cbn. unfold bind.
  destruct (call_honor_release_prefetch e entry.2 t w) as [r w2|]; [|reflexivity].
  destruct (r <? 0); [reflexivity | apply IH].
Qed.

(** The loop of [ngli_node_honor_release_prefetch] reconciles the children
    in schema order. *)
Lemma honor_release_prefetch_params_walk (node : Z) (t : float)
    (params : list node_param) :
  forall w : world,
    honor_release_prefetch_params e node t params w
    = for_each_child (fun child => call_honor_release_prefetch e child t)
        (BASE_PRIV node) params w.
Proof.
  induction params as [|p rest IH]; intros w; [reflexivity|].
  cbn.
  assert (Hf : forall w,
             match type p with
             | PARAM_TYPE_NODE =>
                 let* child := base_load_ptr (BASE_PRIV node) (offset p) in
                 if negb (child =? 0)
                 then call_honor_release_prefetch e child t else ret 0
             | PARAM_TYPE_NODELIST =>
                 let* elems := base_load_ptr (BASE_PRIV node) (offset p) in
                 let* nb_elems := base_load_int (BASE_PRIV node) (offset p + 8) in
                 honor_release_prefetch_elems e elems t 0 (Z.to_nat nb_elems)
             | PARAM_TYPE_NODEDICT =>
                 let* hmap := base_load_ptr (BASE_PRIV node) (offset p) in
                 if hmap =? 0 then ret 0
                 else let* entries := load_hmap hmap in
                      honor_release_prefetch_entries e entries t
             | _ => ret 0
             end w
             = for_each_field (fun child => call_honor_release_prefetch e child t)
                 (BASE_PRIV node) p w).
  { intros w0. unfold for_each_field. destruct (type p); try reflexivity.
    - unfold bind.
      destruct (base_load_ptr (BASE_PRIV node) (offset p) w0) as [c w1|];
        [|reflexivity].
      now destruct (c =? 0).
    - unfold bind.
      destruct (base_load_ptr (BASE_PRIV node) (offset p) w0) as [c w1|];
        [|reflexivity].
      destruct (base_load_int (BASE_PRIV node) (offset p + 8) w1) as [k w2|];
        [|reflexivity].
      apply honor_release_prefetch_elems_walk.
    - unfold bind.
      destruct (base_load_ptr (BASE_PRIV node) (offset p) w0) as [c w1|];
        [|reflexivity].
      destruct (c =? 0); [reflexivity|].
      destruct (load_hmap c w1) as [l w2|]; [|reflexivity].
      apply honor_release_prefetch_entries_walk. }
  apply bind_ext; [apply Hf|].
  intros r w1. destruct (r <? 0); [reflexivity | apply IH].
Qed.

End Walks.

(** ** Invariants of a walk *)

Lemma base_load_ptr_inv (base : base_ptr) (off v : Z) (w w' : world) :
  base_load_ptr base off w = Done v w' -> w' = w.
Proof.
  unfold base_load_ptr, bind, get_node, of_option.
  destruct base as [n|n]; destruct (nodes w !! n) as [nd|]; try discriminate.
  - destruct (off =? OFFSET FIELD_glstates); [|discriminate].
    intros H. now inversion H.
  - destruct (load_ptr (priv_data nd) off); [|discriminate].
    intros H. now inversion H.
Qed.

Lemma base_load_int_inv (base : base_ptr) (off v : Z) (w w' : world) :
  base_load_int base off w = Done v w' -> w' = w.
Proof.
  unfold base_load_int, bind, get_node, of_option.
  destruct base as [n|n]; destruct (nodes w !! n) as [nd|]; try discriminate.
  - destruct (off =? OFFSET FIELD_glstates + 8); [|discriminate].
    intros H. now inversion H.
  - destruct (load_int (priv_data nd) off); [|discriminate].
    intros H. now inversion H.
Qed.

Lemma load_elem_inv (elems j v : Z) (w w' : world) :
  load_elem elems j w = Done v w' -> w' = w.
Proof.
  unfold load_elem. destruct (arrays w !! elems) as [l|]; [|discriminate].
  destruct (j <? 0); [discriminate|].
  destruct (l !! Z.to_nat j); [|discriminate]. intros H. now inversion H.
Qed.

Lemma load_hmap_inv (hmap : Z) (l : list (string * Z)) (w w' : world) :
  load_hmap hmap w = Done l w' -> w' = w.
Proof.
  unfold load_hmap. destruct (hmaps w !! hmap); [|discriminate].
  intros H. now inversion H.
Qed.

Section WalkInvariant.

(** A relation [R] between the worlds before and after, and a property [Q]
    of worlds under which the calls on the children do not fail. *)
Variable R : world -> world -> Prop.
Variable Q : world -> Prop.
Hypothesis R_refl : forall w, R w w.
Hypothesis R_trans : forall a b c, R a b -> R b c -> R a c.
Hypothesis Q_R : forall w w', R w w' -> Q w -> Q w'.

Variable f : Z -> M Z.
Hypothesis f_ok : forall child w r w',
    f child w = Done r w' -> R w w' /\ (Q w -> 0 <= r).

Lemma for_each_elem_inv (elems : Z) (n : nat) :
  forall i w r w',
    for_each_elem f elems i n w = Done r w' -> R w w' /\ (Q w -> 0 <= r).
Proof.
  induction n as [|n IH]; intros i w r w' H; cbn in H.
  - apply ret_inv in H. destruct H as [-> ->]. split; [apply R_refl | lia].
  - inv_bind H as child w1 Hld. apply load_elem_inv in Hld. subst w1.
    inv_bind H as rc w2 Hf. destruct (f_ok _ _ _ _ Hf) as [HR HQ].
    destruct (rc <? 0) eqn:E.
    + apply ret_inv in H. destruct H as [-> ->]. now split.
    + destruct (IH _ _ _ _ H) as [HR' HQ']. split; [eauto|].
      intros Hq. apply HQ'. eauto.
Qed.

Lemma for_each_entry_inv (entries : list (string * Z)) :
  forall w r w',
    for_each_entry f entries w = Done r w' -> R w w' /\ (Q w -> 0 <= r).
Proof.
  induction entries as [|entry rest IH]; intros w r w' H; cbn in H.
  - apply ret_inv in H. destruct H as [-> ->]. split; [apply R_refl | lia].
  - inv_bind H as rc w2 Hf. destruct (f_ok _ _ _ _ Hf) as [HR HQ].
    destruct (rc <? 0) eqn:E.
    + apply ret_inv in H. destruct H as [-> ->]. now split.
    + destruct (IH _ _ _ H) as [HR' HQ']. split; [eauto|].
      intros Hq. apply HQ'. eauto.
Qed.

Lemma for_each_field_inv (base : base_ptr) (p : node_param) :
  forall w r w',
    for_each_field f base p w = Done r w' -> R w w' /\ (Q w -> 0 <= r).
Proof.
  intros w r w' H. unfold for_each_field in H.
  destruct (type p);
    try (apply ret_inv in H; destruct H as [-> ->]; split; [apply R_refl | lia]).
  - inv_bind H as c w1 Hld. apply base_load_ptr_inv in Hld. subst w1.
    destruct (c =? 0).
    + apply ret_inv in H. destruct H as [-> ->]. split; [apply R_refl | lia].
    + now apply f_ok in H.
  - inv_bind H as c w1 Hld. apply base_load_ptr_inv in Hld. subst w1.
    inv_bind H as k w1 Hld. apply base_load_int_inv in Hld. subst w1.
    now apply for_each_elem_inv in H.
  - inv_bind H as c w1 Hld. apply base_load_ptr_inv in Hld. subst w1.
    destruct (c =? 0).
    + apply ret_inv in H. destruct H as [-> ->]. split; [apply R_refl | lia].
    + inv_bind H as l w1 Hld. apply load_hmap_inv in Hld. subst w1.
      now apply for_each_entry_inv in H.
Qed.

Lemma for_each_child_inv (base : base_ptr) (params : list node_param) :
  forall w r w',
    for_each_child f base params w = Done r w' -> R w w' /\ (Q w -> 0 <= r).
Proof.
  induction params as [|p rest IH]; intros w r w' H; cbn in H.
  - apply ret_inv in H. destruct H as [-> ->]. split; [apply R_refl | lia].
  - inv_bind H as rc w2 Hf. destruct (for_each_field_inv _ _ _ _ _ Hf) as [HR HQ].
    destruct (rc <? 0) eqn:E.
    + apply ret_inv in H. destruct H as [-> ->]. now split.
    + destruct (IH _ _ _ H) as [HR' HQ']. split; [eauto|].
      intros Hq. apply HQ'. eauto.
Qed.

End WalkInvariant.

(** ** Context attachment *)

Lemma ctx_grows_refl (c : Z) (w : world) : ctx_grows c w w.
Proof. intros n. destruct (nodes w !! n); auto. Qed.

Lemma ctx_grows_trans (c : Z) (w1 w2 w3 : world) :
  ctx_grows c w1 w2 -> ctx_grows c w2 w3 -> ctx_grows c w1 w3.
Proof.
  intros H12 H23 n. specialize (H12 n). specialize (H23 n).
  destruct (nodes w1 !! n) as [a|], (nodes w2 !! n) as [b|],
    (nodes w3 !! n) as [d|]; try tauto.
  destruct H12 as [H12|[H12 H12']], H23 as [H23|[H23 H23']]; try (left; congruence).
  - right. split; congruence.
  - right. split; congruence.
Qed.

Lemma ctx_compatible_grows (c : Z) (w w' : world) :
  ctx_grows c w w' -> ctx_compatible c w -> ctx_compatible c w'.
Proof.
  intros Hg Hc n nd' Hl. specialize (Hg n). rewrite Hl in Hg.
  destruct (nodes w !! n) as [nd|] eqn:E; [|contradiction].
  specialize (Hc _ _ E). destruct Hg as [Hg|[_ Hg]]; [rewrite Hg; exact Hc | now right].
Qed.

Section Attach.

Variable classes : Z -> node_class.

(** [node_set_ctx] with a context, once past the check on the node itself,
    attaches the children. *)
Lemma node_set_ctx_children (e : engine) (node c : Z) (w : world) :
  (let* nd := get_node node in
   let* r := node_set_children_ctx e (BASE_PRIV node)
               (params (class_of classes nd)) c in
   if r <? 0 then ret r
   else
     let* r := node_set_children_ctx e (BASE_NODE node)
                 (Some ngli_base_node_params) c in
     if r <? 0 then ret r else ret 0) w
  = attach_children classes e node c w.
Proof.
  unfold attach_children. apply bind_ext; [reflexivity|]. intros nd w1.
  assert (Hs : forall base ps (k : Z -> M Z) w,
             (let* r := node_set_children_ctx e base ps c in
              if r <? 0 then ret r else k r) w
             = (let* r := for_each_child (fun child => call_attach_ctx e child c)
                            base (schema ps) in
                if r <? 0 then ret r else k 0) w).
  { intros base [l|] k w0; cbn.
    - unfold node_set_children_ctx, bind.
      rewrite node_set_children_ctx_walk.
      destruct (for_each_child _ base l w0) as [r w2|]; [|reflexivity].
      destruct (r <? 0) eqn:E; cbn; [now rewrite E | reflexivity].
    - reflexivity. }
  unfold class_of. rewrite Hs. apply bind_ext; [reflexivity|]. intros r w2.
  destruct (r <? 0); [reflexivity|].
  rewrite (Hs _ _ (fun _ => ret 0)). reflexivity.
Qed.

(** [node_set_ctx] with a context [c]: an unattached node takes [c], a node
    attached to [c] is left alone, and in both cases the children follow; a
    node attached to another context is reported and nothing changes. *)
Lemma node_set_ctx_cases (e : engine) (node c : Z) (nd : ngl_node) (w : world) :
  c <> 0 ->
  nodes w !! node = Some nd ->
  node_set_ctx classes e node c w
  = if ctx nd =? 0 then
      attach_children classes e node c
        (set_nodes (<[node := set_ctx c nd]> (nodes w)) w)
    else if ctx nd =? c then attach_children classes e node c w
    else Done (-1) (add_log (LOG_OTHER_CTX node) w).
Proof.
  intros Hc Hl. unfold node_set_ctx.
  unfold bind at 1. rewrite (get_node_Done _ _ _ Hl).
  replace (c =? 0) with false by (symmetry; now apply Z.eqb_neq).
  cbn [negb]. destruct (ctx nd =? 0) eqn:E0; cbn [negb].
  - unfold bind at 1. unfold bind at 1.
    rewrite (modify_node_Done _ _ _ _ Hl). cbn [ret].
    apply node_set_ctx_children.
  - destruct (ctx nd =? c) eqn:Ec; cbn [negb].
    + unfold bind at 1. cbn [ret]. apply node_set_ctx_children.
    + reflexivity.
Qed.

Lemma attach_children_inv (e : engine) (c : Z) :
  (forall child w r w',
      call_attach_ctx e child c w = Done r w' ->
      ctx_grows c w w' /\ (ctx_compatible c w -> 0 <= r)) ->
  forall node w r w',
    attach_children classes e node c w = Done r w' ->
    ctx_grows c w w' /\ (ctx_compatible c w -> r = 0).
Proof.
  intros He node w r w' H. unfold attach_children in H.
  inv_get H as nd Hl. inv_bind H as r1 w1 H1.
  destruct (for_each_child_inv (ctx_grows c) (ctx_compatible c)
              (ctx_grows_refl c) (ctx_grows_trans c) (ctx_compatible_grows c)
              _ He _ _ _ _ _ H1) as [HR1 HQ1].
  destruct (r1 <? 0) eqn:E1.
  { apply ret_inv in H. destruct H as [-> ->]. split; [assumption|].
    intros Hq. apply HQ1 in Hq. apply Z.ltb_lt in E1. lia. }
  inv_bind H as r2 w2 H2.
  destruct (for_each_child_inv (ctx_grows c) (ctx_compatible c)
              (ctx_grows_refl c) (ctx_grows_trans c) (ctx_compatible_grows c)
              _ He _ _ _ _ _ H2) as [HR2 HQ2].
  assert (HR : ctx_grows c w w') .
  { destruct (r2 <? 0); apply ret_inv in H; destruct H as [_ ->];
      eapply ctx_grows_trans; eauto. }
  split; [assumption|]. intros Hq.
  destruct (r2 <? 0) eqn:E2; apply ret_inv in H; destruct H as [-> _];
    [|reflexivity].
  assert (0 <= r2) by (apply HQ2; eapply ctx_compatible_grows; eauto).
  apply Z.ltb_lt in E2. lia.
Qed.

(** Attaching with the engine of any depth only ever moves contexts from
    [NULL] to [c], and reports no conflict when no node of the heap is
    attached elsewhere. *)
Lemma attach_ctx_inv (c : Z) (fuel : nat) :
  c <> 0 ->
  forall node w r w',
    call_attach_ctx (engine_of classes fuel) node c w = Done r w' ->
    ctx_grows c w w' /\ (ctx_compatible c w -> 0 <= r).
Proof.
  intros Hc. induction fuel as [|fuel IH]; intros node w r w' H;
    [discriminate|].
  cbn in H. unfold ngli_node_attach_ctx in H.
  destruct (nodes w !! node) as [nd|] eqn:Hl.
  2:{ unfold node_set_ctx, bind, get_node in H. now rewrite Hl in H. }
  rewrite (node_set_ctx_cases _ _ _ _ _ Hc Hl) in H.
  destruct (ctx nd =? 0) eqn:E0.
  - apply Z.eqb_eq in E0.
    destruct (attach_children_inv _ _ IH _ _ _ _ H) as [HR HQ].
    assert (Hstep : ctx_grows c w (set_nodes (<[node := set_ctx c nd]> (nodes w)) w)).
    { intros n. cbn. destruct (Z.eq_dec n node) as [->|Hne].
      - rewrite Hl, lookup_insert_eq. right. now split.
      - rewrite lookup_insert_ne by congruence.
        destruct (nodes w !! n); auto. }
    split; [eapply ctx_grows_trans; eauto|].
    intros Hq. rewrite HQ; [lia|]. eapply ctx_compatible_grows; eauto.
  - destruct (ctx nd =? c) eqn:Ec.
    + destruct (attach_children_inv _ _ IH _ _ _ _ H) as [HR HQ].
      split; [assumption|]. intros Hq. rewrite HQ; [lia|assumption].
    + inversion H; subst. split.
      * intros n. cbn. destruct (nodes w !! n); auto.
      * intros Hq. destruct (Hq _ _ Hl) as [Hz|Hz].
        -- apply Z.eqb_neq in E0. contradiction.
        -- apply Z.eqb_neq in Ec. contradiction.
Qed.

End Attach.

(** ** Evaluation of the scenes for every timestamp *)

(** Weak head evaluation of the left-hand side, one comparison of
    timestamps at a time. *)
Ltac whd_lhs :=
  match goal with
  | |- ?X = _ => let X' := eval lazy head in X in change X with X'
  end.

Ltac eval_with H :=
  with_strategy transparent [gmap_empty]
    (repeat (whd_lhs; rewrite ?H; cbn [nodes arrays hmaps gl log]);
     try reflexivity).


(** From a boolean check of the outcome of a run to the property it
    decides. *)
Lemma result_check {A} (x : result A) (b : A -> world -> bool)
    (P : A -> world -> Prop) :
  (forall a w, b a w = true -> P a w) ->
  match x with Done a w => b a w | Fault _ => false end = true ->
  match x with Done a w => P a w | Fault _ => False end.
Proof. intros Hb. destruct x; [apply Hb | discriminate]. Qed.

(** One frame on the diamond, at any timestamp that is a number. *)
Lemma diamond_reconciled (t : float) :
  PrimFloat.eqb t t = true -> Scene.reconcile_check t = true.
Proof.
  intros Ht. unfold Scene.reconcile_check, Scene.visit_then_reconcile.
  unfold bind at 1.
  set (v := ngli_node_visit _ _ _ _ _ _). vm_compute in v. subst v.
  cbv beta iota. eval_with Ht.
Qed.

(** ** The visit pass *)

Section Visit.

Variable classes : Z -> node_class.
Variable e : engine.

(** The default visit: once the node is initialized, it takes the activity
    of its parent and the timestamp, then its children are visited with the
    node as parent. *)
Lemma visit_default (node from : Z) (t : float) (w w1 : world) (r0 act : Z)
    (nd1 : ngl_node) :
  ngli_node_init classes e node w = Done r0 w1 ->
  0 <= r0 ->
  nodes w1 !! node = Some nd1 ->
  visit (classes (class nd1)) = None ->
  inherited_activity w1 from = Some act ->
  ngli_node_visit classes e node from t w
  = for_each_child (fun child => call_visit e child node t) (BASE_PRIV node)
      (schema (params (classes (class nd1))))
      (set_nodes (<[node := mark_visited act t nd1]> (nodes w1)) w1).
Proof.
  intros Hi Hr Hl Hv Ha. unfold ngli_node_visit.
  unfold bind at 1. rewrite Hi.
  replace (r0 <? 0) with false by (symmetry; apply Z.ltb_ge; lia).
  unfold bind at 1. rewrite (get_node_Done _ _ _ Hl).
  unfold class_of. rewrite Hv.
  assert (Hact : (if negb (from =? 0)
                  then let* f := get_node from in ret (is_active f)
                  else ret 1) w1 = Done act w1).
  { unfold inherited_activity in Ha. destruct (from =? 0); cbn.
    - now inversion Ha.
    - unfold bind, get_node. destruct (nodes w1 !! from); [|discriminate].
      cbn in Ha. now inversion Ha. }
  unfold bind at 1. rewrite Hact.
  unfold bind at 1. rewrite (modify_node_Done _ _ _ _ Hl).
  set (w2 := set_nodes (<[node := set_is_active act nd1]> (nodes w1)) w1).
  assert (Hl2 : nodes w2 !! node = Some (set_is_active act nd1))
    by apply lookup_insert_eq.
  unfold bind at 1. rewrite (modify_node_Done _ _ _ _ Hl2).
  set (w3 := set_nodes _ w2).
  assert (Hl3 : nodes w3 !! node = Some (mark_visited act t nd1))
    by apply lookup_insert_eq.
  unfold bind at 1. rewrite (get_node_Done _ _ _ Hl3).
  rewrite visit_params_walk. f_equal.
  unfold w3, w2, set_nodes. cbn. f_equal. apply insert_insert_eq.
Qed.

Lemma for_each_child_leaf (f : Z -> M Z) (base : base_ptr)
    (pars : list node_param) (w : world) :
  leaf_schema pars -> for_each_child f base pars w = Done 0 w.
Proof.
  induction 1 as [|p rest Hp _ IH]; [reflexivity|].
  cbn. unfold bind, for_each_field.
  destruct (type p); try discriminate; cbn; exact IH.
Qed.

(** On an initialized leaf, the default visit is exactly the two header
    assignments: the last visit decides [is_active]. *)
Lemma visit_leaf (node from : Z) (t : float) (w : world) (act : Z)
    (nd : ngl_node) :
  nodes w !! node = Some nd ->
  state nd <> STATE_UNINITIALIZED ->
  visit (classes (class nd)) = None ->
  leaf_schema (schema (params (classes (class nd)))) ->
  inherited_activity w from = Some act ->
  ngli_node_visit classes e node from t w
  = Done 0 (set_nodes (<[node := mark_visited act t nd]> (nodes w)) w).
Proof.
  intros Hl Hs Hv Hleaf Ha.
  rewrite (visit_default node from t w w 0 act nd);
    try assumption; try lia.
  - now apply for_each_child_leaf.
  - now apply init_noop with nd.
Qed.

End Visit.

(** C4. Visit activity is last-writer-wins.  On a class without a custom
    visit callback, [ngli_node_visit] (once the node is initialized) sets
    [is_active] to the activity of [from], or to 1 when [from] is null, sets
    [visit_time] to [t], then visits every node-typed field with the node as
    parent.  Consequently a leaf visited from X and then from Y ends with the
    activity of Y; in the diamond root -> {X, Y} -> C with X and Y gates of
    opposite activity, C ends with the activity of the gate visited last. *)
Theorem visit_last_writer_wins :
  (forall classes e node from t w w1 r0 act nd1,
      ngli_node_init classes e node w = Done r0 w1 ->
      0 <= r0 ->
      nodes w1 !! node = Some nd1 ->
      visit (classes (class nd1)) = None ->
      inherited_activity w1 from = Some act ->
      ngli_node_visit classes e node from t w
      = for_each_child (fun child => call_visit e child node t)
          (BASE_PRIV node) (schema (params (classes (class nd1))))
          (set_nodes (<[node := mark_visited act t nd1]> (nodes w1)) w1))
  /\ (forall classes e node x y t w nd ax ay,
        nodes w !! node = Some nd ->
        state nd <> STATE_UNINITIALIZED ->
        visit (classes (class nd)) = None ->
        leaf_schema (schema (params (classes (class nd)))) ->
        y <> node ->
        inherited_activity w x = Some ax ->
        inherited_activity w y = Some ay ->
        (let* _ := ngli_node_visit classes e node x t in
         ngli_node_visit classes e node y t) w
        = Done 0 (set_nodes (<[node := mark_visited ay t nd]> (nodes w)) w))
  /\ (forall t,
        match ngli_node_visit Scene.classes (engine_of Scene.classes 4) 100 0 t
                (Scene.gated_diamond 4 5) with
        | Done r w' =>
            r = 0
            /\ (is_active <$> nodes w' !! 101) = Some 1
            /\ (is_active <$> nodes w' !! 102) = Some 0
            /\ (is_active <$> nodes w' !! 103) = Some 0
            /\ (visit_time <$> nodes w' !! 103) = Some t
        | Fault _ => False
        end)
  /\ (forall t,
        match ngli_node_visit Scene.classes (engine_of Scene.classes 4) 100 0 t
                (Scene.gated_diamond 5 4) with
        | Done r w' =>
            r = 0
            /\ (is_active <$> nodes w' !! 101) = Some 0
            /\ (is_active <$> nodes w' !! 102) = Some 1
            /\ (is_active <$> nodes w' !! 103) = Some 1
            /\ (visit_time <$> nodes w' !! 103) = Some t
        | Fault _ => False
        end).
Proof.
  split; [|split; [|split]].
  - intros. now apply visit_default with r0.
  - intros classes e node x y t w nd ax ay Hl Hs Hv Hleaf Hy Hax Hay.
    unfold bind.
    rewrite (visit_leaf classes e node x t w ax nd) by assumption.
    set (w1 := set_nodes _ w).
    assert (Hl1 : nodes w1 !! node = Some (mark_visited ax t nd))
      by apply lookup_insert_eq.
    assert (Hay1 : inherited_activity w1 y = Some ay).
    { unfold inherited_activity in *. destruct (y =? 0); [assumption|].
      unfold w1. cbn. now rewrite lookup_insert_ne by congruence. }
    rewrite (visit_leaf classes e node y t w1 ay _ Hl1); try assumption.
    f_equal. unfold w1, set_nodes. cbn. f_equal. apply insert_insert_eq.
  - intros t. vm_compute. repeat split; reflexivity.
  - intros t. vm_compute. repeat split; reflexivity.
Qed.

(** ** The reconcile pass *)

Section Reconcile.

Variable classes : Z -> node_class.
Variable e : engine.




End Reconcile.


(** C5. Prefetch is idempotent and executed at most once per reconcile:
    [node_prefetch] on a READY node returns 0 and changes nothing (neither
    the log nor any node, so the class callback is not reached); on the
    diamond, one visit followed by one reconcile at any timestamp logs at
    most one prefetch of the shared child and its prefetch call counter is
    at most 1. *)
Theorem prefetch_at_most_once :
  (forall classes e node nd w,
      nodes w !! node = Some nd ->
      state nd = STATE_READY ->
      node_prefetch classes e node w = Done 0 w)
  /\ (forall t,
        match Scene.visit_then_reconcile 4 100 t Scene.diamond with
        | Done r w' =>
            r = 0
            /\ (Scene.count_log (Scene.is_prefetch_of 103) w' <= 1)%nat
            /\ exists n, Scene.counter w' 103 8 = Some n /\ n <= 1
        | Fault _ => False
        end).
Proof.
  split.
  - intros classes e node nd w. apply prefetch_ready.
  - intros t. destruct (PrimFloat.eqb t t) eqn:Ht.
    + apply (result_check (Scene.visit_then_reconcile 4 100 t Scene.diamond)
               (fun r w' =>
                  (r =? 0)
                  && Scene.same_events (Scene.events w')
                       [("INIT", 103); ("PREFETCH", 103); ("PREFETCH", 101);
                        ("PREFETCH", 102); ("PREFETCH", 100)]
                  && (Scene.count_log (Scene.is_prefetch_of 103) w' <=? 1)%nat
                  && match Scene.counter w' 103 8 with
                     | Some n => n =? 1
                     | None => false
                     end)
               (fun r w' =>
                  r = 0
                  /\ (Scene.count_log (Scene.is_prefetch_of 103) w' <= 1)%nat
                  /\ exists n, Scene.counter w' 103 8 = Some n /\ n <= 1)).
      * intros r w' H.
        apply andb_prop in H. destruct H as [H H4].
        apply andb_prop in H. destruct H as [H H3].
        apply andb_prop in H. destruct H as [H1 _].
        apply Z.eqb_eq in H1. apply Nat.leb_le in H3.
        destruct (Scene.counter w' 103 8) as [n|]; [|discriminate].
        apply Z.eqb_eq in H4. split; [assumption|]. split; [assumption|].
        exists n. split; [reflexivity | lia].
      * exact (diamond_reconciled t Ht).
    + apply (result_check (Scene.visit_then_reconcile 4 100 t Scene.diamond)
               (fun r w' =>
                  (r =? 0)
                  && (Scene.count_log (Scene.is_prefetch_of 103) w' <=? 1)%nat
                  && match Scene.counter w' 103 8 with
                     | Some n => n <=? 1
                     | None => false
                     end)
               (fun r w' =>
                  r = 0
                  /\ (Scene.count_log (Scene.is_prefetch_of 103) w' <= 1)%nat
                  /\ exists n, Scene.counter w' 103 8 = Some n /\ n <= 1)).
      * intros r w' H.
        apply andb_prop in H. destruct H as [H H3].
        apply andb_prop in H. destruct H as [H1 H2].
        apply Z.eqb_eq in H1. apply Nat.leb_le in H2.
        destruct (Scene.counter w' 103 8) as [n|]; [|discriminate].
        apply Z.leb_le in H3. eauto.
      * unfold Scene.visit_then_reconcile. unfold bind at 1.
        set (v := ngli_node_visit _ _ _ _ _ _). vm_compute in v. subst v.
        cbv beta iota. eval_with Ht.
Qed.

(** C3 (amended).  Update is memoized per timestamp, for timestamps that
    are numbers.  For a timestamp [t] that is not a NaN ([t == t]), after a
    successful [ngli_node_update(node, t)] that left the node initialized, a
    second immediate call returns 0 and does nothing but log that the node
    is already updated (nothing at all when the class has no update
    callback): the class callback is not invoked again.  More generally the
    same holds in any world where the node is initialized and stamped with
    [t].  On the diamond, updating the root at [t = 1], which reaches the
    shared child through both parents, logs exactly one update of the child
    and leaves its update call counter at 1. *)
Theorem update_memoized_per_timestamp :
  (forall classes e node t r w w1,
      PrimFloat.eqb t t = true ->
      ngli_node_update classes e node t w = Done r w1 ->
      0 <= r ->
      (forall nd1, nodes w1 !! node = Some nd1 ->
                   state nd1 <> STATE_UNINITIALIZED) ->
      exists nd1,
        nodes w1 !! node = Some nd1
        /\ ngli_node_update classes e node t w1
           = Done 0 (match update (classes (class nd1)) with
                     | Some _ => add_log (LOG_ALREADY_UPDATED node t) w1
                     | None => w1
                     end))
  /\ (forall classes e node t nd w cb,
        PrimFloat.eqb t t = true ->
        nodes w !! node = Some nd ->
        state nd <> STATE_UNINITIALIZED ->
        update (classes (class nd)) = Some cb ->
        last_update_time nd = t ->
        ngli_node_update classes e node t w
        = Done 0 (add_log (LOG_ALREADY_UPDATED node t) w))
  /\ (exists w',
        ngli_node_update Scene.classes (engine_of Scene.classes 4) 100 1
          Scene.diamond = Done 0 w'
        /\ Scene.count_log (Scene.is_update_of 103) w' = 1%nat
        /\ Scene.counter w' 103 16 = Some 1).
Proof.
  split; [|split].
  - intros classes e node t r w w1 Ht H Hr Hs.
    destruct (update_success_stamp classes e _ _ _ _ _ H Hr) as (nd1 & Hl1 & Hc).
    exists nd1. split; [assumption|].
    apply update_skip; auto.
  - intros classes e node t nd w cb Ht Hl Hs Hu Hlut.
    rewrite (update_skip classes e node t nd w Hl Hs Ht (or_intror Hlut)).
    now rewrite Hu.
  - eexists. split; [vm_compute; reflexivity|].
    split; vm_compute; reflexivity.
Qed.

(** C3, counterexample.  At a timestamp that is not a number the test
    [last_update_time != t] holds at every call: on the diamond, the update
    of the shared child at NaN succeeds and leaves it READY, and a second
    immediate update at the same timestamp invokes the class callback again
    (two updates logged, the call counter at 2).  And when the callback of
    the first update detaches the node, the update succeeds, stamps the
    node, and the second call is no no-op either: it stops at the assertion
    of [ngli_node_init] on the context. *)
Example update_at_nan_runs_twice :
  (exists w1 nd1 w2,
      ngli_node_update Scene.classes (engine_of Scene.classes 4) 103 nan
        Scene.diamond = Done 0 w1
      /\ nodes w1 !! 103 = Some nd1
      /\ state nd1 = STATE_READY
      /\ Scene.counter w1 103 16 = Some 1
      /\ ngli_node_update Scene.classes (engine_of Scene.classes 4) 103 nan w1
         = Done 0 w2
      /\ Scene.count_log (Scene.is_update_of 103) w2 = 2%nat
      /\ Scene.counter w2 103 16 = Some 2)
  /\ (exists w1 nd1,
        ngli_node_update Cases.leaving_classes
          (engine_of Cases.leaving_classes 4) 200 1 (Cases.single 13 20)
        = Done 0 w1
        /\ nodes w1 !! 200 = Some nd1
        /\ state nd1 = STATE_UNINITIALIZED
        /\ last_update_time nd1 = 1%float
        /\ ngli_node_update Cases.leaving_classes
             (engine_of Cases.leaving_classes 4) 200 1 w1
           = Fault AssertFailed).
Proof.
  split.
  - set (e := engine_of Scene.classes 4).
    set (w1 := world_after (ngli_node_update Scene.classes e 103 nan)
                 Scene.diamond).
    exists w1, (Scene.node_at w1 103),
      (world_after (ngli_node_update Scene.classes e 103 nan) w1).
    repeat match goal with |- _ /\ _ => split end; vm_compute; reflexivity.
  - set (e := engine_of Cases.leaving_classes 4).
    set (w1 := world_after (ngli_node_update Cases.leaving_classes e 200 1)
                 (Cases.single 13 20)).
    exists w1, (Scene.node_at w1 200).
    repeat match goal with |- _ /\ _ => split end; vm_compute; reflexivity.
Qed.

(** C6 (amended).  A successful [ngli_node_update(node, t)] returns 0 and
    has ensured that the node is initialized.  When the class has an update
    callback and the node (once initialized) is not stamped with [t], it has
    then ensured that the node is READY, invoked the class callback, which
    succeeded, and stamped [last_update_time] with [t] last.  When the class
    has no update callback nothing else happens: the world is the one
    [ngli_node_init] left, the node is neither prefetched nor stamped. *)
Theorem update_fresh_timestamp (classes : Z -> node_class) (e : engine)
    (node : Z) (t : float) (r : Z) (w w' : world) :
  ngli_node_update classes e node t w = Done r w' ->
  0 <= r ->
  r = 0 /\ update_outcome classes e node t w w'.
Proof.
  intros H Hr.
  destruct (update_success_inv classes e _ _ _ _ _ H Hr)
    as (-> & w1 & nd1 & Hi & Hl1 & Hs1 & Hc).
  split; [reflexivity|]. exists w1, nd1.
  repeat (split; [assumption|]).
  destruct (update (classes (class nd1))) as [cb|]; [|assumption].
  intros Hne. now rewrite Hne in Hc.
Qed.

(** C6, counterexample: a node of a class without update callback, not
    stamped with [t = 0]: the update succeeds, yet the node is left
    INITIALIZED (not READY) and is still not stamped with [t]. *)
Lemma update_without_callback_counterexample :
  exists nd w' nd',
    nodes Scene.plain_scene !! 200 = Some nd
    /\ double_ne (last_update_time nd) 0 = true
    /\ update (Scene.classes (class nd)) = None
    /\ ngli_node_update Scene.classes (engine_of Scene.classes 2) 200 0
         Scene.plain_scene = Done 0 w'
    /\ nodes w' !! 200 = Some nd'
    /\ state nd' = STATE_INITIALIZED
    /\ double_ne (last_update_time nd') 0 = true.
Proof.
  eexists _, _, _. repeat split; vm_compute; reflexivity.
Qed.

(** ** Pipeline-state scoping *)

(** C1 (evaluation at the failing inputs).  A drawable node carries one
    blend override and its draw callback changes no driver state.  When the
    override disables blending while blending is enabled, the draw leaves
    blending enabled but its functions and equations are the never-saved
    snapshot (zero), not the values present before the draw.  When the
    override enables additive blending while blending is disabled, the draw
    leaves blending disabled but the destination function is the one of the
    override.  The generic capability path restores the driver state
    exactly on the same input. *)
Theorem draw_does_not_restore_blend_state :
  (exists d,
      Scene.gl_after_draw
        (Scene.override_scene 6 Scene.blend_off Scene.blending_gl) = Some d
      /\ gl_caps d = gl_caps Scene.blending_gl
      /\ gl_blend_src_rgb Scene.blending_gl = 0x0302
      /\ gl_blend_src_rgb d = 0
      /\ gl_blend_dst_rgb Scene.blending_gl = 0x0303
      /\ gl_blend_dst_rgb d = 0
      /\ gl_blend_equation_rgb Scene.blending_gl = 0x8006
      /\ gl_blend_equation_rgb d = 0)
  /\ (exists d,
        Scene.gl_after_draw
          (Scene.override_scene 6 Scene.blend_additive Scene.default_gl) = Some d
        /\ gl_caps d = gl_caps Scene.default_gl
        /\ gl_blend_dst_rgb Scene.default_gl = 0
        /\ gl_blend_dst_rgb d = 1)
  /\ Scene.gl_after_draw
       (Scene.override_scene 7 (Scene.capability_off GL_BLEND) Scene.blending_gl)
     = Some Scene.blending_gl.
Proof.
  split; [|split].
  - eexists. split; [vm_compute; reflexivity|].
    repeat split; vm_compute; reflexivity.
  - eexists. split; [vm_compute; reflexivity|].
    repeat split; vm_compute; reflexivity.
  - vm_compute. reflexivity.
Qed.

(** ** Instances *)

(** The properties above, applied to the scenes. *)


Lemma update_memoized_per_timestamp_witness :
  let e := engine_of Scene.classes 4 in
  let w1 := world_after (ngli_node_update Scene.classes e 103 1) Scene.diamond in
  (exists nd1,
      nodes w1 !! 103 = Some nd1
      /\ ngli_node_update Scene.classes e 103 1 w1
         = Done 0 (match update (Scene.classes (class nd1)) with
                   | Some _ => add_log (LOG_ALREADY_UPDATED 103 1) w1
                   | None => w1
                   end))
  /\ ngli_node_update Scene.classes e 103 1 w1
     = Done 0 (add_log (LOG_ALREADY_UPDATED 103 1) w1).
Proof.
  intros e w1. split.
  - apply (proj1 update_memoized_per_timestamp Scene.classes e 103 1%float 0
             Scene.diamond w1).
    + vm_compute; reflexivity.
    + vm_compute; reflexivity.
    + lia.
    + assert (E : nodes w1 !! 103 = Some (Scene.node_at w1 103))
        by (vm_compute; reflexivity).
      intros nd1 H. rewrite E in H. injection H as <-.
      vm_compute. discriminate.
  - apply (proj1 (proj2 update_memoized_per_timestamp) Scene.classes e 103
             1%float (Scene.node_at w1 103) w1
             (fun _ node _ => Scene.bump node 16;; ret 0)).
    + vm_compute; reflexivity.
    + vm_compute; reflexivity.
    + vm_compute. discriminate.
    + replace (class (Scene.node_at w1 103)) with 2
        by (vm_compute; reflexivity).
      reflexivity.
    + vm_compute; reflexivity.
Defined.

Lemma visit_last_writer_wins_witness :
  let e := engine_of Scene.classes 4 in
  let w1 := world_after (ngli_node_init Scene.classes e 103) Scene.diamond in
  ngli_node_visit Scene.classes e 103 101 1 Scene.diamond
  = for_each_child (fun child => call_visit e child 103 1) (BASE_PRIV 103)
      (schema (params (Scene.classes (class (Scene.node_at w1 103)))))
      (set_nodes (<[103 := mark_visited 0 1 (Scene.node_at w1 103)]> (nodes w1))
         w1)
  /\ (let* _ := ngli_node_visit Scene.classes e 103 101 1 in
      ngli_node_visit Scene.classes e 103 100 1) Scene.visited_diamond
     = Done 0
         (set_nodes
            (<[103 := mark_visited 1 1 (Scene.node_at Scene.visited_diamond 103)]>
               (nodes Scene.visited_diamond)) Scene.visited_diamond).
Proof.
  intros e w1. split.
  - apply (proj1 visit_last_writer_wins Scene.classes e 103 101 1%float
             Scene.diamond w1 0 0 (Scene.node_at w1 103)).
    + vm_compute; reflexivity.
    + lia.
    + vm_compute; reflexivity.
    + replace (class (Scene.node_at w1 103)) with 2
        by (vm_compute; reflexivity).
      reflexivity.
    + vm_compute; reflexivity.
  - apply (proj1 (proj2 visit_last_writer_wins) Scene.classes e 103 101 100
             1%float Scene.visited_diamond
             (Scene.node_at Scene.visited_diamond 103) 1 1).
    + vm_compute; reflexivity.
    + vm_compute. discriminate.
    + replace (class (Scene.node_at Scene.visited_diamond 103)) with 2
        by (vm_compute; reflexivity).
      reflexivity.
    + replace (class (Scene.node_at Scene.visited_diamond 103)) with 2
        by (vm_compute; reflexivity).
      repeat constructor.
    + lia.
    + vm_compute; reflexivity.
    + vm_compute; reflexivity.
Defined.

Lemma prefetch_at_most_once_witness :
  node_prefetch Scene.classes (engine_of Scene.classes 4) 103
    Scene.reconciled_diamond
  = Done 0 Scene.reconciled_diamond.
Proof.
  apply (proj1 prefetch_at_most_once Scene.classes (engine_of Scene.classes 4)
           103 (Scene.node_at Scene.reconciled_diamond 103)
           Scene.reconciled_diamond).
  - vm_compute; reflexivity.
  - vm_compute; reflexivity.
Defined.

Lemma update_fresh_timestamp_witness :
  let e := engine_of Scene.classes 4 in
  0 = 0
  /\ update_outcome Scene.classes e 103 1 Scene.diamond
       (world_after (ngli_node_update Scene.classes e 103 1) Scene.diamond).
Proof.
  intros e.
  apply (update_fresh_timestamp Scene.classes e 103 1%float 0 Scene.diamond
           (world_after (ngli_node_update Scene.classes e 103 1) Scene.diamond)).
  - vm_compute; reflexivity.
  - lia.
Defined.




Lemma unrefp_frees_only_last_detached_reference_witness :
  ngl_node_unrefp Scene.classes Scene.params_free 200 (Scene.counted_scene 2)
  = Done 0
      (set_nodes
         (<[200 := set_refcount
                     (refcount (Scene.node_at (Scene.counted_scene 2) 200) - 1)
                     (Scene.node_at (Scene.counted_scene 2) 200)]>
            (nodes (Scene.counted_scene 2)))
         (Scene.counted_scene 2))
  /\ ngl_node_unrefp Scene.classes Scene.params_free 200 Scene.plain_scene
     = Fault AssertFailed.
Proof.
  split.
  - apply (proj1 (proj2 (unrefp_frees_only_last_detached_reference
                    Scene.classes Scene.params_free 200
                    (Scene.node_at (Scene.counted_scene 2) 200)
                    (Scene.counted_scene 2)
                    ltac:(lia) ltac:(vm_compute; reflexivity)
                    ltac:(vm_compute; split; reflexivity)))).
    vm_compute. discriminate.
  - apply (proj1 (proj2 (proj2 (unrefp_frees_only_last_detached_reference
                    Scene.classes Scene.params_free 200
                    (Scene.node_at Scene.plain_scene 200)
                    Scene.plain_scene
                    ltac:(lia) ltac:(vm_compute; reflexivity)
                    ltac:(vm_compute; split; reflexivity))))).
    + vm_compute; reflexivity.
    + vm_compute. discriminate.
Defined.

(** * Further properties of the engine *)

(** ** Teardown and setup are idempotent *)

Lemma release_Done_state (classes : Z -> node_class) (e : engine) (node : Z)
    (u : unit) (w w' : world) :
  node_release classes e node w = Done u w' ->
  exists nd', nodes w' !! node = Some nd' /\ state nd' <> STATE_READY.
Proof.
  intros H. unfold node_release in H. inv_get H as nd Hl.
  destruct (state nd) eqn:Es; cbn in H;
    try (apply ret_inv in H; destruct H as [_ ->]; exists nd;
         split; [assumption | rewrite Es; discriminate]).
  inv_bind H as u1 w1 H1. inv_bind H as u2 w2 H2.
  apply modify_node_inv in H. destruct H as (nd2 & Hl2 & ->).
  eexists. split; [cbn; apply lookup_insert_eq | discriminate].
Qed.

(** Releasing twice is releasing once: whatever the class callback does,
    the second [node_release] finds the node IDLE (or in the state that was
    not READY to begin with) and does nothing. *)
Theorem node_release_idempotent (classes : Z -> node_class) (e : engine)
    (node : Z) (w : world) :
  (node_release classes e node;; node_release classes e node) w
  = node_release classes e node w.
Proof.
  unfold bind at 1.
  destruct (node_release classes e node w) as [u w'|f] eqn:H; [|reflexivity].
  destruct (release_Done_state _ _ _ _ _ _ H) as (nd' & Hl' & Hs').
  rewrite (release_not_ready classes e _ _ _ Hl' Hs'). now destruct u.
Qed.

Lemma uninit_Done_state (classes : Z -> node_class) (e : engine) (node : Z)
    (u : unit) (w w' : world) :
  node_uninit classes e node w = Done u w' ->
  exists nd', nodes w' !! node = Some nd' /\ state nd' = STATE_UNINITIALIZED.
Proof.
  intros H. unfold node_uninit in H. inv_get H as nd Hl.
  destruct (state_eqb (state nd) STATE_UNINITIALIZED) eqn:Es.
  { apply ret_inv in H. destruct H as [_ ->]. exists nd.
    split; [assumption | now destruct (state nd)]. }
  inv_bind H as u1 w1 H1. inv_bind H as u2 w2 H2. inv_get H as nd2 Hl2.
  inv_bind H as u3 w3 H3. inv_bind H as u4 w4 H4.
  apply modify_node_inv in H. destruct H as (nd4 & Hl4 & ->).
  eexists. split; [cbn; apply lookup_insert_eq | reflexivity].
Qed.

(** Uninitializing twice is uninitializing once: after a [node_uninit] that
    returned, the node is UNINITIALIZED and a second [node_uninit] runs no
    callback and does not touch the private block. *)
Theorem node_uninit_idempotent (classes : Z -> node_class) (e : engine)
    (node : Z) (w : world) :
  (node_uninit classes e node;; node_uninit classes e node) w
  = node_uninit classes e node w.
Proof.
  unfold bind at 1.
  destruct (node_uninit classes e node w) as [u w'|f] eqn:H; [|reflexivity].
  destruct (uninit_Done_state _ _ _ _ _ _ H) as (nd' & Hl' & Hs').
  unfold node_uninit, bind. rewrite (get_node_Done _ _ _ Hl'), Hs'. cbn.
  now destruct u.
Qed.

(** After a successful [ngli_node_init] a second one returns 0 and changes
    nothing, and likewise for [node_prefetch]: the class [init] and
    [prefetch] callbacks are not run again. *)
Theorem setup_idempotent_after_success (classes : Z -> node_class)
    (e : engine) (node r : Z) (w w1 : world) :
  0 <= r ->
  (ngli_node_init classes e node w = Done r w1 ->
   ngli_node_init classes e node w1 = Done 0 w1)
  /\ (node_prefetch classes e node w = Done r w1 ->
      node_prefetch classes e node w1 = Done 0 w1
      /\ ngli_node_init classes e node w1 = Done 0 w1).
Proof.
  intros Hr. split.
  - intros H.
    destruct (init_success classes e _ _ _ _ H Hr) as (_ & nd1 & Hl1 & Hs1).
    now apply init_noop with nd1.
  - intros H.
    destruct (prefetch_success classes e _ _ _ _ H Hr) as (_ & nd1 & Hl1 & Hs1).
    split; [now apply prefetch_ready with nd1|].
    apply init_noop with nd1; [assumption|]. rewrite Hs1. discriminate.
Qed.

(** ** No lifecycle callback runs on a detached node *)

(** On a node that is not attached to a context, every operation that would
    run a class callback stops at the assertion on [node->ctx] first:
    [ngli_node_init] (and so visit, prefetch and update) of an UNINITIALIZED
    node, the release of a READY node, and the uninit (and so the detach) of
    a node that is not UNINITIALIZED. *)
Theorem lifecycle_requires_ctx (classes : Z -> node_class) (e : engine)
    (node from : Z) (t : float) (nd : ngl_node) (w : world) :
  nodes w !! node = Some nd ->
  ctx nd = 0 ->
  (state nd = STATE_UNINITIALIZED ->
   ngli_node_init classes e node w = Fault AssertFailed
   /\ ngli_node_visit classes e node from t w = Fault AssertFailed
   /\ node_prefetch classes e node w = Fault AssertFailed
   /\ ngli_node_update classes e node t w = Fault AssertFailed)
  /\ (state nd = STATE_READY ->
      node_release classes e node w = Fault AssertFailed)
  /\ (state nd <> STATE_UNINITIALIZED ->
      node_uninit classes e node w = Fault AssertFailed
      /\ ngli_node_detach_ctx classes e node w = Fault AssertFailed).
Proof.
  intros Hl Hc.
  assert (Hi : state nd = STATE_UNINITIALIZED ->
               ngli_node_init classes e node w = Fault AssertFailed).
  { intros Hs. unfold ngli_node_init, bind.
    now rewrite (get_node_Done _ _ _ Hl), Hs, Hc. }
  assert (Hu : state nd <> STATE_UNINITIALIZED ->
               node_uninit classes e node w = Fault AssertFailed).
  { intros Hs. unfold node_uninit, bind.
    rewrite (get_node_Done _ _ _ Hl), Hc.
    destruct (state nd); try reflexivity. now destruct Hs. }
  split; [|split].
  - intros Hs. specialize (Hi Hs). split; [exact Hi|]. split; [|split].
    + unfold ngli_node_visit, bind. now rewrite Hi.
    + unfold node_prefetch, bind.
      rewrite (get_node_Done _ _ _ Hl), Hs. cbn. now rewrite Hi.
    + unfold ngli_node_update, bind. now rewrite Hi.
  - intros Hs. unfold node_release, bind.
    now rewrite (get_node_Done _ _ _ Hl), Hs, Hc.
  - intros Hs. split; [now apply Hu|].
    unfold ngli_node_detach_ctx, node_set_ctx, bind.
    rewrite (get_node_Done _ _ _ Hl). cbn. now rewrite (Hu Hs).
Qed.

(** ** Reference counting round trip *)

Lemma set_refcount_set_refcount (a b : Z) (nd : ngl_node) :
  set_refcount a (set_refcount b nd) = set_refcount a nd.
Proof. reflexivity. Qed.

Lemma set_refcount_id (nd : ngl_node) : set_refcount (refcount nd) nd = nd.
Proof. now destruct nd. Qed.

(** Taking a reference and dropping it again leaves the whole program state
    as it was: for a live node (a count of at least 1, below [INT_MAX])
    [ngl_node_ref] followed by [ngl_node_unrefp] on the returned pointer
    returns with the same heap and log; nothing is freed and no parameter is
    released. *)
Theorem ref_then_unref (classes : Z -> node_class)
    (params_free : base_ptr -> option (list node_param) -> M unit)
    (node : Z) (nd : ngl_node) (w : world) :
  node <> 0 ->
  nodes w !! node = Some nd ->
  1 <= refcount nd < INT_MAX ->
  (let* p := ngl_node_ref node in ngl_node_unrefp classes params_free p) w
  = Done 0 w.
Proof.
  intros Hn Hl [Hlo Hhi].
  unfold ngl_node_ref, bind at 1. unfold bind at 1.
  rewrite (get_node_Done _ _ _ Hl).
  replace (refcount nd <? INT_MAX) with true by (symmetry; now apply Z.ltb_lt).
  unfold bind at 1. rewrite (put_node_Done _ _ _ _ Hl). cbn [ret].
  set (w1 := set_nodes _ w).
  assert (Hl1 : nodes w1 !! node = Some (set_refcount (refcount nd + 1) nd))
    by (unfold w1; cbn; apply lookup_insert_eq).
  unfold ngl_node_unrefp.
  replace (node =? 0) with false by (symmetry; now apply Z.eqb_neq).
  unfold bind. rewrite (get_node_Done _ _ _ Hl1). cbn [refcount set_refcount].
  replace (INT_MIN <? refcount nd + 1) with true
    by (symmetry; apply Z.ltb_lt; unfold INT_MIN; lia).
  rewrite (put_node_Done _ _ _ _ Hl1).
  replace (refcount nd + 1 =? 1) with false by (symmetry; apply Z.eqb_neq; lia).
  cbn [ret]. f_equal. unfold w1. cbn.
  rewrite insert_insert_eq.
  replace (refcount nd + 1 - 1) with (refcount nd) by lia.
  rewrite set_refcount_set_refcount, set_refcount_id, (insert_id _ _ _ Hl).
  now destruct w.
Qed.

(** ** Parameter mutation with an unknown key *)

(** When the key names neither a header parameter nor a parameter of the
    class, [ngl_node_param_set] and [ngl_node_param_add] return -1 after
    logging that the parameter was not found, and do nothing else: the
    parameter system is not called and the node is not uninitialized (a READY
    node stays READY). *)
Theorem param_mutation_unknown_key (classes : Z -> node_class)
    (params_set : base_ptr -> node_param -> list Z -> M Z)
    (params_add : base_ptr -> node_param -> Z -> Z -> M Z)
    (e : engine) (node : Z) (k : string) (ap : list Z) (nb_elems elems : Z)
    (nd : ngl_node) (w : world) :
  nodes w !! node = Some nd ->
  ngli_params_find (Some ngli_base_node_params) k = None ->
  ngli_params_find (params (classes (class nd))) k = None ->
  ngl_node_param_set classes params_set e node k ap w
  = Done (-1) (add_log (LOG_PARAM_NOT_FOUND node k) w)
  /\ ngl_node_param_add classes params_add e node k nb_elems elems w
     = Done (-1) (add_log (LOG_PARAM_NOT_FOUND node k) w)
  /\ nodes (add_log (LOG_PARAM_NOT_FOUND node k) w) !! node = Some nd.
Proof.
  intros Hl Hb Hc.
  assert (Hf : ngli_node_param_find classes node k w
               = Done None (add_log (LOG_PARAM_NOT_FOUND node k) w)).
  { unfold ngli_node_param_find. rewrite Hb. unfold bind.
    rewrite (get_node_Done _ _ _ Hl). unfold class_of. now rewrite Hc. }
  split; [|split].
  - unfold ngl_node_param_set, bind. now rewrite Hf.
  - unfold ngl_node_param_add, bind. now rewrite Hf.
  - exact Hl.
Qed.

(** ** Return codes *)

Lemma init_glstates_nonpos (e : engine) (node : Z) (n : nat) :
  forall i w r w', init_glstates e node i n w = Done r w' -> r <= 0.
Proof.
  induction n as [|n IH]; intros i w r w' H; cbn in H.
  - apply ret_inv in H. lia.
  - inv_get H as nd Hl. destruct (i <? nb_glstates nd).
    + inv_bind H as st w1 H1. inv_bind H as rc w2 H2.
      destruct (rc <? 0) eqn:E.
      * apply ret_inv in H. apply Z.ltb_lt in E. lia.
      * eauto.
    + apply ret_inv in H. lia.
Qed.

Lemma init_nonpos (classes : Z -> node_class) (e : engine) (node r : Z)
    (w w' : world) :
  ngli_node_init classes e node w = Done r w' -> r <= 0.
Proof.
  intros H. unfold ngli_node_init in H. inv_get H as nd Hl.
  destruct (state nd); cbn in H; try (apply ret_inv in H; lia).
  inv_bind H as u wa Ha. inv_bind H as rc wc Hc.
  destruct (rc <? 0) eqn:Ec; [apply ret_inv in H; apply Z.ltb_lt in Ec; lia|].
  inv_get H as ndc Hlc. inv_bind H as rg wg Hg.
  destruct (rg <? 0) eqn:Eg; [apply ret_inv in H; apply Z.ltb_lt in Eg; lia|].
  inv_bind H as u' wm Hmod. apply ret_inv in H. lia.
Qed.

Lemma prefetch_nonpos (classes : Z -> node_class) (e : engine) (node r : Z)
    (w w' : world) :
  node_prefetch classes e node w = Done r w' -> r <= 0.
Proof.
  intros H. unfold node_prefetch in H. inv_get H as nd Hl.
  destruct (state_eqb (state nd) STATE_READY); [apply ret_inv in H; lia|].
  inv_bind H as ri wi Hi.
  destruct (ri <? 0) eqn:Ei; [apply ret_inv in H; apply Z.ltb_lt in Ei; lia|].
  inv_get H as ndi Hli. inv_bind H as rc wc Hc.
  destruct (rc <? 0) eqn:Ec; [apply ret_inv in H; apply Z.ltb_lt in Ec; lia|].
  inv_bind H as u wm Hmod. apply ret_inv in H. lia.
Qed.

(** The entry points normalise what they return: whatever the class
    callbacks and the nested calls return (a positive value included),
    [ngli_node_init], [node_prefetch], [ngli_node_honor_release_prefetch],
    [ngli_node_update] and [ngli_node_attach_ctx] return either a negative
    error or 0, so testing [ret < 0] and testing [ret != 0] are the same. *)
Theorem return_codes_nonpositive (classes : Z -> node_class) (e : engine)
    (node c : Z) (t : float) (w : world) (r : Z) (w' : world) :
  (ngli_node_init classes e node w = Done r w' -> r <= 0)
  /\ (node_prefetch classes e node w = Done r w' -> r <= 0)
  /\ (ngli_node_honor_release_prefetch classes e node t w = Done r w' -> r <= 0)
  /\ (ngli_node_update classes e node t w = Done r w' -> r <= 0)
  /\ (ngli_node_attach_ctx classes e node c w = Done r w' -> r <= 0).
Proof.
  split; [apply init_nonpos|]. split; [apply prefetch_nonpos|].
  split; [|split].
  - intros H. unfold ngli_node_honor_release_prefetch in H.
    inv_get H as nd Hl.
    destruct (double_ne (visit_time nd) t); [apply ret_inv in H; lia|].
    inv_bind H as rc w1 H1.
    destruct (rc <? 0) eqn:E; [apply ret_inv in H; apply Z.ltb_lt in E; lia|].
    inv_get H as nd1 Hl1. destruct (negb (is_active nd1 =? 0)).
    + now apply prefetch_nonpos in H.
    + inv_bind H as u w2 H2. apply ret_inv in H. lia.
  - intros H. unfold ngli_node_update in H. inv_bind H as ri w1 Hi.
    destruct (ri <? 0) eqn:Ei; [apply ret_inv in H; apply Z.ltb_lt in Ei; lia|].
    inv_get H as nd Hl. destruct (update (class_of classes nd)).
    + inv_bind H as rb wb Hb.
      destruct (rb <? 0) eqn:Eb;
        [apply ret_inv in H; apply Z.ltb_lt in Eb; lia|].
      inv_bind H as u wm Hmod. apply ret_inv in H. lia.
    + apply ret_inv in H. lia.
  - intros H. unfold ngli_node_attach_ctx, node_set_ctx in H.
    inv_get H as nd Hl. inv_bind H as conflict w1 H1.
    destruct conflict; [apply ret_inv in H; lia|].
    inv_get H as nd1 Hl1. inv_bind H as r1 w2 H2.
    destruct (r1 <? 0) eqn:E1;
      [apply ret_inv in H; apply Z.ltb_lt in E1; lia|].
    inv_bind H as r2 w3 H3.
    destruct (r2 <? 0) eqn:E2; apply ret_inv in H;
      [apply Z.ltb_lt in E2|]; lia.
Qed.

(** ** A failed update is not memoized *)

(** When [ngli_node_update] returns a negative value, that value and the
    program state are exactly those of the step that failed (the init, the
    late prefetch, or the class callback): nothing is written afterwards, in
    particular [last_update_time] is not stamped, so an update at the same
    timestamp will run the callback again. *)
Theorem update_failure_not_stamped (classes : Z -> node_class) (e : engine)
    (node : Z) (t : float) (r : Z) (w w' : world) :
  ngli_node_update classes e node t w = Done r w' ->
  r < 0 ->
  ngli_node_init classes e node w = Done r w'
  \/ exists w1 nd1 cb,
       ngli_node_init classes e node w = Done 0 w1
       /\ nodes w1 !! node = Some nd1
       /\ update (classes (class nd1)) = Some cb
       /\ double_ne (last_update_time nd1) t = true
       /\ (node_prefetch classes e node w1 = Done r w'
           \/ exists w2,
               node_prefetch classes e node w1 = Done 0 w2
               /\ cb e node t (add_log (LOG_UPDATE node t) w2) = Done r w').
Proof.
  intros H Hr. unfold ngli_node_update in H. inv_bind H as ri w1 Hi.
  destruct (ri <? 0) eqn:Ei.
  { apply ret_inv in H. destruct H as [-> ->]. now left. }
  right. apply Z.ltb_ge in Ei.
  destruct (init_success classes e _ _ _ _ Hi Ei) as (-> & _).
  inv_get H as nd1 Hl1. unfold class_of in H.
  destruct (update (classes (class nd1))) as [cb|] eqn:Eu.
  2:{ apply ret_inv in H. lia. }
  inv_bind H as rb wb Hb.
  destruct (rb <? 0) eqn:Eb.
  2:{ inv_bind H as u wm Hmod. apply ret_inv in H. lia. }
  apply ret_inv in H. destruct H as [-> ->].
  exists w1, nd1, cb. repeat (split; [assumption|]).
  destruct (double_ne (last_update_time nd1) t) eqn:En.
  2:{ inv_bind Hb as u wl Hlog. apply ret_inv in Hb. apply Z.ltb_lt in Eb. lia. }
  split; [reflexivity|].
  inv_bind Hb as rp w2 Hp. destruct (rp <? 0) eqn:Ep.
  - apply ret_inv in Hb. destruct Hb as [-> ->]. now left.
  - right. apply Z.ltb_ge in Ep.
    destruct (prefetch_success classes e _ _ _ _ Hp Ep) as (-> & _).
    inv_bind Hb as u wl Hlog. apply LOG_inv in Hlog. subst wl.
    exists w2. now split.
Qed.

(** ** Detaching *)

Section Detach.

Variable classes : Z -> node_class.

(** A relation kept by the calls on the children is kept by the attachment
    of the children, which returns 0 when the calls return no error. *)
Lemma attach_children_rel (R : world -> world -> Prop) (e : engine) (c : Z) :
  (forall w, R w w) ->
  (forall a b d, R a b -> R b d -> R a d) ->
  (forall child w r w',
      call_attach_ctx e child c w = Done r w' -> R w w') ->
  forall node w r w',
    attach_children classes e node c w = Done r w' ->
    R w w'
    /\ ((forall child w r w',
            call_attach_ctx e child c w = Done r w' -> 0 <= r) -> r = 0).
Proof.
  intros Hrefl Htrans He node w r w' H. unfold attach_children in H.
  inv_get H as nd Hl. inv_bind H as r1 w1 H1.
  assert (Hinv : forall (ok : Prop) base ps wa ra wb,
             for_each_child (fun child => call_attach_ctx e child c) base ps wa
             = Done ra wb ->
             R wa wb
             /\ ((forall child w r w',
                     call_attach_ctx e child c w = Done r w' -> 0 <= r) ->
                 0 <= ra)).
  { intros _ base ps wa ra wb Hf. split.
    - refine (proj1 (for_each_child_inv R (fun _ => False) Hrefl Htrans
                       (fun _ _ _ F => F) _ _ base ps wa ra wb Hf)).
      intros child w0 r0 w0' Hc. split; [eauto | contradiction].
    - intros Hok.
      refine (proj2 (for_each_child_inv (fun _ _ => True) (fun _ => True)
                       (fun _ => I) (fun _ _ _ _ _ => I) (fun _ _ _ _ => I)
                       _ _ base ps wa ra wb Hf) I).
      intros child w0 r0 w0' Hc. split; [exact I | eauto]. }
  destruct (Hinv True _ _ _ _ _ H1) as [HR1 HQ1].
  destruct (r1 <? 0) eqn:E1.
  { apply ret_inv in H. destruct H as [-> ->]. split; [assumption|].
    intros Hok. apply HQ1 in Hok. apply Z.ltb_lt in E1. lia. }
  inv_bind H as r2 w2 H2.
  destruct (Hinv True _ _ _ _ _ H2) as [HR2 HQ2].
  destruct (r2 <? 0) eqn:E2; apply ret_inv in H; destruct H as [-> ->];
    (split; [eauto|]); intros Hok; [|reflexivity].
  apply HQ2 in Hok. apply Z.ltb_lt in E2. lia.
Qed.

(** [node_set_ctx] with a null context: the node is uninitialized and
    detached, then the children follow. *)
Lemma node_set_ctx_null (e : engine) (node : Z) (w : world) (r : Z)
    (w' : world) :
  node_set_ctx classes e node 0 w = Done r w' ->
  exists w0 nd0,
    node_uninit classes e node w = Done tt w0
    /\ nodes w0 !! node = Some nd0
    /\ state nd0 = STATE_UNINITIALIZED
    /\ attach_children classes e node 0
         (set_nodes (<[node := set_ctx 0 nd0]> (nodes w0)) w0) = Done r w'.
Proof.
  intros H. unfold node_set_ctx in H. inv_get H as nd Hl. cbn in H.
  inv_bind H as conflict w1 H1.
  inv_bind H1 as u w0 Hu. destruct u.
  inv_bind H1 as u wm Hm. apply ret_inv in H1. destruct H1 as [-> ->].
  apply modify_node_inv in Hm. destruct Hm as (nd0 & Hl0 & ->).
  destruct (uninit_Done_state _ _ _ _ _ _ Hu) as (nd0' & Hl0' & Hs0).
  rewrite Hl0 in Hl0'. inversion Hl0'; subst nd0'.
  exists w0, nd0. repeat (split; [assumption|]).
  rewrite <- node_set_ctx_children. exact H.
Qed.

Lemma detach_call_zero (fuel : nat) :
  forall child w r w',
    call_attach_ctx (engine_of classes fuel) child 0 w = Done r w' -> 0 <= r.
Proof.
  induction fuel as [|fuel IH]; intros child w r w' H; [discriminate|].
  cbn in H. unfold ngli_node_attach_ctx in H.
  destruct (node_set_ctx_null _ _ _ _ _ H) as (w0 & nd0 & _ & _ & _ & Hc).
  destruct (attach_children_rel (fun _ _ => True) _ 0 (fun _ => I)
              (fun _ _ _ _ _ => I) (fun _ _ _ _ _ => I) _ _ _ _ Hc) as [_ Hz].
  rewrite (Hz IH). lia.
Qed.

End Detach.

(** Detaching never reports an error.  [node_set_ctx] with a null context
    returns 0 whenever it returns, at any nesting depth and whatever the
    class callbacks do, so the assertion [ret == 0] of
    [ngli_node_detach_ctx] cannot fail.  What it has done is: uninitialize
    the node (release, class uninit, reset of the private block), clear its
    context, then detach the children named by the fields of the private
    block and by the state-override list. *)
Theorem detach_never_reports (classes : Z -> node_class) (fuel : nat)
    (node : Z) (w : world) (r : Z) (w' : world) :
  let e := engine_of classes fuel in
  node_set_ctx classes e node 0 w = Done r w' ->
  r = 0
  /\ ngli_node_detach_ctx classes e node w = Done tt w'
  /\ exists w0 nd0,
       node_uninit classes e node w = Done tt w0
       /\ nodes w0 !! node = Some nd0
       /\ state nd0 = STATE_UNINITIALIZED
       /\ attach_children classes e node 0
            (set_nodes (<[node := set_ctx 0 nd0]> (nodes w0)) w0) = Done 0 w'.
Proof.
  intros e H.
  destruct (node_set_ctx_null _ _ _ _ _ _ H) as (w0 & nd0 & Hu & Hl0 & Hs0 & Hc).
  destruct (attach_children_rel classes (fun _ _ => True) _ 0 (fun _ => I)
              (fun _ _ _ _ _ => I) (fun _ _ _ _ _ => I) _ _ _ _ Hc) as [_ Hz].
  assert (r = 0) as -> by (apply Hz; apply detach_call_zero).
  split; [reflexivity|]. split.
  - unfold ngli_node_detach_ctx, bind. fold e. now rewrite H.
  - exists w0, nd0. auto.
Qed.

(** ** Attaching changes contexts only *)

Lemma only_ctx_changed_refl (w : world) : only_ctx_changed w w.
Proof.
  repeat (split; [reflexivity|]). intros n.
  destruct (nodes w !! n) as [nd|]; [now destruct nd | exact I].
Qed.

Lemma only_ctx_changed_trans (a b d : world) :
  only_ctx_changed a b -> only_ctx_changed b d -> only_ctx_changed a d.
Proof.
  intros (A1 & A2 & A3 & A4) (B1 & B2 & B3 & B4).
  split; [congruence|]. split; [congruence|]. split; [congruence|].
  intros n. specialize (A4 n). specialize (B4 n).
  destruct (nodes a !! n) as [x|], (nodes b !! n) as [y|],
    (nodes d !! n) as [z|]; try tauto.
  rewrite B4, A4. reflexivity.
Qed.

Lemma only_ctx_changed_log (m : log_msg) (w : world) :
  only_ctx_changed w (add_log m w).
Proof.
  repeat (split; [reflexivity|]). intros n. cbn.
  destruct (nodes w !! n) as [nd|]; [now destruct nd | exact I].
Qed.

Lemma attach_call_only_ctx (classes : Z -> node_class) (c : Z) (fuel : nat) :
  c <> 0 ->
  forall node w r w',
    call_attach_ctx (engine_of classes fuel) node c w = Done r w' ->
    only_ctx_changed w w'.
Proof.
  intros Hc. induction fuel as [|fuel IH]; intros node w r w' H;
    [discriminate|].
  cbn in H. unfold ngli_node_attach_ctx in H.
  destruct (nodes w !! node) as [nd|] eqn:Hl.
  2:{ unfold node_set_ctx, bind, get_node in H. now rewrite Hl in H. }
  rewrite (node_set_ctx_cases _ _ _ _ _ _ Hc Hl) in H.
  pose proof (fun node w r w' Ha =>
                proj1 (attach_children_rel classes only_ctx_changed _ c
                         only_ctx_changed_refl only_ctx_changed_trans IH
                         node w r w' Ha)) as Hch.
  destruct (ctx nd =? 0).
  - apply Hch in H. eapply only_ctx_changed_trans; [|exact H].
    repeat (split; [reflexivity|]). intros n. cbn.
    destruct (Z.eq_dec n node) as [->|Hne].
    + rewrite Hl, lookup_insert_eq. reflexivity.
    + rewrite lookup_insert_ne by congruence.
      destruct (nodes w !! n) as [x|]; [now destruct x | exact I].
  - destruct (ctx nd =? c).
    + now apply Hch in H.
    + inversion H; subst. apply only_ctx_changed_log.
Qed.

(** Attaching a graph to a context writes contexts and nothing else: after
    [ngli_node_attach_ctx] with a non-null context, at any nesting depth and
    whether it succeeded or reported a conflict, the arrays, hash maps and
    driver state are unchanged, no node was created or freed, and every node
    is the one it was except possibly for its context, which may only have
    gone from null to the given context.  In particular no node is
    initialized and no class callback has run; a conflict found half way
    leaves the nodes attached so far attached. *)
Theorem attach_changes_contexts_only (classes : Z -> node_class)
    (fuel : nat) (node c : Z) (w : world) (r : Z) (w' : world) :
  c <> 0 ->
  ngli_node_attach_ctx classes (engine_of classes fuel) node c w = Done r w' ->
  only_ctx_changed w w' /\ ctx_grows c w w'.
Proof.
  intros Hc H. split.
  - apply (attach_call_only_ctx classes c (S fuel) Hc node w r w'). exact H.
  - apply (attach_ctx_inv classes c (S fuel) Hc node w r w'). exact H.
Qed.

(** ** Default names *)

Lemma int_to_char_to_int (c : ascii) : int_to_char (char_to_int c) = c.
Proof. destruct c as [[] [] [] [] [] [] [] []]; reflexivity. Qed.

(** The lower-cased character is a character, is not NUL unless the
    character is, and lower-casing it again changes nothing. *)
Lemma DEF_NAME_CHR_char (c : ascii) :
  char_to_int (int_to_char (DEF_NAME_CHR (char_to_int c)))
  = DEF_NAME_CHR (char_to_int c)
  /\ ((DEF_NAME_CHR (char_to_int c) =? 0) = (char_to_int c =? 0))
  /\ DEF_NAME_CHR (DEF_NAME_CHR (char_to_int c)) = DEF_NAME_CHR (char_to_int c).
Proof. destruct c as [[] [] [] [] [] [] [] []]; repeat split; reflexivity. Qed.

Lemma c_str_cons (c : ascii) (s : string) :
  (char_to_int c =? 0) = false -> c_str (String c s) = String c (c_str s).
Proof. intros H. cbn [c_str]. now rewrite H. Qed.

Lemma c_str_nul (c : ascii) (s : string) :
  (char_to_int c =? 0) = true -> c_str (String c s) = EmptyString.
Proof. intros H. cbn [c_str]. now rewrite H. Qed.

Lemma c_str_idem (s : string) : c_str (c_str s) = c_str s.
Proof.
  induction s as [|c s IH]; [reflexivity|].
  destruct (char_to_int c =? 0) eqn:E.
  - now rewrite (c_str_nul _ _ E).
  - rewrite (c_str_cons _ _ E), (c_str_cons _ _ E). now rewrite IH.
Qed.

(** The shape of a buffer whose C string has as many characters as a
    non-empty one. *)
Lemma strlen_succ (str : string) (n : nat) :
  String.length (c_str str) = S n ->
  exists d str', str = String d str' /\ (char_to_int d =? 0) = false
                 /\ String.length (c_str str') = n.
Proof.
  destruct str as [|d str']; [discriminate|].
  destruct (char_to_int d =? 0) eqn:E.
  - rewrite (c_str_nul _ _ E). discriminate.
  - rewrite (c_str_cons _ _ E). cbn. intros H. exists d, str'. auto.
Qed.

Lemma strlen_zero (str : string) :
  String.length (c_str str) = O -> c_str str = EmptyString.
Proof. now destruct (c_str str). Qed.

Lemma fmap_String_eq (a b : ascii) (o : option string) (s : string) :
  String a <$> o = Some (String b s) <-> a = b /\ o = Some s.
Proof.
  destruct o as [x|]; cbn; split.
  - intros H. inversion H. auto.
  - intros [-> H]. inversion H. reflexivity.
  - discriminate.
  - intros [_ H]. discriminate.
Qed.

(** The comparison loop accepts exactly the string the renaming loop
    produces, with the same index and so the same overflow. *)
Lemma is_default_name_loop_iff (class_name : string) :
  forall str i,
    String.length (c_str class_name) = String.length (c_str str) ->
    is_default_name_loop class_name str i (String.length (c_str class_name))
    = Some 1
    <-> default_name_loop (c_str class_name) i = Some (c_str str).
Proof.
  induction class_name as [|c cn IH]; intros str i Hlen.
  - cbn in *. symmetry in Hlen. rewrite (strlen_zero _ Hlen). tauto.
  - destruct (char_to_int c =? 0) eqn:E.
    + rewrite (c_str_nul _ _ E) in *. cbn in *. symmetry in Hlen.
      rewrite (strlen_zero _ Hlen). tauto.
    + rewrite (c_str_cons _ _ E) in *. cbn [String.length] in Hlen.
      symmetry in Hlen.
      destruct (strlen_succ _ _ Hlen) as (d & str' & -> & Ed & Hlen').
      rewrite (c_str_cons _ _ Ed).
      cbn [String.length is_default_name_loop default_name_loop]. rewrite E.
      destruct (DEF_NAME_CHR_char c) as (Hc & _ & _).
      destruct (DEF_NAME_CHR (char_to_int c) =? char_to_int d) eqn:Eq;
        cbn [negb].
      * apply Z.eqb_eq in Eq. destruct (i <? INT_MAX).
        -- rewrite IH by (symmetry; exact Hlen').
           rewrite fmap_String_eq, Eq, int_to_char_to_int. tauto.
        -- split; discriminate.
      * apply Z.eqb_neq in Eq. split; [discriminate|].
        destruct (i <? INT_MAX); [|discriminate].
        rewrite fmap_String_eq. intros [Hd _]. exfalso. apply Eq.
        rewrite <- Hc, Hd. reflexivity.
Qed.

Lemma default_name_loop_length (s : string) :
  forall i n,
    default_name_loop (c_str s) i = Some n ->
    String.length n = String.length (c_str s) /\ c_str n = n.
Proof.
  induction s as [|c s IH]; intros i n H.
  - cbn in H. inversion H. auto.
  - destruct (char_to_int c =? 0) eqn:E.
    + rewrite (c_str_nul _ _ E) in *. cbn in H. inversion H. auto.
    + rewrite (c_str_cons _ _ E) in *. cbn [default_name_loop] in H.
      rewrite E in H. destruct (i <? INT_MAX); [|discriminate].
      destruct (default_name_loop (c_str s) (i + 1)) as [m|] eqn:Em;
        [|discriminate].
      cbn in H. inversion H; subst n. destruct (IH _ _ Em) as [Hl Hc].
      destruct (DEF_NAME_CHR_char c) as (H1 & H2 & _).
      split; [cbn; now rewrite Hl|].
      rewrite c_str_cons; [now rewrite Hc|].
      rewrite H1, H2. exact E.
Qed.

Lemma default_name_loop_defined (s : string) :
  forall i,
    0 <= i ->
    i + Z.of_nat (String.length (c_str s)) <= INT_MAX ->
    exists n, default_name_loop (c_str s) i = Some n.
Proof.
  induction s as [|c s IH]; intros i Hi Hb.
  - cbn. eauto.
  - destruct (char_to_int c =? 0) eqn:E.
    + rewrite (c_str_nul _ _ E). cbn. eauto.
    + rewrite (c_str_cons _ _ E) in *. cbn [default_name_loop String.length] in *.
      rewrite E. replace (i <? INT_MAX) with true by (symmetry; apply Z.ltb_lt; lia).
      destruct (IH (i + 1)) as [n Hn]; [lia | lia |]. rewrite Hn. cbn. eauto.
Qed.

Lemma default_name_loop_idem (s : string) :
  forall i n,
    default_name_loop (c_str s) i = Some n ->
    default_name_loop n i = Some n.
Proof.
  induction s as [|c s IH]; intros i n H.
  - cbn in H. inversion H. reflexivity.
  - destruct (char_to_int c =? 0) eqn:E.
    + rewrite (c_str_nul _ _ E) in H. cbn in H. inversion H. reflexivity.
    + rewrite (c_str_cons _ _ E) in H. cbn [default_name_loop] in H.
      rewrite E in H. destruct (i <? INT_MAX) eqn:Ei; [|discriminate].
      destruct (default_name_loop (c_str s) (i + 1)) as [m|] eqn:Em;
        [|discriminate].
      cbn in H. inversion H; subst n. cbn [default_name_loop].
      destruct (DEF_NAME_CHR_char c) as (H1 & H2 & H3).
      rewrite H1, H2, E, Ei, H3, (IH _ _ Em). reflexivity.
Qed.

Lemma is_default_name_loop_defined (class_name : string) :
  forall str i,
    String.length (c_str class_name) = String.length (c_str str) ->
    i + Z.of_nat (String.length (c_str class_name)) <= INT_MAX ->
    is_default_name_loop class_name str i (String.length (c_str class_name))
    = Some 0
    \/ is_default_name_loop class_name str i
         (String.length (c_str class_name)) = Some 1.
Proof.
  induction class_name as [|c cn IH]; intros str i Hlen Hb.
  - cbn. now right.
  - destruct (char_to_int c =? 0) eqn:E.
    + rewrite (c_str_nul _ _ E). cbn. now right.
    + rewrite (c_str_cons _ _ E) in *. cbn [String.length] in *.
      symmetry in Hlen.
      destruct (strlen_succ _ _ Hlen) as (d & str' & -> & Ed & Hlen').
      cbn [is_default_name_loop].
      destruct (DEF_NAME_CHR (char_to_int c) =? char_to_int d); cbn [negb];
        [|now left].
      replace (i <? INT_MAX) with true by (symmetry; apply Z.ltb_lt; lia).
      apply IH; [now symmetry | lia].
Qed.

Lemma is_default_name_accepts (class_name str : string) :
  ngli_is_default_name class_name str = Some 1
  <-> ngli_node_default_name class_name = Some (c_str str).
Proof.
  unfold ngli_is_default_name, ngli_node_default_name, ngli_strdup, strlen.
  destruct (Z.of_nat (String.length (c_str class_name))
            =? Z.of_nat (String.length (c_str str))) eqn:E; cbn [negb].
  - apply Z.eqb_eq in E. apply Nat2Z.inj in E. rewrite Nat2Z.id.
    now apply is_default_name_loop_iff.
  - apply Z.eqb_neq in E. split; [discriminate|]. intros H.
    apply default_name_loop_length in H. destruct H as [H _].
    rewrite H in E. now destruct E.
Qed.

(** [ngli_is_default_name] recognizes exactly the default name:
    [ngli_is_default_name(class_name, str)] returns 1 if and only if the C
    string of [str] is the one [ngli_node_default_name(class_name)] builds,
    and for a class name of at most [INT_MAX] characters both functions
    return (the first one 0 or 1). *)
Theorem is_default_name_iff_default_name (class_name str : string) :
  (ngli_is_default_name class_name str = Some 1
   <-> ngli_node_default_name class_name = Some (c_str str))
  /\ (strlen class_name <= INT_MAX ->
      (ngli_is_default_name class_name str = Some 0
       \/ ngli_is_default_name class_name str = Some 1)
      /\ exists n, ngli_node_default_name class_name = Some n).
Proof.
  split; [apply is_default_name_accepts|].
  unfold ngli_is_default_name, ngli_node_default_name, ngli_strdup, strlen.
  intros Hb. split.
  - destruct (Z.of_nat (String.length (c_str class_name))
              =? Z.of_nat (String.length (c_str str))) eqn:E; cbn [negb];
      [|now left].
    apply Z.eqb_eq in E. apply Nat2Z.inj in E. rewrite Nat2Z.id.
    apply is_default_name_loop_defined; [exact E | lia].
  - apply default_name_loop_defined; lia.
Qed.

(** The default name is stable: when [ngli_node_default_name(s)] returns
    the name [n], [n] holds no NUL and has the length of the C string of
    [s], it is its own default name, and [ngli_is_default_name(s, n)]
    returns 1. *)
Theorem default_name_round_trip (s n : string) :
  ngli_node_default_name s = Some n ->
  c_str n = n
  /\ strlen n = strlen s
  /\ ngli_node_default_name n = Some n
  /\ ngli_is_default_name s n = Some 1.
Proof.
  intros H. pose proof H as H0.
  unfold ngli_node_default_name, ngli_strdup in H.
  destruct (default_name_loop_length _ _ _ H) as [Hl Hc].
  split; [exact Hc|]. split; [unfold strlen; now rewrite Hc, Hl|]. split.
  - unfold ngli_node_default_name, ngli_strdup. rewrite Hc.
    now apply default_name_loop_idem with s.
  - apply is_default_name_accepts. now rewrite Hc.
Qed.

(** ** The size rounding of [node_create] *)

(** Every positive number is an odd multiple of a power of two. *)
Lemma odd_part (v : Z) :
  0 < v -> exists k q, 0 <= k /\ 0 <= q /\ v = 2 ^ k * (2 * q + 1).
Proof.
  destruct v as [|p|p]; try lia. intros _.
  induction p as [p IH|p IH|].
  - exists 0, (Z.pos p). cbn. lia.
  - destruct IH as (k & q & Hk & Hq & E). exists (k + 1), q.
    split; [lia|]. split; [lia|].
    rewrite Z.pow_add_r by lia. change (Z.pos p~0) with (2 * Z.pos p). lia.
  - exists 0, 0. cbn. lia.
Qed.

Lemma mod_mod_pow2 (z n m : Z) :
  0 <= n <= m -> (z mod 2 ^ m) mod 2 ^ n = z mod 2 ^ n.
Proof.
  intros H. replace m with (n + (m - n)) by lia.
  rewrite Z.pow_add_r by lia.
  assert (Hn : 0 < 2 ^ n) by (apply Z.pow_pos_nonneg; lia).
  assert (Hm : 0 < 2 ^ (m - n)) by (apply Z.pow_pos_nonneg; lia).
  rewrite Z.rem_mul_r by lia.
  rewrite (Z.mul_comm (2 ^ n)), Z.mod_add by lia.
  apply Z.mod_mod. lia.
Qed.

Lemma land_mod_pow2 (x y n : Z) :
  0 <= n -> Z.land x y mod 2 ^ n = Z.land x (y mod 2 ^ n).
Proof.
  intros H. rewrite <- !Z.land_ones by exact H. now rewrite Z.land_assoc.
Qed.

(** The operands of [ALIGN] once the wrap-arounds that do nothing are
    removed: the mask is the two's complement of [v]. *)
Lemma ALIGN_unfold (v a : Z) :
  0 < v -> 0 < a -> v + a <= 2 ^ 64 ->
  Alloc.ALIGN v a = (v + Z.land (v + a - 1) ((- v) mod 2 ^ 64)) mod 2 ^ 64.
Proof.
  intros Hv Ha Hb. unfold Alloc.ALIGN, size_t_wrap.
  replace (((v + a) mod 2 ^ 64 - 1) mod 2 ^ 64) with (v + a - 1).
  2:{ rewrite Zminus_mod_idemp_l. symmetry. apply Z.mod_small. lia. }
  replace (Z.lnot ((v - 1) mod 2 ^ 64)) with (- v); [reflexivity|].
  rewrite Z.mod_small by lia. unfold Z.lnot. lia.
Qed.

Lemma ALIGN_mod (v a n : Z) :
  0 < v -> 0 < a -> v + a <= 2 ^ 64 -> 0 <= n <= 64 ->
  Alloc.ALIGN v a mod 2 ^ n
  = (v + Z.land (v + a - 1) ((- v) mod 2 ^ n)) mod 2 ^ n.
Proof.
  intros Hv Ha Hb Hn. rewrite ALIGN_unfold by assumption.
  rewrite mod_mod_pow2 by exact Hn.
  rewrite <- Zplus_mod_idemp_r, land_mod_pow2 by lia.
  rewrite mod_mod_pow2 by exact Hn.
  rewrite <- (Z.mod_small (Z.land (v + a - 1) ((- v) mod 2 ^ n)) (2 ^ n)) at 2.
  - now rewrite Zplus_mod_idemp_r.
  - assert (0 <= (- v) mod 2 ^ n < 2 ^ n)
      by (apply Z.mod_pos_bound; apply Z.pow_pos_nonneg; lia).
    split; [apply Z.land_nonneg; lia|].
    rewrite Z.land_comm.
    eapply Z.le_lt_trans; [apply Z_land_le; lia | lia].
Qed.

(** [ALIGN(v, 2^j)] is a multiple of [2^j] exactly when [v] is. *)
Lemma ALIGN_aligned_iff (v j : Z) :
  0 < v -> 0 <= j -> v + 2 ^ j <= 2 ^ 64 ->
  Alloc.ALIGN v (2 ^ j) mod 2 ^ j = 0 <-> v mod 2 ^ j = 0.
Proof.
  intros Hv Hj Hb.
  assert (Hpj : 0 < 2 ^ j) by (apply Z.pow_pos_nonneg; lia).
  assert (Hj64 : j <= 64).
  { destruct (Z.le_gt_cases j 64) as [H|H]; [exact H|].
    assert (2 ^ 64 < 2 ^ j) by (apply Z.pow_lt_mono_r; lia). lia. }
  split.
  - (* the result is an odd multiple of the largest power of two in [v] *)
    intros Ha.
    destruct (odd_part v Hv) as (k & q & Hk & Hq & Ev).
    destruct (Z.le_gt_cases j k) as [Hjk|Hjk].
    { rewrite Ev. replace k with (j + (k - j)) by lia.
      rewrite Z.pow_add_r, <- Z.mul_assoc, Z.mul_comm by lia.
      apply Z.mod_mul. lia. }
    exfalso.
    assert (Hpk : 0 < 2 ^ k) by (apply Z.pow_pos_nonneg; lia).
    assert (Hk1 : 2 ^ (k + 1) = 2 * 2 ^ k) by (rewrite Z.pow_add_r; lia).
    assert (Hjk1 : 2 ^ j = 2 ^ (k + 1) * 2 ^ (j - k - 1)).
    { rewrite <- Z.pow_add_r by lia. f_equal. lia. }
    assert (Hpd : 0 < 2 ^ (j - k - 1)) by (apply Z.pow_pos_nonneg; lia).
    assert (Ha' : Alloc.ALIGN v (2 ^ j) mod 2 ^ (k + 1) = 0).
    { rewrite <- (mod_mod_pow2 _ (k + 1) j) by lia. rewrite Ha.
      apply Z.mod_0_l. lia. }
    rewrite ALIGN_mod in Ha' by lia.
    assert (Hy : (- v) mod 2 ^ (k + 1) = 2 ^ k).
    { replace (- v) with (2 ^ k + (- q - 1) * 2 ^ (k + 1)) by nia.
      rewrite Z.mod_add by lia. apply Z.mod_small. lia. }
    rewrite Hy in Ha'.
    assert (Hbit : Z.land (v + 2 ^ j - 1) (2 ^ k) = 0).
    { apply Z.bits_inj'. intros n Hn.
      rewrite Z.land_spec, Z.bits_0, Z.pow2_bits_eqb by lia.
      destruct (Z.eqb_spec k n) as [<-|_]; [|apply andb_false_r].
      rewrite andb_true_r.
      replace (v + 2 ^ j - 1)
        with ((2 ^ k - 1) + (2 * (q + 2 ^ (j - k - 1))) * 2 ^ k) by nia.
      rewrite Z.testbit_eqb by lia. rewrite Z.div_add by lia.
      rewrite Z.div_small by lia. rewrite Z.add_0_l.
      rewrite (Z.mul_comm 2), Z.mod_mul by lia. reflexivity. }
    rewrite Hbit, Z.add_0_r in Ha'.
    replace v with (2 ^ k + q * 2 ^ (k + 1)) in Ha' by nia.
    rewrite Z.mod_add, Z.mod_small in Ha' by lia. lia.
  - intros Hm. rewrite ALIGN_mod by lia.
    replace ((- v) mod 2 ^ j) with 0.
    + rewrite Z.land_0_r, Z.add_0_r. exact Hm.
    + symmetry. apply Z.mod_divide; [lia|]. apply Z.divide_opp_r.
      apply Z.mod_divide; [lia | exact Hm].
Qed.

(** The alignment test of [node_create] is the divisibility test. *)
Lemma is_aligned_iff (j p : Z) :
  0 <= j <= 64 -> 0 <= p < 2 ^ 64 ->
  Alloc.is_aligned (2 ^ j) p = true <-> p mod 2 ^ j = 0.
Proof.
  intros Hj Hp. unfold Alloc.is_aligned, size_t_wrap.
  assert (Hpj : 0 < 2 ^ j) by (apply Z.pow_pos_nonneg; lia).
  assert (Hle : 2 ^ j <= 2 ^ 64) by (apply Z.pow_le_mono_r; lia).
  rewrite (Z.mod_small (2 ^ j - 1)) by lia.
  replace (Z.lnot (2 ^ j - 1)) with (- 2 ^ j) by (unfold Z.lnot; lia).
  rewrite Z.eqb_eq. split.
  - intros H. rewrite <- H, land_mod_pow2, mod_mod_pow2 by lia.
    replace ((- 2 ^ j) mod 2 ^ j) with 0; [apply Z.land_0_r|].
    symmetry. apply Z.mod_divide; [lia|]. apply Z.divide_opp_r.
    apply Z.divide_refl.
  - intros H. apply Z.bits_inj'. intros n Hn. rewrite Z.land_spec.
    destruct (Z.testbit p n) eqn:Eb; [|reflexivity]. cbn [andb].
    destruct (Z.lt_ge_cases n j) as [Hlt|Hge].
    + exfalso. apply Z.mod_divide in H; [|lia]. destruct H as [c ->].
      rewrite Z.mul_pow2_bits_low in Eb by lia. discriminate.
    + destruct (Z.lt_ge_cases n 64) as [Hlt|Hge64].
      * rewrite Z.mod_pow2_bits_low by lia.
        replace (- 2 ^ j) with (Z.lnot (Z.ones j))
          by (rewrite Z.ones_equiv; unfold Z.lnot; lia).
        rewrite Z.lnot_spec, Z.ones_spec_high by lia. reflexivity.
      * exfalso. rewrite <- (Z.mod_small p (2 ^ 64)) in Eb by lia.
        rewrite Z.mod_pow2_bits_high in Eb by lia. discriminate.
Qed.

(** The two alignment assertions of [node_create] hold exactly when the
    allocation is aligned and [sizeof(struct ngl_node)] is already a multiple
    of the alignment: for a power-of-two alignment [2^j], [ALIGN(v, 2^j)] is
    a multiple of [2^j] if and only if [v] is, so the macro never rounds a
    size up to the alignment. *)
Theorem node_create_asserts_iff (sizeof_node j node : Z) :
  0 < sizeof_node -> 0 <= j ->
  sizeof_node + 2 ^ j <= 2 ^ 64 ->
  0 <= node ->
  node + Alloc.ALIGN sizeof_node (2 ^ j) < 2 ^ 64 ->
  (Alloc.ALIGN sizeof_node (2 ^ j) mod 2 ^ j = 0 <-> sizeof_node mod 2 ^ j = 0)
  /\ (Alloc.node_create_asserts sizeof_node (2 ^ j) node = (true, true)
      <-> node mod 2 ^ j = 0 /\ sizeof_node mod 2 ^ j = 0).
Proof.
  intros Hv Hj Hb Hn Hs.
  pose proof (ALIGN_aligned_iff sizeof_node j Hv Hj Hb) as Ha.
  split; [exact Ha|].
  assert (Hpj : 0 < 2 ^ j) by (apply Z.pow_pos_nonneg; lia).
  assert (Hj64 : j <= 64).
  { destruct (Z.le_gt_cases j 64) as [H|H]; [exact H|].
    assert (2 ^ 64 < 2 ^ j) by (apply Z.pow_lt_mono_r; lia). lia. }
  assert (H0 : 0 <= Alloc.ALIGN sizeof_node (2 ^ j)).
  { unfold Alloc.ALIGN, size_t_wrap. apply Z.mod_pos_bound. lia. }
  unfold Alloc.node_create_asserts, size_t_wrap.
  rewrite (Z.mod_small (node + _)) by lia.
  pose proof (is_aligned_iff j node ltac:(lia) ltac:(lia)) as H1.
  pose proof (is_aligned_iff j (node + Alloc.ALIGN sizeof_node (2 ^ j))
                ltac:(lia) ltac:(lia)) as H2.
  split.
  - intros H. inversion H as [[E1 E2]]. rewrite E1 in E2.
    apply H1 in E1. apply H2 in E2. split; [exact E1|]. apply Ha.
    rewrite <- Zplus_mod_idemp_l, E1, Z.add_0_l in E2. exact E2.
  - intros [E1 E2]. apply Ha in E2.
    replace (Alloc.is_aligned (2 ^ j) node) with true
      by (symmetry; now apply H1).
    replace (Alloc.is_aligned (2 ^ j) _) with true; [reflexivity|].
    symmetry. apply H2.
    rewrite <- Zplus_mod_idemp_l, E1, Z.add_0_l. exact E2.
Qed.

(** The rounded size leaves room for the header: [ALIGN(v, a)] is at least
    [v] and at most [2v + a - 1], so the private block starts after the
    header, never inside it. *)
Theorem ALIGN_bounds (v a : Z) :
  0 < v -> 0 < a -> 2 * v + a <= 2 ^ 64 ->
  v <= Alloc.ALIGN v a <= 2 * v + a - 1.
Proof.
  intros Hv Ha Hb. rewrite ALIGN_unfold by lia.
  assert (Hy : 0 <= (- v) mod 2 ^ 64 < 2 ^ 64) by (apply Z.mod_pos_bound; lia).
  assert (Hl : 0 <= Z.land (v + a - 1) ((- v) mod 2 ^ 64) <= v + a - 1).
  { split; [apply Z.land_nonneg; lia | apply Z_land_le; lia]. }
  rewrite Z.mod_small; lia.
Qed.




(** ** The reset of the private block, continued *)

Lemma covered_dec (pars : list node_param) (i : Z) :
  {covered pars i} + {~ covered pars i}.
Proof.
  unfold covered. apply Exists_dec. intros p.
  destruct (Z_le_dec (offset p) i), (Z_lt_dec i (offset p + opt_sizes (type p)));
    [left; lia | right; lia | right; lia | right; lia].
Qed.

(** Resetting a block that was just reset changes nothing. *)
Lemma reset_block_idempotent (pars : list node_param) (priv priv' : list Z) :
  Z.of_nat (length priv) < 2 ^ 64 ->
  schema_fits pars 0 (Z.of_nat (length priv)) ->
  reset_block pars (Z.of_nat (length priv)) priv = Some priv' ->
  reset_block pars (Z.of_nat (length priv)) priv' = Some priv'.
Proof.
  intros Hsz Hf H.
  destruct (reset_block_spec _ _ _ _ Hsz Hf H) as (Hl & _ & Hz & Hk).
  rewrite <- Hl in *.
  destruct (reset_block_total pars priv' Hsz Hf) as [priv'' H'].
  rewrite H'. f_equal.
  destruct (reset_block_spec _ _ _ _ Hsz Hf H') as (Hl' & _ & Hz' & Hk').
  apply list_eq. intros n.
  destruct (Z_lt_dec (Z.of_nat n) (Z.of_nat (length priv'))) as [Hlt|Hge].
  - specialize (Hz (Z.of_nat n)). specialize (Hz' (Z.of_nat n)).
    specialize (Hk' (Z.of_nat n)). unfold byte_at in *.
    rewrite Nat2Z.id in *.
    destruct (covered_dec pars (Z.of_nat n)) as [Hc|Hc].
    + apply Hk'; [lia | exact Hc].
    + rewrite Hz', Hz by (try lia; exact Hc). reflexivity.
  - rewrite !lookup_ge_None_2 by lia. reflexivity.
Qed.

(** [reset_non_params] is idempotent: on a node whose private block has the
    size its class declares and whose schema fits the block, resetting twice
    is resetting once. *)
Theorem reset_non_params_idempotent (classes : Z -> node_class) (node : Z)
    (nd : ngl_node) (w : world) :
  nodes w !! node = Some nd ->
  priv_size (classes (class nd)) = Z.of_nat (length (priv_data nd)) ->
  priv_size (classes (class nd)) < 2 ^ 64 ->
  schema_fits (schema (params (classes (class nd)))) 0
    (priv_size (classes (class nd))) ->
  (reset_non_params classes node;; reset_non_params classes node) w
  = reset_non_params classes node w
  /\ exists w', reset_non_params classes node w = Done tt w'.
Proof.
  intros Hl Hsz Hlt Hf. rewrite Hsz in Hlt, Hf.
  destruct (reset_block_total _ _ Hlt Hf) as [priv' Hr].
  pose proof (reset_block_idempotent _ _ _ Hlt Hf Hr) as Hr'.
  destruct (reset_block_spec _ _ _ _ Hlt Hf Hr) as (Hlen & _).
  assert (Hrun : reset_non_params classes node w
                 = Done tt (set_nodes (<[node := set_priv_data priv' nd]>
                                         (nodes w)) w)).
  { unfold reset_non_params, bind, class_of.
    rewrite (get_node_Done _ _ _ Hl), Hsz, Hr. cbn.
    now rewrite (modify_node_Done _ _ _ _ Hl). }
  split; [|eauto]. unfold bind at 1. rewrite Hrun.
  set (w1 := set_nodes _ w).
  assert (Hl1 : nodes w1 !! node = Some (set_priv_data priv' nd))
    by (unfold w1; cbn; apply lookup_insert_eq).
  unfold reset_non_params, bind, class_of.
  rewrite (get_node_Done _ _ _ Hl1). cbn [class priv_data set_priv_data].
  rewrite Hsz, Hr'. cbn.
  rewrite (modify_node_Done _ _ _ _ Hl1). unfold w1. cbn.
  now rewrite insert_insert_eq.
Qed.

(** Once the walk of [reset_non_params] reaches a parameter that is
    followed by one starting before its end, it leaves the block: whatever
    the offset reached so far, the [memset] in front of the second one has a
    length that wrapped around. *)
Lemma reset_loop_unsorted (p q : node_param) (rest : list node_param) :
  0 <= offset p ->
  offset p + opt_sizes (type p) < 2 ^ 64 ->
  0 <= offset q < offset p + opt_sizes (type p) ->
  forall (pre : list node_param) (cur : Z) (priv : list Z),
    Z.of_nat (length priv) < 2 ^ 64 ->
    reset_non_params_loop (pre ++ p :: q :: rest) cur priv = None.
Proof.
  intros Hp0 Hpe Hq pre.
  pose proof (opt_sizes_pos (type p)) as Hs.
  induction pre as [|a pre IH]; intros cur priv Hlen.
  - cbn [app reset_non_params_loop]. cbv zeta.
    assert (Hwp : size_t_wrap (offset p) = offset p)
      by (unfold size_t_wrap; apply Z.mod_small; lia).
    assert (Hwe : size_t_wrap (offset p + opt_sizes (type p))
                  = offset p + opt_sizes (type p))
      by (unfold size_t_wrap; apply Z.mod_small; lia).
    assert (Hwq : size_t_wrap (offset q) = offset q)
      by (unfold size_t_wrap; apply Z.mod_small; lia).
    assert (Hwd : size_t_wrap (offset q - (offset p + opt_sizes (type p)))
                  = 2 ^ 64 + offset q - (offset p + opt_sizes (type p))).
    { unfold size_t_wrap.
      replace (offset q - (offset p + opt_sizes (type p)))
        with (2 ^ 64 + offset q - (offset p + opt_sizes (type p))
              + (-1) * 2 ^ 64) by lia.
      rewrite Z.mod_add by lia. apply Z.mod_small. lia. }
    rewrite Hwp, Hwe, Hwq, Hwd.
    destruct (if negb (offset p =? cur) then _ else _)
      as [priv1|] eqn:E1; [|reflexivity].
    assert (Hl1 : length priv1 = length priv).
    { destruct (negb (offset p =? cur)).
      - apply memset_inv in E1. tauto.
      - now inversion E1. }
    replace (offset q =? offset p + opt_sizes (type p)) with false
      by (symmetry; apply Z.eqb_neq; lia).
    cbn [negb].
    destruct (memset priv1 _ 0 _) as [priv2|] eqn:E2; [|reflexivity].
    apply memset_inv in E2. lia.
  - cbn [app reset_non_params_loop]. cbv zeta.
    destruct (if negb (size_t_wrap (offset a) =? cur) then _ else _)
      as [priv1|] eqn:E1; [|reflexivity].
    apply IH.
    destruct (negb (size_t_wrap (offset a) =? cur)).
    + apply memset_inv in E1. destruct E1 as (_ & _ & _ & E1 & _).
      now rewrite E1.
    + inversion E1; subst. exact Hlen.
Qed.

(** The schema must list its parameters by increasing offset: when a
    parameter, anywhere in the schema, starts before the end of the one
    listed just before it, the length [offset - cur_offset] of the [memset]
    between them wraps around as a [size_t] and the write leaves the private
    block. *)
Theorem reset_non_params_unsorted_schema (classes : Z -> node_class)
    (node : Z) (nd : ngl_node) (w : world) (pre : list node_param)
    (p q : node_param) (rest : list node_param) :
  nodes w !! node = Some nd ->
  params (classes (class nd)) = Some (pre ++ p :: q :: rest) ->
  0 <= offset p ->
  offset p + opt_sizes (type p) < 2 ^ 64 ->
  0 <= offset q < offset p + opt_sizes (type p) ->
  Z.of_nat (length (priv_data nd)) < 2 ^ 64 ->
  reset_block (pre ++ p :: q :: rest) (priv_size (classes (class nd)))
    (priv_data nd) = None
  /\ reset_non_params classes node w = Fault BadAccess.
Proof.
  intros Hl Hp Hp0 Hpe Hq Hlen.
  assert (Hnone : forall size,
             reset_block (pre ++ p :: q :: rest) size (priv_data nd) = None).
  { intros size. unfold reset_block.
    now rewrite (reset_loop_unsorted p q rest Hp0 Hpe Hq pre 0 _ Hlen). }
  split; [apply Hnone|].
  unfold reset_non_params, bind, class_of.
  rewrite (get_node_Done _ _ _ Hl), Hp. cbn [schema default].
  now rewrite Hnone.
Qed.

(** ** Words of a state-override block *)

Lemma le_decode_encode (n : nat) (v : Z) :
  le_decode (le_encode n v) = v mod 2 ^ Z.of_nat (8 * n).
Proof.
  revert v. induction n as [|n IH]; intros v.
  - cbn. now rewrite Z.mod_1_r.
  - cbn [le_encode le_decode]. rewrite IH.
    replace (Z.of_nat (8 * S n)) with (8 + Z.of_nat (8 * n)) by lia.
    rewrite Z.pow_add_r by lia. change (2 ^ 8) with 256.
    rewrite Z.rem_mul_r by (try apply Z.pow_nonzero; lia). reflexivity.
Qed.

Lemma length_le_encode (n : nat) (v : Z) : length (le_encode n v) = n.
Proof. revert v. induction n as [|n IH]; intros v; cbn; [|rewrite IH]; reflexivity. Qed.

Lemma store_bytes_inv (bs bs' new : list Z) (off : Z) :
  store_bytes bs off new = Some bs' ->
  0 <= off /\ off + Z.of_nat (length new) <= Z.of_nat (length bs)
  /\ bs' = take (Z.to_nat off) bs ++ new
           ++ drop (Z.to_nat off + length new) bs
  /\ length bs' = length bs.
Proof.
  unfold store_bytes.
  destruct (0 <=? off) eqn:E1; [|discriminate].
  destruct (off + Z.of_nat (length new) <=? Z.of_nat (length bs)) eqn:E2;
    [|discriminate].
  cbn. intros H. inversion H. apply Z.leb_le in E1, E2.
  split; [lia|]. split; [lia|]. split; [reflexivity|].
  rewrite !length_app, length_take, length_drop. lia.
Qed.

Lemma store_bytes_total (bs new : list Z) (off : Z) :
  0 <= off -> off + Z.of_nat (length new) <= Z.of_nat (length bs) ->
  exists bs', store_bytes bs off new = Some bs'.
Proof.
  intros H1 H2. unfold store_bytes.
  replace (0 <=? off) with true by (symmetry; apply Z.leb_le; lia).
  replace (off + Z.of_nat (length new) <=? Z.of_nat (length bs)) with true
    by (symmetry; apply Z.leb_le; lia).
  cbn. eauto.
Qed.

Lemma store_bytes_lookup (bs bs' new : list Z) (off : Z) (j : nat) :
  store_bytes bs off new = Some bs' ->
  bs' !! j = if (Z.to_nat off <=? j)%nat && (j <? Z.to_nat off + length new)%nat
             then new !! (j - Z.to_nat off)%nat
             else bs !! j.
Proof.
  intros H. apply store_bytes_inv in H. destruct H as (H1 & H2 & -> & _).
  assert (Hlt : length (take (Z.to_nat off) bs) = Z.to_nat off)
    by (rewrite length_take; lia).
  destruct (Nat.leb_spec (Z.to_nat off) j) as [Hle|Hgt]; cbn [andb].
  - rewrite lookup_app_r by lia. rewrite Hlt.
    destruct (Nat.ltb_spec j (Z.to_nat off + length new)) as [Hin|Hout].
    + now rewrite lookup_app_l by lia.
    + rewrite lookup_app_r by lia. rewrite lookup_drop. f_equal. lia.
  - rewrite lookup_app_l by lia. apply lookup_take_lt. lia.
Qed.

Lemma load_bytes_ext (a b : list Z) (off len : Z) :
  length a = length b ->
  (forall j, (Z.to_nat off <= j < Z.to_nat off + Z.to_nat len)%nat ->
             a !! j = b !! j) ->
  load_bytes a off len = load_bytes b off len.
Proof.
  intros Hl He. unfold load_bytes. rewrite Hl.
  destruct ((0 <=? off) && (0 <=? len) && (off + len <=? Z.of_nat (length b)));
    [|reflexivity].
  f_equal. apply list_eq. intros k.
  destruct (Nat.lt_ge_cases k (Z.to_nat len)) as [Hlt|Hge].
  - rewrite !lookup_take_lt, !lookup_drop by lia. apply He. lia.
  - rewrite !lookup_take_ge by lia. reflexivity.
Qed.

(** Reading the word just stored gives its 32-bit pattern; the other words
    of the block are unchanged. *)
Lemma glstate_word_store (bs bs' : list Z) (f g : glstate_field) (i k v : Z) :
  store_int bs (glstate_offset f + 4 * i) v = Some bs' ->
  0 <= glstate_offset g + 4 * k ->
  glstate_word bs' g k
  = if glstate_offset g + 4 * k =? glstate_offset f + 4 * i
    then v mod 2 ^ 32 else glstate_word bs g k.
Proof.
  intros H Hk. unfold store_int in H. pose proof H as Hs.
  apply store_bytes_inv in Hs. rewrite length_le_encode in Hs.
  destruct Hs as (H1 & H2 & _ & Hlen).
  unfold glstate_word.
  destruct (Z.eqb_spec (glstate_offset g + 4 * k) (glstate_offset f + 4 * i))
    as [->|Hne].
  - unfold load_bytes.
    replace ((0 <=? _) && (0 <=? 4) && (_ + 4 <=? Z.of_nat (length bs')))
      with true by (symmetry; rewrite !andb_true_iff, !Z.leb_le; lia).
    cbn [fmap option_fmap option_map default].
    replace (take (Z.to_nat 4) (drop (Z.to_nat (glstate_offset f + 4 * i)) bs'))
      with (le_encode 4 v).
    + rewrite le_decode_encode. reflexivity.
    + apply list_eq. intros n.
      destruct (Nat.lt_ge_cases n 4) as [Hlt|Hge].
      * rewrite lookup_take_lt, lookup_drop by lia.
        rewrite (store_bytes_lookup _ _ _ _ _ H), length_le_encode.
        replace (_ <=? _)%nat with true by (symmetry; apply Nat.leb_le; lia).
        replace (_ <? _)%nat with true by (symmetry; apply Nat.ltb_lt; lia).
        cbn [andb]. f_equal. lia.
      * rewrite lookup_take_ge by lia. apply lookup_ge_None_2.
        rewrite length_le_encode. lia.
  - f_equal. f_equal. apply load_bytes_ext; [exact Hlen|].
    intros j Hj. rewrite (store_bytes_lookup _ _ _ _ _ H), length_le_encode.
    destruct (Nat.leb_spec (Z.to_nat (glstate_offset f + 4 * i)) j);
      [|reflexivity].
    destruct (Nat.ltb_spec j (Z.to_nat (glstate_offset f + 4 * i) + 4));
      [|reflexivity].
    exfalso.
    assert (glstate_offset g + 4 * k <> glstate_offset f + 4 * i) by exact Hne.
    assert (exists a, glstate_offset g = 4 * a) as [a Ha]
      by (destruct g; cbn; [exists 0|exists 1|exists 3|exists 5|exists 7
            |exists 9|exists 11|exists 13|exists 15|exists 23|exists 25
            |exists 27|exists 29|exists 31|exists 33|exists 35|exists 37]; lia).
    assert (exists b, glstate_offset f = 4 * b) as [b Hb]
      by (destruct f; cbn; [exists 0|exists 1|exists 3|exists 5|exists 7
            |exists 9|exists 11|exists 13|exists 15|exists 23|exists 25
            |exists 27|exists 29|exists 31|exists 33|exists 35|exists 37]; lia).
    lia.
Qed.

Lemma glstate_word_store_same (bs bs' : list Z) (f : glstate_field) (i v : Z) :
  store_int bs (glstate_offset f + 4 * i) v = Some bs' ->
  0 <= glstate_offset f + 4 * i ->
  glstate_word bs' f i = v mod 2 ^ 32.
Proof.
  intros H H0. rewrite (glstate_word_store _ _ _ _ _ _ _ H H0).
  now rewrite Z.eqb_refl.
Qed.

Lemma glstate_word_store_other (bs bs' : list Z) (f g : glstate_field)
    (i k v : Z) :
  store_int bs (glstate_offset f + 4 * i) v = Some bs' ->
  0 <= glstate_offset g + 4 * k ->
  glstate_offset g + 4 * k <> glstate_offset f + 4 * i ->
  glstate_word bs' g k = glstate_word bs g k.
Proof.
  intros H H0 Hne. rewrite (glstate_word_store _ _ _ _ _ _ _ H H0).
  apply Z.eqb_neq in Hne. now rewrite Hne.
Qed.

(** ** Execution of the accesses to a state-override block *)

Lemma bind_step {A B} (m : M A) (k : A -> M B) (w w1 : world) (a : A) :
  m w = Done a w1 -> bind m k w = k a w1.
Proof. intros H. unfold bind. now rewrite H. Qed.

Ltac step H := rewrite (bind_step _ _ _ _ _ H); cbv beta.

Lemma st_load_Done (stnode : Z) (f : glstate_field) (i : Z) (snd : ngl_node)
    (w : world) :
  nodes w !! stnode = Some snd ->
  0 <= glstate_offset f + 4 * i ->
  glstate_offset f + 4 * i + 4 <= Z.of_nat (length (priv_data snd)) ->
  st_load stnode f i w = Done (glstate_word (priv_data snd) f i) w.
Proof.
  intros Hl H0 H1. unfold st_load. step (get_node_Done _ _ _ Hl).
  unfold glstate_word, load_bytes.
  replace ((0 <=? _) && (0 <=? 4) && (_ + 4 <=? _)) with true
    by (symmetry; rewrite !andb_true_iff, !Z.leb_le; lia).
  reflexivity.
Qed.

Lemma st_store_Done (stnode : Z) (f : glstate_field) (i v : Z)
    (snd : ngl_node) (w : world) :
  nodes w !! stnode = Some snd ->
  0 <= glstate_offset f + 4 * i ->
  glstate_offset f + 4 * i + 4 <= Z.of_nat (length (priv_data snd)) ->
  exists bs',
    store_int (priv_data snd) (glstate_offset f + 4 * i) v = Some bs'
    /\ length bs' = length (priv_data snd)
    /\ st_store stnode f i v w
       = Done tt (set_nodes (<[stnode := set_priv_data bs' snd]> (nodes w)) w).
Proof.
  intros Hl H0 H1.
  destruct (store_bytes_total (priv_data snd) (le_encode 4 v)
              (glstate_offset f + 4 * i) H0) as [bs' Hs].
  { rewrite length_le_encode. lia. }
  exists bs'. split; [exact Hs|]. split.
  - apply store_bytes_inv in Hs. tauto.
  - unfold st_store. step (get_node_Done _ _ _ Hl).
    unfold store_int. rewrite Hs. unfold of_option.
    rewrite (bind_step _ _ _ _ _ (eq_refl : ret bs' w = Done bs' w)).
    now apply put_node_Done with snd.
Qed.

(** [glGetIntegerv] on a capability enumerant. *)
Lemma glGetIntegerv_capability (cap : Z) (w : world) :
  cap ∉ value_pnames ->
  ngli_glGetIntegerv cap w
  = Done (if bool_decide (cap ∈ gl_caps (gl w)) then 1 else 0) w.
Proof.
  intros H. unfold ngli_glGetIntegerv, bind, get_gl, ret.
  unfold value_pnames in H. rewrite !not_elem_of_cons in H.
  destruct H as (H1 & H2 & H3 & H4 & H5 & H6 & H7 & H8 & H9 & H10 & H11
                 & H12 & H13 & H14 & _).
  apply Z.eqb_neq in H1, H2, H3, H4, H5, H6, H7, H8, H9, H10, H11, H12,
    H13, H14.
  now rewrite H1, H2, H3, H4, H5, H6, H7, H8, H9, H10, H11, H12, H13, H14.
Qed.

Lemma with_caps_id (d : gldriver) : with_caps (gl_caps d) d = d.
Proof. now destruct d. Qed.

Lemma set_gl_id (w : world) : set_gl (gl w) w = w.
Proof. now destruct w. Qed.

Section Overrides.

Variable classes : Z -> node_class.

(** The arm of [ngli_honor_glstates] for the generic capability override. *)
Lemma honor_generic (stnode : Z) (snd : ngl_node) (w : world) :
  nodes w !! stnode = Some snd ->
  id (classes (class snd)) <> NGL_NODE_GLBLENDSTATE ->
  id (classes (class snd)) <> NGL_NODE_GLCOLORSTATE ->
  id (classes (class snd)) <> NGL_NODE_GLPOLYGONMODESTATE ->
  id (classes (class snd)) <> NGL_NODE_GLSTENCILSTATE ->
  12 <= Z.of_nat (length (priv_data snd)) ->
  glstate_word (priv_data snd) capability 0 ∉ value_pnames ->
  let cap := glstate_word (priv_data snd) capability 0 in
  let e0 := glstate_word (priv_data snd) enabled 0 in
  let e1 := if bool_decide (cap ∈ gl_caps (gl w)) then 1 else 0 in
  exists bs1,
    length bs1 = length (priv_data snd)
    /\ glstate_word bs1 capability 0 = cap
    /\ glstate_word bs1 enabled 0 = e0
    /\ glstate_word bs1 enabled 1 = e1
    /\ honor_glstate classes stnode w
       = Done tt
           ((if negb (e0 =? e1)
             then set_gl (with_caps
                            (if negb (e0 =? 0) then gl_caps (gl w) ∪ {[cap]}
                             else gl_caps (gl w) ∖ {[cap]}) (gl w))
             else fun w => w)
              (set_nodes (<[stnode := set_priv_data bs1 snd]> (nodes w)) w)).
Proof.
  intros Hl Hb Hc Hp Hs Hlen Hcap cap e0 e1.
  apply Z.eqb_neq in Hb, Hc, Hp, Hs.
  destruct (st_store_Done stnode enabled 1 e1 snd w Hl)
    as (bs1 & Hst & Hl1 & Hrun); [cbn; lia | cbn; lia |].
  pose proof (glstate_word_store_other _ _ enabled capability 1 0 e1 Hst
                ltac:(cbn; lia) ltac:(cbn; lia)) as Hw0.
  pose proof (glstate_word_store_other _ _ enabled enabled 1 0 e1 Hst
                ltac:(cbn; lia) ltac:(cbn; lia)) as Hw1.
  pose proof (glstate_word_store_same _ _ enabled 1 e1 Hst
                ltac:(cbn; lia)) as Hw2.
  assert (He1 : e1 mod 2 ^ 32 = e1) by (unfold e1; now destruct (bool_decide _)).
  rewrite He1 in Hw2.
  exists bs1. repeat (split; [assumption|]).
  set (w1 := set_nodes (<[stnode := set_priv_data bs1 snd]> (nodes w)) w).
  assert (Hl1' : nodes w1 !! stnode = Some (set_priv_data bs1 snd))
    by (unfold w1; cbn; apply lookup_insert_eq).
  unfold honor_glstate. step (get_node_Done _ _ _ Hl). cbv zeta.
  unfold class_of. rewrite Hb, Hc, Hp, Hs.
  step (st_load_Done stnode capability 0 snd w Hl ltac:(cbn; lia) ltac:(cbn; lia)).
  fold cap.
  assert (Hg : st_get_integer cap stnode enabled 1 w = Done tt w1).
  { unfold st_get_integer. step (glGetIntegerv_capability cap w Hcap).
    exact Hrun. }
  step Hg.
  assert (Hld : forall f i, 0 <= glstate_offset f + 4 * i ->
                  glstate_offset f + 4 * i + 4 <= 12 ->
                  forall w2, nodes w2 !! stnode = Some (set_priv_data bs1 snd) ->
                  st_load stnode f i w2 = Done (glstate_word bs1 f i) w2).
  { intros f i H0 H1 w2 H2. apply (st_load_Done _ _ _ _ _ H2); cbn; lia. }
  step (Hld enabled 0 ltac:(cbn; lia) ltac:(cbn; lia) w1 Hl1').
  step (Hld enabled 1 ltac:(cbn; lia) ltac:(cbn; lia) w1 Hl1').
  rewrite Hw1, Hw2. fold e0.
  destruct (negb (e0 =? e1)); [|reflexivity].
  step (Hld capability 0 ltac:(cbn; lia) ltac:(cbn; lia) w1 Hl1').
  rewrite Hw0. fold cap.
  destruct (negb (e0 =? 0)); reflexivity.
Qed.

(** The arm of [ngli_restore_glstates] for the generic capability
    override. *)
Lemma restore_generic (stnode : Z) (snd : ngl_node) (w : world) :
  nodes w !! stnode = Some snd ->
  id (classes (class snd)) <> NGL_NODE_GLBLENDSTATE ->
  id (classes (class snd)) <> NGL_NODE_GLCOLORSTATE ->
  id (classes (class snd)) <> NGL_NODE_GLPOLYGONMODESTATE ->
  id (classes (class snd)) <> NGL_NODE_GLSTENCILSTATE ->
  12 <= Z.of_nat (length (priv_data snd)) ->
  let cap := glstate_word (priv_data snd) capability 0 in
  let e0 := glstate_word (priv_data snd) enabled 0 in
  let e1 := glstate_word (priv_data snd) enabled 1 in
  restore_glstate classes stnode w
  = Done tt
      ((if negb (e0 =? e1)
        then set_gl (with_caps
                       (if negb (e1 =? 0) then gl_caps (gl w) ∪ {[cap]}
                        else gl_caps (gl w) ∖ {[cap]}) (gl w))
        else fun w => w) w).
Proof.
  intros Hl Hb Hc Hp Hs Hlen cap e0 e1.
  apply Z.eqb_neq in Hb, Hc, Hp, Hs.
  unfold restore_glstate. step (get_node_Done _ _ _ Hl). cbv zeta.
  unfold class_of. rewrite Hb, Hc, Hp, Hs.
  step (st_load_Done stnode enabled 0 snd w Hl ltac:(cbn; lia) ltac:(cbn; lia)).
  step (st_load_Done stnode enabled 1 snd w Hl ltac:(cbn; lia) ltac:(cbn; lia)).
  fold e0 e1. destruct (negb (e0 =? e1)); [|reflexivity].
  step (st_load_Done stnode capability 0 snd w Hl ltac:(cbn; lia) ltac:(cbn; lia)).
  fold cap. destruct (negb (e1 =? 0)); reflexivity.
Qed.

Lemma load_elem_Done (elems j : Z) (l : list Z) (p : Z) (w : world) :
  arrays w !! elems = Some l -> 0 <= j -> l !! Z.to_nat j = Some p ->
  load_elem elems j w = Done p w.
Proof.
  intros Ha Hj Hp. unfold load_elem. rewrite Ha.
  replace (j <? 0) with false by (symmetry; apply Z.ltb_ge; lia).
  now rewrite Hp.
Qed.

(** The arms for the polygon-mode override. *)
Lemma honor_polygon (stnode : Z) (snd : ngl_node) (w : world) :
  nodes w !! stnode = Some snd ->
  id (classes (class snd)) = NGL_NODE_GLPOLYGONMODESTATE ->
  100 <= Z.of_nat (length (priv_data snd)) ->
  exists bs1,
    length bs1 = length (priv_data snd)
    /\ glstate_word bs1 mode 0 = glstate_word (priv_data snd) mode 0
    /\ glstate_word bs1 mode 1 = gl_polygon_mode (gl w) mod 2 ^ 32
    /\ honor_glstate classes stnode w
       = Done tt
           (world_after
              (ngli_glPolygonMode GL_FRONT_AND_BACK
                 (glstate_word (priv_data snd) mode 0))
              (set_nodes (<[stnode := set_priv_data bs1 snd]> (nodes w)) w)).
Proof.
  intros Hl Hid Hlen.
  destruct (st_store_Done stnode mode 1 (gl_polygon_mode (gl w)) snd w Hl)
    as (bs1 & Hst & Hl1 & Hrun); [cbn; lia | cbn; lia |].
  pose proof (glstate_word_store_other _ _ mode mode 1 0 _ Hst
                ltac:(cbn; lia) ltac:(cbn; lia)) as Hw0.
  pose proof (glstate_word_store_same _ _ mode 1 _ Hst ltac:(cbn; lia)) as Hw1.
  exists bs1. repeat (split; [assumption|]).
  set (w1 := set_nodes (<[stnode := set_priv_data bs1 snd]> (nodes w)) w).
  assert (Hl1' : nodes w1 !! stnode = Some (set_priv_data bs1 snd))
    by (unfold w1; cbn; apply lookup_insert_eq).
  unfold honor_glstate. step (get_node_Done _ _ _ Hl). cbv zeta.
  unfold class_of. rewrite Hid.
  change (NGL_NODE_GLPOLYGONMODESTATE =? NGL_NODE_GLBLENDSTATE) with false.
  change (NGL_NODE_GLPOLYGONMODESTATE =? NGL_NODE_GLCOLORSTATE) with false.
  change (NGL_NODE_GLPOLYGONMODESTATE =? NGL_NODE_GLPOLYGONMODESTATE) with true.
  cbv iota.
  assert (Hg : st_get_integer GL_POLYGON_MODE stnode mode 1 w = Done tt w1).
  { unfold st_get_integer.
    step (eq_refl : ngli_glGetIntegerv GL_POLYGON_MODE w
                    = Done (gl_polygon_mode (gl w)) w).
    exact Hrun. }
  step Hg.
  step (st_load_Done stnode mode 0 _ w1 Hl1' ltac:(cbn; lia) ltac:(cbn; lia)).
  cbn [priv_data set_priv_data]. rewrite Hw0. reflexivity.
Qed.

Lemma restore_polygon (stnode : Z) (snd : ngl_node) (w : world) :
  nodes w !! stnode = Some snd ->
  id (classes (class snd)) = NGL_NODE_GLPOLYGONMODESTATE ->
  100 <= Z.of_nat (length (priv_data snd)) ->
  restore_glstate classes stnode w
  = Done tt
      (world_after
         (ngli_glPolygonMode GL_FRONT_AND_BACK
            (glstate_word (priv_data snd) mode 1)) w).
Proof.
  intros Hl Hid Hlen.
  unfold restore_glstate. step (get_node_Done _ _ _ Hl). cbv zeta.
  unfold class_of. rewrite Hid.
  change (NGL_NODE_GLPOLYGONMODESTATE =? NGL_NODE_GLBLENDSTATE) with false.
  change (NGL_NODE_GLPOLYGONMODESTATE =? NGL_NODE_GLCOLORSTATE) with false.
  change (NGL_NODE_GLPOLYGONMODESTATE =? NGL_NODE_GLPOLYGONMODESTATE) with true.
  cbv iota.
  step (st_load_Done stnode mode 1 _ w Hl ltac:(cbn; lia) ltac:(cbn; lia)).
  reflexivity.
Qed.

End Overrides.

(** A generic capability override is scoped to the draw.  For a node with
    one state override that is not a blend, colour, polygon-mode or stencil
    override, whose block names a capability, applying the overrides and
    restoring them leaves the driver state exactly as it was, for every
    driver state and every configured value; only the saved slot of the
    override block is written. *)
Theorem generic_override_round_trip (classes : Z -> node_class)
    (ctxp glstates stnode : Z) (snd : ngl_node) (w : world) :
  ctxp <> 0 ->
  arrays w !! glstates = Some [stnode] ->
  nodes w !! stnode = Some snd ->
  id (classes (class snd)) <> NGL_NODE_GLBLENDSTATE ->
  id (classes (class snd)) <> NGL_NODE_GLCOLORSTATE ->
  id (classes (class snd)) <> NGL_NODE_GLPOLYGONMODESTATE ->
  id (classes (class snd)) <> NGL_NODE_GLSTENCILSTATE ->
  12 <= Z.of_nat (length (priv_data snd)) ->
  glstate_word (priv_data snd) capability 0 ∉ value_pnames ->
  exists bs1,
    length bs1 = length (priv_data snd)
    /\ (ngli_honor_glstates classes ctxp 1 glstates;;
        ngli_restore_glstates classes ctxp 1 glstates) w
       = Done tt (set_nodes (<[stnode := set_priv_data bs1 snd]> (nodes w)) w).
Proof.
  intros Hctx Ha Hl Hb Hc Hp Hs Hlen Hcap.
  destruct (honor_generic classes stnode snd w Hl Hb Hc Hp Hs Hlen Hcap)
    as (bs1 & Hl1 & Hw0 & Hw1 & Hw2 & Hh).
  exists bs1. split; [exact Hl1|].
  unfold ngli_honor_glstates, ngli_restore_glstates.
  apply Z.eqb_neq in Hctx. rewrite Hctx.
  change (Z.to_nat 1) with 1%nat. cbn [honor_glstates_loop restore_glstates_loop].
  set (w1 := set_nodes (<[stnode := set_priv_data bs1 snd]> (nodes w)) w) in *.
  assert (Hl1' : nodes w1 !! stnode = Some (set_priv_data bs1 snd))
    by (unfold w1; cbn; apply lookup_insert_eq).
  assert (Hrun : (let* stnode0 := load_elem glstates 0 in
                  honor_glstate classes stnode0;; ret tt) w
                 = Done tt
                     ((if negb (glstate_word (priv_data snd) enabled 0
                                =? (if bool_decide
                                         (glstate_word (priv_data snd)
                                            capability 0 ∈ gl_caps (gl w))
                                    then 1 else 0))
                       then set_gl
                              (with_caps
                                 (if negb (glstate_word (priv_data snd)
                                             enabled 0 =? 0)
                                  then gl_caps (gl w)
                                       ∪ {[glstate_word (priv_data snd)
                                             capability 0]}
                                  else gl_caps (gl w)
                                       ∖ {[glstate_word (priv_data snd)
                                             capability 0]}) (gl w))
                       else fun w => w) w1)).
  { step (load_elem_Done glstates 0 [stnode] stnode w Ha (Z.le_refl 0) eq_refl).
    step Hh. reflexivity. }
  step Hrun. clear Hrun Hh.
  set (e0 := glstate_word (priv_data snd) enabled 0) in *.
  set (cap := glstate_word (priv_data snd) capability 0) in *.
  set (e1 := if bool_decide (cap ∈ gl_caps (gl w)) then 1 else 0) in *.
  set (w2 := (if negb (e0 =? e1) then _ else _) w1).
  assert (Ha2 : arrays w2 !! glstates = Some [stnode])
    by (unfold w2; destruct (negb (e0 =? e1)); exact Ha).
  assert (Hl2 : nodes w2 !! stnode = Some (set_priv_data bs1 snd))
    by (unfold w2; destruct (negb (e0 =? e1)); exact Hl1').
  step (load_elem_Done glstates 0 [stnode] stnode w2 Ha2 (Z.le_refl 0) eq_refl).
  pose proof (restore_generic classes stnode _ w2 Hl2 Hb Hc Hp Hs
                ltac:(cbn; lia)) as Hr.
  cbn [priv_data set_priv_data] in Hr. cbv zeta in Hr.
  rewrite Hw0, Hw1, Hw2 in Hr. step Hr. cbn [ret]. f_equal.
  unfold w2. destruct (negb (e0 =? e1)); [|reflexivity].
  assert (Hcaps : (if negb (e1 =? 0)
                   then (if negb (e0 =? 0) then gl_caps (gl w) ∪ {[cap]}
                         else gl_caps (gl w) ∖ {[cap]}) ∪ {[cap]}
                   else (if negb (e0 =? 0) then gl_caps (gl w) ∪ {[cap]}
                         else gl_caps (gl w) ∖ {[cap]}) ∖ {[cap]})
                  = gl_caps (gl w)).
  { unfold e1.
    destruct (bool_decide_reflect (cap ∈ gl_caps (gl w))) as [Hin|Hout];
      cbn [Z.eqb negb]; destruct (negb (e0 =? 0));
      apply set_eq; intros x; destruct (decide (x = cap)) as [->|Hx];
      set_unfold; tauto. }
  unfold w1, set_gl, set_nodes. cbn. f_equal.
  etransitivity; [|apply with_caps_id]. unfold with_caps. cbn. f_equal.
  destruct (negb (e1 =? 0)); exact Hcaps.
Qed.

(** A polygon-mode override is scoped to the draw.  For a node with one
    polygon-mode override, applying the overrides and restoring them leaves
    the driver state exactly as it was (the polygon mode being a 32-bit
    value), whatever the configured mode is. *)
Theorem polygon_mode_override_round_trip (classes : Z -> node_class)
    (ctxp glstates stnode : Z) (snd : ngl_node) (w : world) :
  ctxp <> 0 ->
  arrays w !! glstates = Some [stnode] ->
  nodes w !! stnode = Some snd ->
  id (classes (class snd)) = NGL_NODE_GLPOLYGONMODESTATE ->
  100 <= Z.of_nat (length (priv_data snd)) ->
  0 <= gl_polygon_mode (gl w) < 2 ^ 32 ->
  exists bs1,
    length bs1 = length (priv_data snd)
    /\ (ngli_honor_glstates classes ctxp 1 glstates;;
        ngli_restore_glstates classes ctxp 1 glstates) w
       = Done tt (set_nodes (<[stnode := set_priv_data bs1 snd]> (nodes w)) w).
Proof.
  intros Hctx Ha Hl Hid Hlen Hpm.
  destruct (honor_polygon classes stnode snd w Hl Hid Hlen)
    as (bs1 & Hl1 & Hw0 & Hw1 & Hh).
  exists bs1. split; [exact Hl1|].
  unfold ngli_honor_glstates, ngli_restore_glstates.
  apply Z.eqb_neq in Hctx. rewrite Hctx.
  change (Z.to_nat 1) with 1%nat. cbn [honor_glstates_loop restore_glstates_loop].
  set (w1 := set_nodes (<[stnode := set_priv_data bs1 snd]> (nodes w)) w) in *.
  set (w2 := world_after _ w1) in Hh.
  assert (Hrun : (let* stnode0 := load_elem glstates 0 in
                  honor_glstate classes stnode0;; ret tt) w = Done tt w2).
  { step (load_elem_Done glstates 0 [stnode] stnode w Ha (Z.le_refl 0) eq_refl).
    step Hh. reflexivity. }
  step Hrun.
  assert (Ha2 : arrays w2 !! glstates = Some [stnode]) by exact Ha.
  assert (Hl2 : nodes w2 !! stnode = Some (set_priv_data bs1 snd))
    by (unfold w2, w1; cbn; apply lookup_insert_eq).
  step (load_elem_Done glstates 0 [stnode] stnode w2 Ha2 (Z.le_refl 0) eq_refl).
  step (restore_polygon classes stnode _ w2 Hl2 Hid ltac:(cbn; lia)).
  cbn [ret priv_data set_priv_data]. rewrite Hw1, Z.mod_small by exact Hpm.
  f_equal. unfold w2, w1, world_after, set_nodes. cbn. f_equal.
  now destruct (gl w).
Qed.

(** Overrides are restored in the order they were applied, not in reverse.
    For a node with two polygon-mode overrides, the second one saves the
    mode the first one has set, and is restored last: after the draw the
    polygon mode of the driver is the one configured by the first override,
    not the one the driver had before the draw. *)
Theorem polygon_mode_overrides_restore_in_order (classes : Z -> node_class)
    (ctxp glstates st1 st2 : Z) (snd1 snd2 : ngl_node) (w : world) :
  ctxp <> 0 ->
  arrays w !! glstates = Some [st1; st2] ->
  st1 <> st2 ->
  nodes w !! st1 = Some snd1 ->
  nodes w !! st2 = Some snd2 ->
  id (classes (class snd1)) = NGL_NODE_GLPOLYGONMODESTATE ->
  id (classes (class snd2)) = NGL_NODE_GLPOLYGONMODESTATE ->
  100 <= Z.of_nat (length (priv_data snd1)) ->
  100 <= Z.of_nat (length (priv_data snd2)) ->
  exists w',
    (ngli_honor_glstates classes ctxp 2 glstates;;
     ngli_restore_glstates classes ctxp 2 glstates) w = Done tt w'
    /\ gl_polygon_mode (gl w')
       = glstate_word (priv_data snd1) mode 0 mod 2 ^ 32.
Proof.
  intros Hctx Ha Hne Hl1 Hl2 Hid1 Hid2 Hlen1 Hlen2.
  unfold ngli_honor_glstates, ngli_restore_glstates.
  apply Z.eqb_neq in Hctx. rewrite Hctx.
  change (Z.to_nat 2) with 2%nat. cbn [honor_glstates_loop restore_glstates_loop].
  (* first override applied *)
  destruct (honor_polygon classes st1 snd1 w Hl1 Hid1 Hlen1)
    as (bsA & HlA & _ & HwA1 & HhA).
  set (wA := world_after _ _) in HhA.
  assert (HaA : arrays wA !! glstates = Some [st1; st2]) by exact Ha.
  assert (HlA2 : nodes wA !! st2 = Some snd2).
  { unfold wA. cbn. now rewrite lookup_insert_ne by congruence. }
  (* second override applied *)
  destruct (honor_polygon classes st2 snd2 wA HlA2 Hid2 Hlen2)
    as (bsB & HlB & _ & HwB1 & HhB).
  set (wB := world_after _ _) in HhB.
  assert (HaB : arrays wB !! glstates = Some [st1; st2]) by exact Ha.
  assert (HlB1 : nodes wB !! st1 = Some (set_priv_data bsA snd1)).
  { unfold wB, wA. cbn. rewrite lookup_insert_ne by congruence.
    apply lookup_insert_eq. }
  assert (HlB2 : nodes wB !! st2 = Some (set_priv_data bsB snd2)).
  { unfold wB. cbn. apply lookup_insert_eq. }
  assert (Hhonor : (let* stnode := load_elem glstates 0 in
                    honor_glstate classes stnode;;
                    let* stnode0 := load_elem glstates (0 + 1) in
                    honor_glstate classes stnode0;; ret tt) w = Done tt wB).
  { step (load_elem_Done glstates 0 _ st1 w Ha (Z.le_refl 0) eq_refl).
    step HhA.
    step (load_elem_Done glstates (0 + 1) _ st2 wA HaA ltac:(lia) eq_refl).
    step HhB. reflexivity. }
  step Hhonor.
  (* first override restored, then the second one *)
  pose proof (restore_polygon classes st1 _ wB HlB1 Hid1 ltac:(cbn; lia)) as HrA.
  set (wC := world_after _ wB) in HrA.
  assert (HaC : arrays wC !! glstates = Some [st1; st2]) by exact Ha.
  assert (HlC2 : nodes wC !! st2 = Some (set_priv_data bsB snd2)) by exact HlB2.
  pose proof (restore_polygon classes st2 _ wC HlC2 Hid2 ltac:(cbn; lia)) as HrB.
  set (wD := world_after _ wC) in HrB.
  exists wD. split.
  - step (load_elem_Done glstates 0 _ st1 wB HaB (Z.le_refl 0) eq_refl).
    step HrA.
    step (load_elem_Done glstates (0 + 1) _ st2 wC HaC ltac:(lia) eq_refl).
    step HrB. reflexivity.
  - unfold wD. cbn [priv_data set_priv_data]. rewrite HwB1.
    unfold wA. reflexivity.
Qed.

Section ColorOverride.

Variable classes : Z -> node_class.
Variables (stnode : Z) (snd : ngl_node) (w : world).
Hypothesis Hl : nodes w !! stnode = Some snd.

(** The world in which the block of the override is [bs]. *)
Local Abbreviation at_block bs :=
  (set_nodes (<[stnode := set_priv_data bs snd]> (nodes w)) w).

Lemma st_store_at_block (bs : list Z) (f : glstate_field) (i v : Z) :
  0 <= glstate_offset f + 4 * i ->
  glstate_offset f + 4 * i + 4 <= Z.of_nat (length bs) ->
  exists bs',
    store_int bs (glstate_offset f + 4 * i) v = Some bs'
    /\ length bs' = length bs
    /\ st_store stnode f i v (at_block bs) = Done tt (at_block bs').
Proof.
  intros H0 H1.
  assert (Hlb : nodes (at_block bs) !! stnode = Some (set_priv_data bs snd))
    by (cbn; apply lookup_insert_eq).
  destruct (st_store_Done stnode f i v _ _ Hlb H0 H1) as (bs' & Hs & Hlen & Hrun).
  exists bs'. split; [exact Hs|]. split; [exact Hlen|].
  rewrite Hrun. cbn. now rewrite insert_insert_eq.
Qed.

Lemma st_load_at_block (bs : list Z) (f : glstate_field) (i : Z) :
  0 <= glstate_offset f + 4 * i ->
  glstate_offset f + 4 * i + 4 <= Z.of_nat (length bs) ->
  st_load stnode f i (at_block bs) = Done (glstate_word bs f i) (at_block bs).
Proof.
  intros H0 H1.
  assert (Hlb : nodes (at_block bs) !! stnode = Some (set_priv_data bs snd))
    by (cbn; apply lookup_insert_eq).
  exact (st_load_Done stnode f i _ _ Hlb H0 H1).
Qed.

Lemma at_block_id : at_block (priv_data snd) = w.
Proof.
  replace (set_priv_data (priv_data snd) snd) with snd by now destruct snd.
  rewrite (insert_id _ _ _ Hl). apply set_nodes_id.
Qed.

(** The arm of [ngli_honor_glstates] for the colour-mask override. *)
Lemma honor_color :
  id (classes (class snd)) = NGL_NODE_GLCOLORSTATE ->
  92 <= Z.of_nat (length (priv_data snd)) ->
  exists bs4,
    length bs4 = length (priv_data snd)
    /\ glstate_word bs4 rgba (4 * 1 + 0)
       = (gl_color_writemask (gl w)).1.1.1 mod 2 ^ 32
    /\ glstate_word bs4 rgba (4 * 1 + 1)
       = (gl_color_writemask (gl w)).1.1.2 mod 2 ^ 32
    /\ glstate_word bs4 rgba (4 * 1 + 2)
       = (gl_color_writemask (gl w)).1.2 mod 2 ^ 32
    /\ glstate_word bs4 rgba (4 * 1 + 3)
       = (gl_color_writemask (gl w)).2 mod 2 ^ 32
    /\ honor_glstate classes stnode w
       = Done tt
           (world_after
              (ngli_glColorMask
                 (glstate_word (priv_data snd) rgba (4 * 0 + 0))
                 (glstate_word (priv_data snd) rgba (4 * 0 + 1))
                 (glstate_word (priv_data snd) rgba (4 * 0 + 2))
                 (glstate_word (priv_data snd) rgba (4 * 0 + 3)))
              (at_block bs4)).
Proof.
  intros Hid Hlen.
  set (m := gl_color_writemask (gl w)).
  destruct (st_store_at_block (priv_data snd) rgba (4 * 1 + 0) m.1.1.1)
    as (bs1 & Hs1 & Hl1 & Hr1); [cbn; lia | cbn; lia |].
  destruct (st_store_at_block bs1 rgba (4 * 1 + 1) m.1.1.2)
    as (bs2 & Hs2 & Hl2 & Hr2); [cbn; lia | cbn; lia |].
  destruct (st_store_at_block bs2 rgba (4 * 1 + 2) m.1.2)
    as (bs3 & Hs3 & Hl3 & Hr3); [cbn; lia | cbn; lia |].
  destruct (st_store_at_block bs3 rgba (4 * 1 + 3) m.2)
    as (bs4 & Hs4 & Hl4 & Hr4); [cbn; lia | cbn; lia |].
  rewrite at_block_id in Hr1.
  assert (Hkeep : forall k,
             0 <= k < 4 ->
             glstate_word bs4 rgba k = glstate_word (priv_data snd) rgba k).
  { intros k Hk.
    rewrite (glstate_word_store_other _ _ _ _ _ _ _ Hs4) by (cbn; lia).
    rewrite (glstate_word_store_other _ _ _ _ _ _ _ Hs3) by (cbn; lia).
    rewrite (glstate_word_store_other _ _ _ _ _ _ _ Hs2) by (cbn; lia).
    now rewrite (glstate_word_store_other _ _ _ _ _ _ _ Hs1) by (cbn; lia). }
  exists bs4. split; [congruence|].
  split.
  { rewrite (glstate_word_store_other _ _ _ _ _ _ _ Hs4) by (cbn; lia).
    rewrite (glstate_word_store_other _ _ _ _ _ _ _ Hs3) by (cbn; lia).
    rewrite (glstate_word_store_other _ _ _ _ _ _ _ Hs2) by (cbn; lia).
    now rewrite (glstate_word_store_same _ _ _ _ _ Hs1) by (cbn; lia). }
  split.
  { rewrite (glstate_word_store_other _ _ _ _ _ _ _ Hs4) by (cbn; lia).
    rewrite (glstate_word_store_other _ _ _ _ _ _ _ Hs3) by (cbn; lia).
    now rewrite (glstate_word_store_same _ _ _ _ _ Hs2) by (cbn; lia). }
  split.
  { rewrite (glstate_word_store_other _ _ _ _ _ _ _ Hs4) by (cbn; lia).
    now rewrite (glstate_word_store_same _ _ _ _ _ Hs3) by (cbn; lia). }
  split.
  { now rewrite (glstate_word_store_same _ _ _ _ _ Hs4) by (cbn; lia). }
  unfold honor_glstate. step (get_node_Done _ _ _ Hl). cbv zeta.
  unfold class_of. rewrite Hid.
  change (NGL_NODE_GLCOLORSTATE =? NGL_NODE_GLBLENDSTATE) with false.
  change (NGL_NODE_GLCOLORSTATE =? NGL_NODE_GLCOLORSTATE) with true.
  cbv iota.
  step (eq_refl : ngli_glGetBooleanv_color_writemask w = Done m w).
  step Hr1. step Hr2. step Hr3. step Hr4.
  step (st_load_at_block bs4 rgba (4 * 0 + 0) ltac:(cbn; lia) ltac:(cbn; lia)).
  step (st_load_at_block bs4 rgba (4 * 0 + 1) ltac:(cbn; lia) ltac:(cbn; lia)).
  step (st_load_at_block bs4 rgba (4 * 0 + 2) ltac:(cbn; lia) ltac:(cbn; lia)).
  step (st_load_at_block bs4 rgba (4 * 0 + 3) ltac:(cbn; lia) ltac:(cbn; lia)).
  rewrite !Hkeep by lia. reflexivity.
Qed.

End ColorOverride.

Lemma restore_color (classes : Z -> node_class) (stnode : Z) (snd : ngl_node)
    (w : world) :
  nodes w !! stnode = Some snd ->
  id (classes (class snd)) = NGL_NODE_GLCOLORSTATE ->
  92 <= Z.of_nat (length (priv_data snd)) ->
  restore_glstate classes stnode w
  = Done tt
      (world_after
         (ngli_glColorMask
            (glstate_word (priv_data snd) rgba (4 * 1 + 0))
            (glstate_word (priv_data snd) rgba (4 * 1 + 1))
            (glstate_word (priv_data snd) rgba (4 * 1 + 2))
            (glstate_word (priv_data snd) rgba (4 * 1 + 3))) w).
Proof.
  intros Hl Hid Hlen.
  unfold restore_glstate. step (get_node_Done _ _ _ Hl). cbv zeta.
  unfold class_of. rewrite Hid.
  change (NGL_NODE_GLCOLORSTATE =? NGL_NODE_GLBLENDSTATE) with false.
  change (NGL_NODE_GLCOLORSTATE =? NGL_NODE_GLCOLORSTATE) with true.
  cbv iota.
  step (st_load_Done stnode rgba (4 * 1 + 0) _ w Hl ltac:(cbn; lia) ltac:(cbn; lia)).
  step (st_load_Done stnode rgba (4 * 1 + 1) _ w Hl ltac:(cbn; lia) ltac:(cbn; lia)).
  step (st_load_Done stnode rgba (4 * 1 + 2) _ w Hl ltac:(cbn; lia) ltac:(cbn; lia)).
  step (st_load_Done stnode rgba (4 * 1 + 3) _ w Hl ltac:(cbn; lia) ltac:(cbn; lia)).
  reflexivity.
Qed.

(** A colour-mask override is scoped to the draw.  For a node with one
    colour-mask override, applying the overrides and restoring them leaves
    the driver state exactly as it was (the four components of the write
    mask being booleans), whatever the configured mask is. *)
Theorem color_mask_override_round_trip (classes : Z -> node_class)
    (ctxp glstates stnode : Z) (snd : ngl_node) (w : world) :
  ctxp <> 0 ->
  arrays w !! glstates = Some [stnode] ->
  nodes w !! stnode = Some snd ->
  id (classes (class snd)) = NGL_NODE_GLCOLORSTATE ->
  92 <= Z.of_nat (length (priv_data snd)) ->
  (exists r g b a : bool,
      gl_color_writemask (gl w)
      = (Z.b2z r, Z.b2z g, Z.b2z b, Z.b2z a)) ->
  exists bs4,
    length bs4 = length (priv_data snd)
    /\ (ngli_honor_glstates classes ctxp 1 glstates;;
        ngli_restore_glstates classes ctxp 1 glstates) w
       = Done tt (set_nodes (<[stnode := set_priv_data bs4 snd]> (nodes w)) w).
Proof.
  intros Hctx Ha Hl Hid Hlen (r & g & b & a & Hm).
  destruct (honor_color classes stnode snd w Hl Hid Hlen)
    as (bs4 & Hl4 & Hw0 & Hw1 & Hw2 & Hw3 & Hh).
  exists bs4. split; [exact Hl4|].
  unfold ngli_honor_glstates, ngli_restore_glstates.
  apply Z.eqb_neq in Hctx. rewrite Hctx.
  change (Z.to_nat 1) with 1%nat. cbn [honor_glstates_loop restore_glstates_loop].
  set (w1 := set_nodes (<[stnode := set_priv_data bs4 snd]> (nodes w)) w) in *.
  set (w2 := world_after _ w1) in Hh.
  assert (Hrun : (let* stnode0 := load_elem glstates 0 in
                  honor_glstate classes stnode0;; ret tt) w = Done tt w2).
  { step (load_elem_Done glstates 0 [stnode] stnode w Ha (Z.le_refl 0) eq_refl).
    step Hh. reflexivity. }
  step Hrun.
  assert (Ha2 : arrays w2 !! glstates = Some [stnode]) by exact Ha.
  assert (Hl2 : nodes w2 !! stnode = Some (set_priv_data bs4 snd))
    by (unfold w2, w1; cbn; apply lookup_insert_eq).
  step (load_elem_Done glstates 0 [stnode] stnode w2 Ha2 (Z.le_refl 0) eq_refl).
  step (restore_color classes stnode _ w2 Hl2 Hid ltac:(cbn; lia)).
  cbn [ret priv_data set_priv_data]. rewrite Hw0, Hw1, Hw2, Hw3, Hm.
  cbn [fst Datatypes.snd].
  f_equal. unfold w2, w1, world_after, set_nodes. cbn. f_equal.
  destruct (gl w). cbn in *. subst. f_equal.
  destruct r, g, b, a; reflexivity.
Qed.

(** ** Timestamps that are not numbers *)

Lemma SFeqb_irrefl_nan (x : SpecFloat.spec_float) :
  SpecFloat.SFeqb x x = false -> x = SpecFloat.S754_nan.
Proof.
  destruct x as [s|s| |s m e]; try reflexivity; unfold SpecFloat.SFeqb; cbn.
  - discriminate.
  - destruct s; discriminate.
  - rewrite Z.compare_refl, Pos.compare_cont_refl. destruct s; discriminate.
Qed.

(** A value that differs from itself differs from every value. *)
Lemma double_ne_nan (t a : float) :
  PrimFloat.eqb t t = false -> double_ne a t = true.
Proof.
  unfold double_ne. rewrite !FloatAxioms.eqb_spec. intros H.
  apply SFeqb_irrefl_nan in H. rewrite H.
  unfold SpecFloat.SFeqb. now destruct (FloatOps.Prim2SF a).
Qed.

(** With a timestamp that is not a number ([t != t]) both gates on
    timestamps are defeated: [ngli_node_honor_release_prefetch] returns 0
    without touching anything, for every node, even one that was just visited
    at [t] (so a frame at such a timestamp prefetches and releases nothing);
    and [ngli_node_update] of an initialized node whose class has an update
    callback always takes the path that prefetches and runs the callback,
    whatever [last_update_time] holds. *)
Theorem nan_timestamp_defeats_gates (classes : Z -> node_class) (e : engine)
    (node : Z) (t : float) (nd : ngl_node) (w : world) :
  PrimFloat.eqb t t = false ->
  nodes w !! node = Some nd ->
  ngli_node_honor_release_prefetch classes e node t w = Done 0 w
  /\ (state nd <> STATE_UNINITIALIZED ->
      forall cb,
        update (classes (class nd)) = Some cb ->
        ngli_node_update classes e node t w
        = (let* r := (let* r := node_prefetch classes e node in
                      if r <? 0 then ret r
                      else LOG (LOG_UPDATE node t);; cb e node t) in
           if r <? 0 then ret r
           else modify_node node (set_last_update_time t);; ret 0) w).
Proof.
  intros Ht Hl. split.
  - unfold ngli_node_honor_release_prefetch, bind.
    rewrite (get_node_Done _ _ _ Hl). now rewrite (double_ne_nan t _ Ht).
  - intros Hs cb Hu. unfold ngli_node_update.
    unfold bind at 1. rewrite (init_noop classes e _ _ _ Hl Hs). cbn [Z.ltb Z.compare].
    unfold bind at 1. rewrite (get_node_Done _ _ _ Hl).
    unfold class_of. rewrite Hu. now rewrite (double_ne_nan t _ Ht).
Qed.

(** ** Changing the owner of a node *)

Lemma base_children_none (f : Z -> M Z) (node : Z) (nd : ngl_node)
    (w : world) :
  nodes w !! node = Some nd ->
  nb_glstates nd = 0 ->
  for_each_child f (BASE_NODE node) ngli_base_node_params w = Done 0 w.
Proof.
  intros Hl Hn. cbn. unfold bind, get_node. rewrite Hl. cbn.
  rewrite Hl. cbn. rewrite Hn. reflexivity.
Qed.

Lemma attach_children_leaf (classes : Z -> node_class) (e : engine)
    (node c : Z) (nd : ngl_node) (w : world) :
  nodes w !! node = Some nd ->
  leaf_schema (schema (params (classes (class nd)))) ->
  nb_glstates nd = 0 ->
  attach_children classes e node c w = Done 0 w.
Proof.
  intros Hl Hleaf Hn. unfold attach_children.
  step (get_node_Done _ _ _ Hl).
  step (for_each_child_leaf (fun child => call_attach_ctx e child c)
          (BASE_PRIV node) _ w Hleaf).
  change (0 <? 0) with false. cbv iota.
  step (base_children_none (fun child => call_attach_ctx e child c)
          node nd w Hl Hn).
  reflexivity.
Qed.

(** A node changes owner through a detach.  For a node without children
    (no node-typed parameter, no state override), [ngli_node_detach_ctx]
    followed by [ngli_node_attach_ctx] to any context succeeds: the node has
    been uninitialized, and its context is the new one. *)
Theorem detach_then_attach_leaf (classes : Z -> node_class) (e : engine)
    (node c : Z) (w w0 : world) (nd0 : ngl_node) :
  c <> 0 ->
  node_uninit classes e node w = Done tt w0 ->
  nodes w0 !! node = Some nd0 ->
  leaf_schema (schema (params (classes (class nd0)))) ->
  nb_glstates nd0 = 0 ->
  (ngli_node_detach_ctx classes e node;;
   ngli_node_attach_ctx classes e node c) w
  = Done 0 (set_nodes (<[node := set_ctx c nd0]> (nodes w0)) w0)
  /\ state nd0 = STATE_UNINITIALIZED.
Proof.
  intros Hc Hu Hl0 Hleaf Hn.
  destruct (uninit_Done_state _ _ _ _ _ _ Hu) as (nd0' & Hl0' & Hs0).
  rewrite Hl0 in Hl0'. inversion Hl0'; subst nd0'. split; [|exact Hs0].
  assert (Hlw : exists nd, nodes w !! node = Some nd).
  { unfold node_uninit, bind, get_node in Hu.
    destruct (nodes w !! node) as [nd|]; [eauto | discriminate]. }
  destruct Hlw as [nd Hlw].
  set (w1 := set_nodes (<[node := set_ctx 0 nd0]> (nodes w0)) w0).
  assert (Hl1 : nodes w1 !! node = Some (set_ctx 0 nd0))
    by (unfold w1; cbn; apply lookup_insert_eq).
  assert (Hd : node_set_ctx classes e node 0 w = Done 0 w1).
  { unfold node_set_ctx. unfold bind at 1. rewrite (get_node_Done _ _ _ Hlw).
    cbn [Z.eqb negb]. unfold bind at 1. unfold bind at 1. rewrite Hu.
    unfold bind at 1. rewrite (modify_node_Done _ _ _ _ Hl0). cbn [ret].
    fold w1. rewrite node_set_ctx_children.
    now apply attach_children_leaf with (set_ctx 0 nd0). }
  unfold ngli_node_detach_ctx. unfold bind at 1. unfold bind at 1.
  rewrite Hd. cbn [Z.eqb ngli_assert ret].
  unfold ngli_node_attach_ctx.
  rewrite (node_set_ctx_cases classes e node c _ w1 Hc Hl1).
  cbn [ctx set_ctx Z.eqb].
  rewrite (attach_children_leaf classes e node c (set_ctx c nd0)).
  - f_equal. unfold w1. cbn. now rewrite insert_insert_eq.
  - cbn. apply lookup_insert_eq.
  - exact Hleaf.
  - exact Hn.
Qed.

(** ** One traversal, written three times *)

(** The loops over the parameters in [node_set_children_ctx],
    [ngli_node_visit] and [ngli_node_honor_release_prefetch] are the same
    traversal: each calls its operation on the children named by the
    node-typed fields in schema order (a single reference unless it is
    null, the elements of a list, the entries of a map unless the map is
    null) and stops at the first negative result. *)
Theorem traversals_agree (e : engine) (node c : Z) (t : float)
    (base : base_ptr) (params : list node_param) (w : world) :
  node_set_children_ctx_loop e base params c w
  = for_each_child (fun child => call_attach_ctx e child c) base params w
  /\ visit_params e node t params w
     = for_each_child (fun child => call_visit e child node t)
         (BASE_PRIV node) params w
  /\ honor_release_prefetch_params e node t params w
     = for_each_child (fun child => call_honor_release_prefetch e child t)
         (BASE_PRIV node) params w.
Proof.
  split; [apply node_set_children_ctx_walk|].
  split; [apply visit_params_walk | apply honor_release_prefetch_params_walk].
Qed.

(** ** Blend and stencil overrides that keep the enable bit *)

Section BlendOverride.

Variable classes : Z -> node_class.
Variables (stnode : Z) (snd : ngl_node) (w : world).
Hypothesis Hl : nodes w !! stnode = Some snd.

Local Abbreviation at_block bs :=
  (set_nodes (<[stnode := set_priv_data bs snd]> (nodes w)) w).

Lemma st_get_integer_at_block (bs : list Z) (pname v : Z) (f : glstate_field)
    (i : Z) :
  ngli_glGetIntegerv pname (at_block bs) = Done v (at_block bs) ->
  0 <= glstate_offset f + 4 * i ->
  glstate_offset f + 4 * i + 4 <= Z.of_nat (length bs) ->
  exists bs',
    store_int bs (glstate_offset f + 4 * i) v = Some bs'
    /\ length bs' = length bs
    /\ st_get_integer pname stnode f i (at_block bs) = Done tt (at_block bs').
Proof.
  intros Hg H0 H1.
  destruct (st_store_at_block stnode snd w bs f i v H0 H1)
    as (bs' & Hs & Hlen & Hrun).
  exists bs'. split; [exact Hs|]. split; [exact Hlen|].
  unfold st_get_integer. step Hg. exact Hrun.
Qed.

(** The arm of [ngli_honor_glstates] for a blend override that enables
    blending. *)
Lemma honor_blend_on :
  id (classes (class snd)) = NGL_NODE_GLBLENDSTATE ->
  60 <= Z.of_nat (length (priv_data snd)) ->
  glstate_word (priv_data snd) capability 0 ∉ value_pnames ->
  glstate_word (priv_data snd) enabled 0 <> 0 ->
  let cap := glstate_word (priv_data snd) capability 0 in
  let word := glstate_word (priv_data snd) in
  exists bs7,
    length bs7 = length (priv_data snd)
    /\ glstate_word bs7 capability 0 = cap
    /\ glstate_word bs7 enabled 1
       = (if bool_decide (cap ∈ gl_caps (gl w)) then 1 else 0)
    /\ glstate_word bs7 src_rgb 1 = gl_blend_src_rgb (gl w) mod 2 ^ 32
    /\ glstate_word bs7 dst_rgb 1 = gl_blend_dst_rgb (gl w) mod 2 ^ 32
    /\ glstate_word bs7 src_alpha 1 = gl_blend_src_alpha (gl w) mod 2 ^ 32
    /\ glstate_word bs7 dst_alpha 1 = gl_blend_dst_alpha (gl w) mod 2 ^ 32
    /\ glstate_word bs7 mode_rgb 1 = gl_blend_equation_rgb (gl w) mod 2 ^ 32
    /\ glstate_word bs7 mode_alpha 1
       = gl_blend_equation_alpha (gl w) mod 2 ^ 32
    /\ honor_glstate classes stnode w
       = Done tt
           (world_after
              (ngli_glEnable cap;;
               ngli_glBlendFuncSeparate (word src_rgb 0) (word dst_rgb 0)
                 (word src_alpha 0) (word dst_alpha 0);;
               ngli_glBlendEquationSeparate (word mode_rgb 0)
                 (word mode_alpha 0))
              (at_block bs7)).
Proof.
  intros Hid Hlen Hcap He0 cap word.
  set (e1 := if bool_decide (cap ∈ gl_caps (gl w)) then 1 else 0).
  assert (He1 : e1 mod 2 ^ 32 = e1) by (unfold e1; now destruct (bool_decide _)).
  destruct (st_get_integer_at_block (priv_data snd) cap e1 enabled 1)
    as (bs1 & Hs1 & Hl1 & Hr1);
    [exact (glGetIntegerv_capability cap _ Hcap) | cbn; lia | cbn; lia |].
  rewrite (at_block_id stnode snd w Hl) in Hr1.
  destruct (st_get_integer_at_block bs1 GL_BLEND_SRC_RGB
              (gl_blend_src_rgb (gl w)) src_rgb 1)
    as (bs2 & Hs2 & Hl2 & Hr2); [reflexivity | cbn; lia | cbn; lia |].
  destruct (st_get_integer_at_block bs2 GL_BLEND_DST_RGB
              (gl_blend_dst_rgb (gl w)) dst_rgb 1)
    as (bs3 & Hs3 & Hl3 & Hr3); [reflexivity | cbn; lia | cbn; lia |].
  destruct (st_get_integer_at_block bs3 GL_BLEND_SRC_ALPHA
              (gl_blend_src_alpha (gl w)) src_alpha 1)
    as (bs4 & Hs4 & Hl4 & Hr4); [reflexivity | cbn; lia | cbn; lia |].
  destruct (st_get_integer_at_block bs4 GL_BLEND_DST_ALPHA
              (gl_blend_dst_alpha (gl w)) dst_alpha 1)
    as (bs5 & Hs5 & Hl5 & Hr5); [reflexivity | cbn; lia | cbn; lia |].
  destruct (st_get_integer_at_block bs5 GL_BLEND_EQUATION_RGB
              (gl_blend_equation_rgb (gl w)) mode_rgb 1)
    as (bs6 & Hs6 & Hl6 & Hr6); [reflexivity | cbn; lia | cbn; lia |].
  destruct (st_get_integer_at_block bs6 GL_BLEND_EQUATION_ALPHA
              (gl_blend_equation_alpha (gl w)) mode_alpha 1)
    as (bs7 & Hs7 & Hl7 & Hr7); [reflexivity | cbn; lia | cbn; lia |].
  (* the words of the final block *)
  assert (Hw : forall g k,
             0 <= glstate_offset g + 4 * k ->
             glstate_word bs7 g k
             = if glstate_offset g + 4 * k =? glstate_offset mode_alpha + 4 * 1
               then gl_blend_equation_alpha (gl w) mod 2 ^ 32
               else if glstate_offset g + 4 * k
                       =? glstate_offset mode_rgb + 4 * 1
               then gl_blend_equation_rgb (gl w) mod 2 ^ 32
               else if glstate_offset g + 4 * k
                       =? glstate_offset dst_alpha + 4 * 1
               then gl_blend_dst_alpha (gl w) mod 2 ^ 32
               else if glstate_offset g + 4 * k
                       =? glstate_offset src_alpha + 4 * 1
               then gl_blend_src_alpha (gl w) mod 2 ^ 32
               else if glstate_offset g + 4 * k
                       =? glstate_offset dst_rgb + 4 * 1
               then gl_blend_dst_rgb (gl w) mod 2 ^ 32
               else if glstate_offset g + 4 * k
                       =? glstate_offset src_rgb + 4 * 1
               then gl_blend_src_rgb (gl w) mod 2 ^ 32
               else if glstate_offset g + 4 * k
                       =? glstate_offset enabled + 4 * 1
               then e1 mod 2 ^ 32
               else glstate_word (priv_data snd) g k).
  { intros g k Hk.
    rewrite (glstate_word_store _ _ _ _ _ _ _ Hs7 Hk).
    destruct (_ =? _); [reflexivity|].
    rewrite (glstate_word_store _ _ _ _ _ _ _ Hs6 Hk).
    destruct (_ =? _); [reflexivity|].
    rewrite (glstate_word_store _ _ _ _ _ _ _ Hs5 Hk).
    destruct (_ =? _); [reflexivity|].
    rewrite (glstate_word_store _ _ _ _ _ _ _ Hs4 Hk).
    destruct (_ =? _); [reflexivity|].
    rewrite (glstate_word_store _ _ _ _ _ _ _ Hs3 Hk).
    destruct (_ =? _); [reflexivity|].
    rewrite (glstate_word_store _ _ _ _ _ _ _ Hs2 Hk).
    destruct (_ =? _); [reflexivity|].
    now rewrite (glstate_word_store _ _ _ _ _ _ _ Hs1 Hk). }
  assert (Hcfg : forall g, In g [capability; src_rgb; dst_rgb; src_alpha;
                                 dst_alpha; mode_rgb; mode_alpha] ->
                           glstate_word bs7 g 0 = word g 0).
  { intros g Hg. cbn in Hg.
    destruct Hg as [<-|[<-|[<-|[<-|[<-|[<-|[<-|[]]]]]]]];
      (rewrite Hw by (cbn; lia)); reflexivity. }
  exists bs7. split; [congruence|].
  split; [apply Hcfg; cbn; tauto|].
  split; [rewrite Hw by (cbn; lia); exact He1|].
  do 6 (split; [now rewrite Hw by (cbn; lia)|]).
  unfold honor_glstate. step (get_node_Done _ _ _ Hl). cbv zeta.
  unfold class_of. rewrite Hid.
  change (NGL_NODE_GLBLENDSTATE =? NGL_NODE_GLBLENDSTATE) with true. cbv iota.
  step (st_load_Done stnode capability 0 snd w Hl ltac:(cbn; lia) ltac:(cbn; lia)).
  fold cap. step Hr1.
  step (st_load_at_block stnode snd w bs1 enabled 0 ltac:(cbn; lia) ltac:(cbn; lia)).
  rewrite (glstate_word_store_other _ _ _ _ _ _ _ Hs1) by (cbn; lia).
  replace (glstate_word (priv_data snd) enabled 0 =? 0) with false
    by (symmetry; now apply Z.eqb_neq).
  cbn [negb]. step Hr2. step Hr3. step Hr4. step Hr5. step Hr6. step Hr7.
  step (st_load_at_block stnode snd w bs7 capability 0 ltac:(cbn; lia) ltac:(cbn; lia)).
  rewrite (Hcfg capability) by (cbn; tauto). fold cap.
  set (W1 := world_after (ngli_glEnable cap) (at_block bs7)).
  step (eq_refl : ngli_glEnable cap (at_block bs7) = Done tt W1).
  assert (Hl1' : nodes W1 !! stnode = Some (set_priv_data bs7 snd))
    by (cbn; apply lookup_insert_eq).
  step (st_load_Done stnode src_rgb 0 _ W1 Hl1' ltac:(cbn; lia) ltac:(cbn; lia)).
  step (st_load_Done stnode dst_rgb 0 _ W1 Hl1' ltac:(cbn; lia) ltac:(cbn; lia)).
  step (st_load_Done stnode src_alpha 0 _ W1 Hl1' ltac:(cbn; lia) ltac:(cbn; lia)).
  step (st_load_Done stnode dst_alpha 0 _ W1 Hl1' ltac:(cbn; lia) ltac:(cbn; lia)).
  cbn [priv_data set_priv_data].
  rewrite !Hcfg by (cbn; tauto).
  set (W2 := world_after
               (ngli_glBlendFuncSeparate (word src_rgb 0) (word dst_rgb 0)
                  (word src_alpha 0) (word dst_alpha 0)) W1).
  step (eq_refl : ngli_glBlendFuncSeparate (word src_rgb 0) (word dst_rgb 0)
                    (word src_alpha 0) (word dst_alpha 0) W1 = Done tt W2).
  assert (Hl2' : nodes W2 !! stnode = Some (set_priv_data bs7 snd))
    by (cbn; apply lookup_insert_eq).
  step (st_load_Done stnode mode_rgb 0 _ W2 Hl2' ltac:(cbn; lia) ltac:(cbn; lia)).
  step (st_load_Done stnode mode_alpha 0 _ W2 Hl2' ltac:(cbn; lia) ltac:(cbn; lia)).
  cbn [priv_data set_priv_data].
  rewrite !Hcfg by (cbn; tauto).
  reflexivity.
Qed.

(** The arm of [ngli_honor_glstates] for a blend or stencil override that
    disables the capability. *)
Lemma honor_off :
  id (classes (class snd)) = NGL_NODE_GLBLENDSTATE
  \/ id (classes (class snd)) = NGL_NODE_GLSTENCILSTATE ->
  12 <= Z.of_nat (length (priv_data snd)) ->
  glstate_word (priv_data snd) capability 0 ∉ value_pnames ->
  glstate_word (priv_data snd) enabled 0 = 0 ->
  let cap := glstate_word (priv_data snd) capability 0 in
  exists bs1,
    length bs1 = length (priv_data snd)
    /\ glstate_word bs1 capability 0 = cap
    /\ glstate_word bs1 enabled 1
       = (if bool_decide (cap ∈ gl_caps (gl w)) then 1 else 0)
    /\ (forall g k,
          0 <= glstate_offset g + 4 * k ->
          glstate_offset g + 4 * k <> glstate_offset enabled + 4 * 1 ->
          glstate_word bs1 g k = glstate_word (priv_data snd) g k)
    /\ honor_glstate classes stnode w
       = Done tt (world_after (ngli_glDisable cap) (at_block bs1)).
Proof.
  intros Hid Hlen Hcap He0 cap.
  set (e1 := if bool_decide (cap ∈ gl_caps (gl w)) then 1 else 0).
  assert (He1 : e1 mod 2 ^ 32 = e1) by (unfold e1; now destruct (bool_decide _)).
  destruct (st_get_integer_at_block (priv_data snd) cap e1 enabled 1)
    as (bs1 & Hs1 & Hl1 & Hr1);
    [exact (glGetIntegerv_capability cap _ Hcap) | cbn; lia | cbn; lia |].
  rewrite (at_block_id stnode snd w Hl) in Hr1.
  pose proof (glstate_word_store_other _ _ enabled capability 1 0 e1 Hs1
                ltac:(cbn; lia) ltac:(cbn; lia)) as Hw0.
  pose proof (glstate_word_store_other _ _ enabled enabled 1 0 e1 Hs1
                ltac:(cbn; lia) ltac:(cbn; lia)) as Hw1.
  pose proof (glstate_word_store_same _ _ enabled 1 e1 Hs1
                ltac:(cbn; lia)) as Hw2.
  rewrite He1 in Hw2.
  exists bs1. repeat (split; [assumption|]).
  split.
  { intros g k Hk Hne.
    exact (glstate_word_store_other _ _ _ _ _ _ _ Hs1 Hk Hne). }
  unfold honor_glstate. step (get_node_Done _ _ _ Hl). cbv zeta.
  unfold class_of.
  destruct Hid as [Hid|Hid]; rewrite Hid.
  - change (NGL_NODE_GLBLENDSTATE =? NGL_NODE_GLBLENDSTATE) with true. cbv iota.
    step (st_load_Done stnode capability 0 snd w Hl ltac:(cbn; lia) ltac:(cbn; lia)).
    fold cap. step Hr1.
    step (st_load_at_block stnode snd w bs1 enabled 0 ltac:(cbn; lia) ltac:(cbn; lia)).
    rewrite Hw1, He0. cbn [Z.eqb negb].
    step (st_load_at_block stnode snd w bs1 capability 0 ltac:(cbn; lia) ltac:(cbn; lia)).
    rewrite Hw0. reflexivity.
  - change (NGL_NODE_GLSTENCILSTATE =? NGL_NODE_GLBLENDSTATE) with false.
    change (NGL_NODE_GLSTENCILSTATE =? NGL_NODE_GLCOLORSTATE) with false.
    change (NGL_NODE_GLSTENCILSTATE =? NGL_NODE_GLPOLYGONMODESTATE) with false.
    change (NGL_NODE_GLSTENCILSTATE =? NGL_NODE_GLSTENCILSTATE) with true.
    cbv iota.
    step (st_load_Done stnode capability 0 snd w Hl ltac:(cbn; lia) ltac:(cbn; lia)).
    fold cap. step Hr1.
    step (st_load_at_block stnode snd w bs1 enabled 0 ltac:(cbn; lia) ltac:(cbn; lia)).
    rewrite Hw1, He0. cbn [Z.eqb negb].
    step (st_load_at_block stnode snd w bs1 capability 0 ltac:(cbn; lia) ltac:(cbn; lia)).
    rewrite Hw0. reflexivity.
Qed.

(** The arms of [ngli_restore_glstates] for a blend override. *)
Lemma restore_blend :
  id (classes (class snd)) = NGL_NODE_GLBLENDSTATE ->
  60 <= Z.of_nat (length (priv_data snd)) ->
  let cap := glstate_word (priv_data snd) capability 0 in
  let word := glstate_word (priv_data snd) in
  restore_glstate classes stnode w
  = Done tt
      (world_after
         (if negb (word enabled 1 =? 0) then
            ngli_glEnable cap;;
            ngli_glBlendFuncSeparate (word src_rgb 1) (word dst_rgb 1)
              (word src_alpha 1) (word dst_alpha 1);;
            ngli_glBlendEquationSeparate (word mode_rgb 1) (word mode_alpha 1)
          else ngli_glDisable cap) w).
Proof.
  intros Hid Hlen cap word.
  unfold restore_glstate. step (get_node_Done _ _ _ Hl). cbv zeta.
  unfold class_of. rewrite Hid.
  change (NGL_NODE_GLBLENDSTATE =? NGL_NODE_GLBLENDSTATE) with true. cbv iota.
  step (st_load_Done stnode enabled 1 snd w Hl ltac:(cbn; lia) ltac:(cbn; lia)).
  step (st_load_Done stnode capability 0 snd w Hl ltac:(cbn; lia) ltac:(cbn; lia)).
  fold cap word. destruct (negb (word enabled 1 =? 0)); [|reflexivity].
  set (W1 := world_after (ngli_glEnable cap) w).
  step (eq_refl : ngli_glEnable cap w = Done tt W1).
  assert (Hl1 : nodes W1 !! stnode = Some snd) by exact Hl.
  step (st_load_Done stnode src_rgb 1 _ W1 Hl1 ltac:(cbn; lia) ltac:(cbn; lia)).
  step (st_load_Done stnode dst_rgb 1 _ W1 Hl1 ltac:(cbn; lia) ltac:(cbn; lia)).
  step (st_load_Done stnode src_alpha 1 _ W1 Hl1 ltac:(cbn; lia) ltac:(cbn; lia)).
  step (st_load_Done stnode dst_alpha 1 _ W1 Hl1 ltac:(cbn; lia) ltac:(cbn; lia)).
  fold word.
  set (W2 := world_after
               (ngli_glBlendFuncSeparate (word src_rgb 1) (word dst_rgb 1)
                  (word src_alpha 1) (word dst_alpha 1)) W1).
  step (eq_refl : ngli_glBlendFuncSeparate (word src_rgb 1) (word dst_rgb 1)
                    (word src_alpha 1) (word dst_alpha 1) W1 = Done tt W2).
  assert (Hl2 : nodes W2 !! stnode = Some snd) by exact Hl.
  step (st_load_Done stnode mode_rgb 1 _ W2 Hl2 ltac:(cbn; lia) ltac:(cbn; lia)).
  step (st_load_Done stnode mode_alpha 1 _ W2 Hl2 ltac:(cbn; lia) ltac:(cbn; lia)).
  reflexivity.
Qed.

(** The arm of [ngli_honor_glstates] for a stencil override that enables
    the stencil test. *)
Lemma honor_stencil_on :
  id (classes (class snd)) = NGL_NODE_GLSTENCILSTATE ->
  156 <= Z.of_nat (length (priv_data snd)) ->
  glstate_word (priv_data snd) capability 0 ∉ value_pnames ->
  glstate_word (priv_data snd) enabled 0 <> 0 ->
  let cap := glstate_word (priv_data snd) capability 0 in
  let word := glstate_word (priv_data snd) in
  exists bs8,
    length bs8 = length (priv_data snd)
    /\ glstate_word bs8 capability 0 = cap
    /\ glstate_word bs8 enabled 1
       = (if bool_decide (cap ∈ gl_caps (gl w)) then 1 else 0)
    /\ glstate_word bs8 writemask 1 = gl_stencil_writemask (gl w) mod 2 ^ 32
    /\ glstate_word bs8 func 1 = gl_stencil_func (gl w) mod 2 ^ 32
    /\ glstate_word bs8 func_ref 1 = gl_stencil_ref (gl w) mod 2 ^ 32
    /\ glstate_word bs8 func_mask 1 = gl_stencil_value_mask (gl w) mod 2 ^ 32
    /\ glstate_word bs8 op_sfail 1 = gl_stencil_fail (gl w) mod 2 ^ 32
    /\ glstate_word bs8 op_dpfail 1
       = gl_stencil_pass_depth_fail (gl w) mod 2 ^ 32
    /\ glstate_word bs8 op_dppass 1
       = gl_stencil_pass_depth_pass (gl w) mod 2 ^ 32
    /\ honor_glstate classes stnode w
       = Done tt
           (world_after
              (ngli_glEnable cap;;
               ngli_glStencilMask (word writemask 0);;
               ngli_glStencilFunc (word func 0) (word func_ref 0)
                 (word func_mask 0);;
               ngli_glStencilOp (word op_sfail 0) (word op_dpfail 0)
                 (word op_dppass 0))
              (at_block bs8)).
Proof.
  intros Hid Hlen Hcap He0 cap word.
  set (e1 := if bool_decide (cap ∈ gl_caps (gl w)) then 1 else 0).
  assert (He1 : e1 mod 2 ^ 32 = e1) by (unfold e1; now destruct (bool_decide _)).
  destruct (st_get_integer_at_block (priv_data snd) cap e1 enabled 1)
    as (bs1 & Hs1 & Hl1 & Hr1);
    [exact (glGetIntegerv_capability cap _ Hcap) | cbn; lia | cbn; lia |].
  rewrite (at_block_id stnode snd w Hl) in Hr1.
  destruct (st_get_integer_at_block bs1 GL_STENCIL_WRITEMASK
              (gl_stencil_writemask (gl w)) writemask 1)
    as (bs2 & Hs2 & Hl2 & Hr2); [reflexivity | cbn; lia | cbn; lia |].
  destruct (st_get_integer_at_block bs2 GL_STENCIL_FUNC
              (gl_stencil_func (gl w)) func 1)
    as (bs3 & Hs3 & Hl3 & Hr3); [reflexivity | cbn; lia | cbn; lia |].
  destruct (st_get_integer_at_block bs3 GL_STENCIL_REF
              (gl_stencil_ref (gl w)) func_ref 1)
    as (bs4 & Hs4 & Hl4 & Hr4); [reflexivity | cbn; lia | cbn; lia |].
  destruct (st_get_integer_at_block bs4 GL_STENCIL_VALUE_MASK
              (gl_stencil_value_mask (gl w)) func_mask 1)
    as (bs5 & Hs5 & Hl5 & Hr5); [reflexivity | cbn; lia | cbn; lia |].
  destruct (st_get_integer_at_block bs5 GL_STENCIL_FAIL
              (gl_stencil_fail (gl w)) op_sfail 1)
    as (bs6 & Hs6 & Hl6 & Hr6); [reflexivity | cbn; lia | cbn; lia |].
  destruct (st_get_integer_at_block bs6 GL_STENCIL_PASS_DEPTH_FAIL
              (gl_stencil_pass_depth_fail (gl w)) op_dpfail 1)
    as (bs7 & Hs7 & Hl7 & Hr7); [reflexivity | cbn; lia | cbn; lia |].
  destruct (st_get_integer_at_block bs7 GL_STENCIL_PASS_DEPTH_PASS
              (gl_stencil_pass_depth_pass (gl w)) op_dppass 1)
    as (bs8 & Hs8 & Hl8 & Hr8); [reflexivity | cbn; lia | cbn; lia |].
  assert (Hw : forall g k,
             0 <= glstate_offset g + 4 * k ->
             glstate_word bs8 g k
             = if glstate_offset g + 4 * k =? glstate_offset op_dppass + 4 * 1
               then gl_stencil_pass_depth_pass (gl w) mod 2 ^ 32
               else if glstate_offset g + 4 * k
                       =? glstate_offset op_dpfail + 4 * 1
               then gl_stencil_pass_depth_fail (gl w) mod 2 ^ 32
               else if glstate_offset g + 4 * k
                       =? glstate_offset op_sfail + 4 * 1
               then gl_stencil_fail (gl w) mod 2 ^ 32
               else if glstate_offset g + 4 * k
                       =? glstate_offset func_mask + 4 * 1
               then gl_stencil_value_mask (gl w) mod 2 ^ 32
               else if glstate_offset g + 4 * k
                       =? glstate_offset func_ref + 4 * 1
               then gl_stencil_ref (gl w) mod 2 ^ 32
               else if glstate_offset g + 4 * k
                       =? glstate_offset func + 4 * 1
               then gl_stencil_func (gl w) mod 2 ^ 32
               else if glstate_offset g + 4 * k
                       =? glstate_offset writemask + 4 * 1
               then gl_stencil_writemask (gl w) mod 2 ^ 32
               else if glstate_offset g + 4 * k
                       =? glstate_offset enabled + 4 * 1
               then e1 mod 2 ^ 32
               else glstate_word (priv_data snd) g k).
  { intros g k Hk.
    rewrite (glstate_word_store _ _ _ _ _ _ _ Hs8 Hk).
    destruct (_ =? _); [reflexivity|].
    rewrite (glstate_word_store _ _ _ _ _ _ _ Hs7 Hk).
    destruct (_ =? _); [reflexivity|].
    rewrite (glstate_word_store _ _ _ _ _ _ _ Hs6 Hk).
    destruct (_ =? _); [reflexivity|].
    rewrite (glstate_word_store _ _ _ _ _ _ _ Hs5 Hk).
    destruct (_ =? _); [reflexivity|].
    rewrite (glstate_word_store _ _ _ _ _ _ _ Hs4 Hk).
    destruct (_ =? _); [reflexivity|].
    rewrite (glstate_word_store _ _ _ _ _ _ _ Hs3 Hk).
    destruct (_ =? _); [reflexivity|].
    rewrite (glstate_word_store _ _ _ _ _ _ _ Hs2 Hk).
    destruct (_ =? _); [reflexivity|].
    now rewrite (glstate_word_store _ _ _ _ _ _ _ Hs1 Hk). }
  assert (Hcfg : forall g, In g [capability; writemask; func; func_ref;
                                 func_mask; op_sfail; op_dpfail; op_dppass] ->
                           glstate_word bs8 g 0 = word g 0).
  { intros g Hg. cbn in Hg.
    destruct Hg as [<-|[<-|[<-|[<-|[<-|[<-|[<-|[<-|[]]]]]]]]];
      (rewrite Hw by (cbn; lia)); reflexivity. }
  exists bs8. split; [congruence|].
  split; [apply Hcfg; cbn; tauto|].
  split; [rewrite Hw by (cbn; lia); exact He1|].
  do 7 (split; [now rewrite Hw by (cbn; lia)|]).
  unfold honor_glstate. step (get_node_Done _ _ _ Hl). cbv zeta.
  unfold class_of. rewrite Hid.
  change (NGL_NODE_GLSTENCILSTATE =? NGL_NODE_GLBLENDSTATE) with false.
  change (NGL_NODE_GLSTENCILSTATE =? NGL_NODE_GLCOLORSTATE) with false.
  change (NGL_NODE_GLSTENCILSTATE =? NGL_NODE_GLPOLYGONMODESTATE) with false.
  change (NGL_NODE_GLSTENCILSTATE =? NGL_NODE_GLSTENCILSTATE) with true.
  cbv iota.
  step (st_load_Done stnode capability 0 snd w Hl ltac:(cbn; lia) ltac:(cbn; lia)).
  fold cap. step Hr1.
  step (st_load_at_block stnode snd w bs1 enabled 0 ltac:(cbn; lia) ltac:(cbn; lia)).
  rewrite (glstate_word_store_other _ _ _ _ _ _ _ Hs1) by (cbn; lia).
  replace (glstate_word (priv_data snd) enabled 0 =? 0) with false
    by (symmetry; now apply Z.eqb_neq).
  cbn [negb].
  step Hr2. step Hr3. step Hr4. step Hr5. step Hr6. step Hr7. step Hr8.
  step (st_load_at_block stnode snd w bs8 capability 0 ltac:(cbn; lia) ltac:(cbn; lia)).
  rewrite (Hcfg capability) by (cbn; tauto). fold cap.
  set (W1 := world_after (ngli_glEnable cap) (at_block bs8)).
  step (eq_refl : ngli_glEnable cap (at_block bs8) = Done tt W1).
  assert (Hl1' : nodes W1 !! stnode = Some (set_priv_data bs8 snd))
    by (cbn; apply lookup_insert_eq).
  step (st_load_Done stnode writemask 0 _ W1 Hl1' ltac:(cbn; lia) ltac:(cbn; lia)).
  cbn [priv_data set_priv_data]. rewrite !Hcfg by (cbn; tauto).
  set (W2 := world_after (ngli_glStencilMask (word writemask 0)) W1).
  step (eq_refl : ngli_glStencilMask (word writemask 0) W1 = Done tt W2).
  assert (Hl2' : nodes W2 !! stnode = Some (set_priv_data bs8 snd))
    by (cbn; apply lookup_insert_eq).
  step (st_load_Done stnode func 0 _ W2 Hl2' ltac:(cbn; lia) ltac:(cbn; lia)).
  step (st_load_Done stnode func_ref 0 _ W2 Hl2' ltac:(cbn; lia) ltac:(cbn; lia)).
  step (st_load_Done stnode func_mask 0 _ W2 Hl2' ltac:(cbn; lia) ltac:(cbn; lia)).
  cbn [priv_data set_priv_data]. rewrite !Hcfg by (cbn; tauto).
  set (W3 := world_after
               (ngli_glStencilFunc (word func 0) (word func_ref 0)
                  (word func_mask 0)) W2).
  step (eq_refl : ngli_glStencilFunc (word func 0) (word func_ref 0)
                    (word func_mask 0) W2 = Done tt W3).
  assert (Hl3' : nodes W3 !! stnode = Some (set_priv_data bs8 snd))
    by (cbn; apply lookup_insert_eq).
  step (st_load_Done stnode op_sfail 0 _ W3 Hl3' ltac:(cbn; lia) ltac:(cbn; lia)).
  step (st_load_Done stnode op_dpfail 0 _ W3 Hl3' ltac:(cbn; lia) ltac:(cbn; lia)).
  step (st_load_Done stnode op_dppass 0 _ W3 Hl3' ltac:(cbn; lia) ltac:(cbn; lia)).
  cbn [priv_data set_priv_data]. rewrite !Hcfg by (cbn; tauto).
  reflexivity.
Qed.

(** The arms of [ngli_restore_glstates] for a stencil override. *)
Lemma restore_stencil :
  id (classes (class snd)) = NGL_NODE_GLSTENCILSTATE ->
  156 <= Z.of_nat (length (priv_data snd)) ->
  let cap := glstate_word (priv_data snd) capability 0 in
  let word := glstate_word (priv_data snd) in
  restore_glstate classes stnode w
  = Done tt
      (world_after
         (if negb (word enabled 1 =? 0) then
            ngli_glEnable cap;;
            ngli_glStencilMask (word writemask 1);;
            ngli_glStencilFunc (word func 1) (word func_ref 1)
              (word func_mask 1);;
            ngli_glStencilOp (word op_sfail 1) (word op_dpfail 1)
              (word op_dppass 1)
          else ngli_glDisable cap) w).
Proof.
  intros Hid Hlen cap word.
  unfold restore_glstate. step (get_node_Done _ _ _ Hl). cbv zeta.
  unfold class_of. rewrite Hid.
  change (NGL_NODE_GLSTENCILSTATE =? NGL_NODE_GLBLENDSTATE) with false.
  change (NGL_NODE_GLSTENCILSTATE =? NGL_NODE_GLCOLORSTATE) with false.
  change (NGL_NODE_GLSTENCILSTATE =? NGL_NODE_GLPOLYGONMODESTATE) with false.
  change (NGL_NODE_GLSTENCILSTATE =? NGL_NODE_GLSTENCILSTATE) with true.
  cbv iota.
  step (st_load_Done stnode enabled 1 snd w Hl ltac:(cbn; lia) ltac:(cbn; lia)).
  step (st_load_Done stnode capability 0 snd w Hl ltac:(cbn; lia) ltac:(cbn; lia)).
  fold cap word. destruct (negb (word enabled 1 =? 0)); [|reflexivity].
  set (W1 := world_after (ngli_glEnable cap) w).
  step (eq_refl : ngli_glEnable cap w = Done tt W1).
  assert (Hl1 : nodes W1 !! stnode = Some snd) by exact Hl.
  step (st_load_Done stnode writemask 1 _ W1 Hl1 ltac:(cbn; lia) ltac:(cbn; lia)).
  fold word.
  set (W2 := world_after (ngli_glStencilMask (word writemask 1)) W1).
  step (eq_refl : ngli_glStencilMask (word writemask 1) W1 = Done tt W2).
  assert (Hl2 : nodes W2 !! stnode = Some snd) by exact Hl.
  step (st_load_Done stnode func 1 _ W2 Hl2 ltac:(cbn; lia) ltac:(cbn; lia)).
  step (st_load_Done stnode func_ref 1 _ W2 Hl2 ltac:(cbn; lia) ltac:(cbn; lia)).
  step (st_load_Done stnode func_mask 1 _ W2 Hl2 ltac:(cbn; lia) ltac:(cbn; lia)).
  fold word.
  set (W3 := world_after
               (ngli_glStencilFunc (word func 1) (word func_ref 1)
                  (word func_mask 1)) W2).
  step (eq_refl : ngli_glStencilFunc (word func 1) (word func_ref 1)
                    (word func_mask 1) W2 = Done tt W3).
  assert (Hl3 : nodes W3 !! stnode = Some snd) by exact Hl.
  step (st_load_Done stnode op_sfail 1 _ W3 Hl3 ltac:(cbn; lia) ltac:(cbn; lia)).
  step (st_load_Done stnode op_dpfail 1 _ W3 Hl3 ltac:(cbn; lia) ltac:(cbn; lia)).
  step (st_load_Done stnode op_dppass 1 _ W3 Hl3 ltac:(cbn; lia) ltac:(cbn; lia)).
  reflexivity.
Qed.

End BlendOverride.

Lemma world_eq (a b : world) :
  nodes a = nodes b -> arrays a = arrays b -> hmaps a = hmaps b ->
  gl a = gl b -> log a = log b -> a = b.
Proof. destruct a, b. cbn. now intros -> -> -> -> ->. Qed.

Lemma single_override_run (classes : Z -> node_class)
    (ctxp glstates stnode : Z) (w w1 w2 : world) :
  ctxp <> 0 ->
  arrays w !! glstates = Some [stnode] ->
  honor_glstate classes stnode w = Done tt w1 ->
  arrays w1 !! glstates = Some [stnode] ->
  restore_glstate classes stnode w1 = Done tt w2 ->
  (ngli_honor_glstates classes ctxp 1 glstates;;
   ngli_restore_glstates classes ctxp 1 glstates) w = Done tt w2.
Proof.
  intros Hctx Ha Hh Ha1 Hr.
  unfold ngli_honor_glstates, ngli_restore_glstates.
  apply Z.eqb_neq in Hctx. rewrite Hctx.
  change (Z.to_nat 1) with 1%nat. cbn [honor_glstates_loop restore_glstates_loop].
  assert (Hrun : (let* stnode0 := load_elem glstates 0 in
                  honor_glstate classes stnode0;; ret tt) w = Done tt w1).
  { step (load_elem_Done glstates 0 [stnode] stnode w Ha (Z.le_refl 0) eq_refl).
    step Hh. reflexivity. }
  step Hrun.
  step (load_elem_Done glstates 0 [stnode] stnode w1 Ha1 (Z.le_refl 0) eq_refl).
  step Hr. reflexivity.
Qed.

(** A blend override that keeps the enable bit is scoped.  For a node with
    one blend override on a capability, when the override enables blending
    and blending is enabled, or disables it and it is disabled, applying the
    overrides and restoring them leaves the driver state exactly as it was
    (the blend functions and equations being 32-bit values). *)
Theorem blend_override_round_trip (classes : Z -> node_class)
    (ctxp glstates stnode : Z) (snd : ngl_node) (w : world) :
  ctxp <> 0 ->
  arrays w !! glstates = Some [stnode] ->
  nodes w !! stnode = Some snd ->
  id (classes (class snd)) = NGL_NODE_GLBLENDSTATE ->
  60 <= Z.of_nat (length (priv_data snd)) ->
  glstate_word (priv_data snd) capability 0 ∉ value_pnames ->
  (glstate_word (priv_data snd) enabled 0 <> 0
   <-> glstate_word (priv_data snd) capability 0 ∈ gl_caps (gl w)) ->
  Forall (fun v => 0 <= v < 2 ^ 32)
    [ gl_blend_src_rgb (gl w); gl_blend_dst_rgb (gl w);
      gl_blend_src_alpha (gl w); gl_blend_dst_alpha (gl w);
      gl_blend_equation_rgb (gl w); gl_blend_equation_alpha (gl w) ] ->
  exists bs',
    length bs' = length (priv_data snd)
    /\ (ngli_honor_glstates classes ctxp 1 glstates;;
        ngli_restore_glstates classes ctxp 1 glstates) w
       = Done tt (set_nodes (<[stnode := set_priv_data bs' snd]> (nodes w)) w).
Proof.
  intros Hctx Ha Hl Hid Hlen Hcap Hbit Hval.
  set (cap := glstate_word (priv_data snd) capability 0) in *.
  destruct (Z.eq_dec (glstate_word (priv_data snd) enabled 0) 0) as [He0|He0].
  - (* the override disables blending, which is disabled *)
    assert (Hout : cap ∉ gl_caps (gl w)) by (intros Hin; apply Hbit in Hin; lia).
    destruct (honor_off classes stnode snd w Hl (or_introl Hid) ltac:(lia)
                Hcap He0) as (bs1 & Hl1 & Hw0 & Hw1 & _ & Hh).
    fold cap in Hw0, Hw1, Hh.
    rewrite bool_decide_eq_false_2 in Hw1 by exact Hout.
    exists bs1. split; [exact Hl1|].
    set (w1 := world_after _ _) in Hh.
    assert (Hlw1 : nodes w1 !! stnode = Some (set_priv_data bs1 snd))
      by (cbn; apply lookup_insert_eq).
    pose proof (restore_blend classes stnode _ w1 Hlw1 Hid ltac:(cbn; lia)) as Hr.
    cbv zeta in Hr. cbn [priv_data set_priv_data] in Hr.
    rewrite Hw0, Hw1 in Hr. cbn [Z.eqb negb] in Hr.
    rewrite (single_override_run classes ctxp glstates stnode w w1 _ Hctx Ha Hh Ha Hr).
    f_equal. apply world_eq; try reflexivity. unfold w1. cbn.
    etransitivity; [|apply with_caps_id]. unfold with_caps. cbn. f_equal.
    apply set_eq. intros x. destruct (decide (x = cap)) as [->|Hx];
      set_unfold; tauto.
  - (* the override enables blending, which is enabled *)
    assert (Hin : cap ∈ gl_caps (gl w)) by now apply Hbit.
    destruct (honor_blend_on classes stnode snd w Hl Hid Hlen Hcap He0)
      as (bs7 & Hl7 & Hw0 & Hw1 & H1 & H2 & H3 & H4 & H5 & H6 & Hh).
    fold cap in Hw0, Hw1, Hh. cbv zeta in Hh.
    rewrite bool_decide_eq_true_2 in Hw1 by exact Hin.
    exists bs7. split; [exact Hl7|].
    set (w1 := world_after _ _) in Hh.
    assert (Hlw1 : nodes w1 !! stnode = Some (set_priv_data bs7 snd))
      by (cbn; apply lookup_insert_eq).
    pose proof (restore_blend classes stnode _ w1 Hlw1 Hid ltac:(cbn; lia)) as Hr.
    cbv zeta in Hr. cbn [priv_data set_priv_data] in Hr.
    rewrite Hw0, Hw1, H1, H2, H3, H4, H5, H6 in Hr. cbn [Z.eqb negb] in Hr.
    rewrite (single_override_run classes ctxp glstates stnode w w1 _ Hctx Ha Hh Ha Hr).
    f_equal. apply world_eq; try reflexivity. unfold w1. cbn.
    inversion Hval as [|? ? V1 Hval1]; subst.
    inversion Hval1 as [|? ? V2 Hval2]; subst.
    inversion Hval2 as [|? ? V3 Hval3]; subst.
    inversion Hval3 as [|? ? V4 Hval4]; subst.
    inversion Hval4 as [|? ? V5 Hval5]; subst.
    inversion Hval5 as [|? ? V6 _]; subst.
    rewrite !Z.mod_small by assumption.
    etransitivity; [|apply with_caps_id]. unfold with_caps. cbn. f_equal.
    apply set_eq. intros x. destruct (decide (x = cap)) as [->|Hx];
      set_unfold; tauto.
Qed.

(** A stencil override that keeps the enable bit is scoped.  For a node
    with one stencil override on a capability, when the override enables
    the stencil test and it is enabled, or disables it and it is disabled,
    applying the overrides and restoring them leaves the driver state
    exactly as it was (the stencil mask, function and operations being
    32-bit values). *)
Theorem stencil_override_round_trip (classes : Z -> node_class)
    (ctxp glstates stnode : Z) (snd : ngl_node) (w : world) :
  ctxp <> 0 ->
  arrays w !! glstates = Some [stnode] ->
  nodes w !! stnode = Some snd ->
  id (classes (class snd)) = NGL_NODE_GLSTENCILSTATE ->
  156 <= Z.of_nat (length (priv_data snd)) ->
  glstate_word (priv_data snd) capability 0 ∉ value_pnames ->
  (glstate_word (priv_data snd) enabled 0 <> 0
   <-> glstate_word (priv_data snd) capability 0 ∈ gl_caps (gl w)) ->
  Forall (fun v => 0 <= v < 2 ^ 32)
    [ gl_stencil_writemask (gl w); gl_stencil_func (gl w);
      gl_stencil_ref (gl w); gl_stencil_value_mask (gl w);
      gl_stencil_fail (gl w); gl_stencil_pass_depth_fail (gl w);
      gl_stencil_pass_depth_pass (gl w) ] ->
  exists bs',
    length bs' = length (priv_data snd)
    /\ (ngli_honor_glstates classes ctxp 1 glstates;;
        ngli_restore_glstates classes ctxp 1 glstates) w
       = Done tt (set_nodes (<[stnode := set_priv_data bs' snd]> (nodes w)) w).
Proof.
  intros Hctx Ha Hl Hid Hlen Hcap Hbit Hval.
  set (cap := glstate_word (priv_data snd) capability 0) in *.
  destruct (Z.eq_dec (glstate_word (priv_data snd) enabled 0) 0) as [He0|He0].
  - assert (Hout : cap ∉ gl_caps (gl w)) by (intros Hin; apply Hbit in Hin; lia).
    destruct (honor_off classes stnode snd w Hl (or_intror Hid) ltac:(lia)
                Hcap He0) as (bs1 & Hl1 & Hw0 & Hw1 & _ & Hh).
    fold cap in Hw0, Hw1, Hh.
    rewrite bool_decide_eq_false_2 in Hw1 by exact Hout.
    exists bs1. split; [exact Hl1|].
    set (w1 := world_after _ _) in Hh.
    assert (Hlw1 : nodes w1 !! stnode = Some (set_priv_data bs1 snd))
      by (cbn; apply lookup_insert_eq).
    pose proof (restore_stencil classes stnode _ w1 Hlw1 Hid ltac:(cbn; lia))
      as Hr.
    cbv zeta in Hr. cbn [priv_data set_priv_data] in Hr.
    rewrite Hw0, Hw1 in Hr. cbn [Z.eqb negb] in Hr.
    rewrite (single_override_run classes ctxp glstates stnode w w1 _ Hctx Ha
               Hh Ha Hr).
    f_equal. apply world_eq; try reflexivity. unfold w1. cbn.
    etransitivity; [|apply with_caps_id]. unfold with_caps. cbn. f_equal.
    apply set_eq. intros x. destruct (decide (x = cap)) as [->|Hx];
      set_unfold; tauto.
  - assert (Hin : cap ∈ gl_caps (gl w)) by now apply Hbit.
    destruct (honor_stencil_on classes stnode snd w Hl Hid Hlen Hcap He0)
      as (bs8 & Hl8 & Hw0 & Hw1 & H1 & H2 & H3 & H4 & H5 & H6 & H7 & Hh).
    fold cap in Hw0, Hw1, Hh. cbv zeta in Hh.
    rewrite bool_decide_eq_true_2 in Hw1 by exact Hin.
    exists bs8. split; [exact Hl8|].
    set (w1 := world_after _ _) in Hh.
    assert (Hlw1 : nodes w1 !! stnode = Some (set_priv_data bs8 snd))
      by (cbn; apply lookup_insert_eq).
    pose proof (restore_stencil classes stnode _ w1 Hlw1 Hid ltac:(cbn; lia))
      as Hr.
    cbv zeta in Hr. cbn [priv_data set_priv_data] in Hr.
    rewrite Hw0, Hw1, H1, H2, H3, H4, H5, H6, H7 in Hr.
    cbn [Z.eqb negb] in Hr.
    rewrite (single_override_run classes ctxp glstates stnode w w1 _ Hctx Ha
               Hh Ha Hr).
    f_equal. apply world_eq; try reflexivity. unfold w1. cbn.
    inversion Hval as [|? ? V1 Hval1]; subst.
    inversion Hval1 as [|? ? V2 Hval2]; subst.
    inversion Hval2 as [|? ? V3 Hval3]; subst.
    inversion Hval3 as [|? ? V4 Hval4]; subst.
    inversion Hval4 as [|? ? V5 Hval5]; subst.
    inversion Hval5 as [|? ? V6 Hval6]; subst.
    inversion Hval6 as [|? ? V7 _]; subst.
    rewrite !Z.mod_small by assumption.
    etransitivity; [|apply with_caps_id]. unfold with_caps. cbn. f_equal.
    apply set_eq. intros x. destruct (decide (x = cap)) as [->|Hx];
      set_unfold; tauto.
Qed.

(** A blend override that flips the enable bit is not scoped: the enable
    bit is restored, the blend functions and equations are not.  When the
    override disables blending while it is enabled, the functions and
    equations after the restore are the words found in the saved slots of
    the override block, which were never written; when it enables blending
    while it is disabled, they are the configured ones. *)
Theorem blend_override_flipping_enable_bit (classes : Z -> node_class)
    (ctxp glstates stnode : Z) (snd : ngl_node) (w : world) :
  ctxp <> 0 ->
  arrays w !! glstates = Some [stnode] ->
  nodes w !! stnode = Some snd ->
  id (classes (class snd)) = NGL_NODE_GLBLENDSTATE ->
  60 <= Z.of_nat (length (priv_data snd)) ->
  glstate_word (priv_data snd) capability 0 ∉ value_pnames ->
  (glstate_word (priv_data snd) enabled 0 = 0
   <-> glstate_word (priv_data snd) capability 0 ∈ gl_caps (gl w)) ->
  let word := glstate_word (priv_data snd) in
  let slot := if word enabled 0 =? 0 then 1 else 0 in
  exists w',
    (ngli_honor_glstates classes ctxp 1 glstates;;
     ngli_restore_glstates classes ctxp 1 glstates) w = Done tt w'
    /\ gl_caps (gl w') = gl_caps (gl w)
    /\ gl_blend_src_rgb (gl w') = word src_rgb slot
    /\ gl_blend_dst_rgb (gl w') = word dst_rgb slot
    /\ gl_blend_src_alpha (gl w') = word src_alpha slot
    /\ gl_blend_dst_alpha (gl w') = word dst_alpha slot
    /\ gl_blend_equation_rgb (gl w') = word mode_rgb slot
    /\ gl_blend_equation_alpha (gl w') = word mode_alpha slot.
Proof.
  intros Hctx Ha Hl Hid Hlen Hcap Hbit word slot.
  set (cap := glstate_word (priv_data snd) capability 0) in *.
  destruct (Z.eq_dec (word enabled 0) 0) as [He0|He0].
  - (* blending is enabled, the override disables it *)
    assert (Hin : cap ∈ gl_caps (gl w)) by now apply Hbit.
    destruct (honor_off classes stnode snd w Hl (or_introl Hid) ltac:(lia)
                Hcap He0) as (bs1 & Hl1 & Hw0 & Hw1 & Hframe & Hh).
    fold cap in Hw0, Hw1, Hh.
    rewrite bool_decide_eq_true_2 in Hw1 by exact Hin.
    set (w1 := world_after _ _) in Hh.
    assert (Hlw1 : nodes w1 !! stnode = Some (set_priv_data bs1 snd))
      by (cbn; apply lookup_insert_eq).
    pose proof (restore_blend classes stnode _ w1 Hlw1 Hid ltac:(cbn; lia)) as Hr.
    cbv zeta in Hr. cbn [priv_data set_priv_data] in Hr.
    rewrite Hw0, Hw1 in Hr. cbn [Z.eqb negb] in Hr.
    rewrite !Hframe in Hr by (cbn; lia).
    eexists. split.
    { exact (single_override_run classes ctxp glstates stnode w w1 _ Hctx Ha
               Hh Ha Hr). }
    unfold slot. fold word in He0. rewrite He0. cbn [Z.eqb].
    unfold w1. cbn. split; [|repeat split; reflexivity].
    apply set_eq. intros x. destruct (decide (x = cap)) as [->|Hx];
      set_unfold; tauto.
  - (* blending is disabled, the override enables it *)
    assert (Hout : cap ∉ gl_caps (gl w)) by (intros Hin; now apply Hbit in Hin).
    destruct (honor_blend_on classes stnode snd w Hl Hid Hlen Hcap He0)
      as (bs7 & Hl7 & Hw0 & Hw1 & _ & _ & _ & _ & _ & _ & Hh).
    fold cap in Hw0, Hw1, Hh. cbv zeta in Hh.
    rewrite bool_decide_eq_false_2 in Hw1 by exact Hout.
    set (w1 := world_after _ _) in Hh.
    assert (Hlw1 : nodes w1 !! stnode = Some (set_priv_data bs7 snd))
      by (cbn; apply lookup_insert_eq).
    pose proof (restore_blend classes stnode _ w1 Hlw1 Hid ltac:(cbn; lia)) as Hr.
    cbv zeta in Hr. cbn [priv_data set_priv_data] in Hr.
    rewrite Hw0, Hw1 in Hr. cbn [Z.eqb negb] in Hr.
    eexists. split.
    { exact (single_override_run classes ctxp glstates stnode w w1 _ Hctx Ha
               Hh Ha Hr). }
    unfold slot. fold word in He0.
    replace (word enabled 0 =? 0) with false by (symmetry; now apply Z.eqb_neq).
    unfold w1. cbn. split; [|repeat split; reflexivity].
    apply set_eq. intros x. destruct (decide (x = cap)) as [->|Hx];
      set_unfold; tauto.
Qed.

(** ** Attaching a graph succeeds *)

(** Reads of the node-typed fields see the same values in a world that
    differs by contexts only. *)
Section Reads.

Variables w0 w : world.
Hypothesis Hw : only_ctx_changed w0 w.

Lemma base_load_ptr_stable (base : base_ptr) (off v : Z) :
  value_of (base_load_ptr base off) w0 = Some v ->
  base_load_ptr base off w = Done v w.
Proof.
  destruct Hw as (_ & _ & _ & Hn).
  unfold value_of, base_load_ptr, bind, get_node, of_option. intros H.
  destruct base as [n|n]; specialize (Hn n);
    (destruct (nodes w0 !! n) as [nd|]; [|cbn in H; discriminate]);
    (destruct (nodes w !! n) as [nd'|]; [|contradiction]);
    cbv beta iota in Hn; rewrite Hn; cbn in *.
  - destruct (off =? _); [|cbn in H; discriminate].
    cbn in H. now inversion H.
  - destruct (load_ptr (priv_data nd) off); [|cbn in H; discriminate].
    cbn in H. now inversion H.
Qed.

Lemma base_load_int_stable (base : base_ptr) (off v : Z) :
  value_of (base_load_int base off) w0 = Some v ->
  base_load_int base off w = Done v w.
Proof.
  destruct Hw as (_ & _ & _ & Hn).
  unfold value_of, base_load_int, bind, get_node, of_option. intros H.
  destruct base as [n|n]; specialize (Hn n);
    (destruct (nodes w0 !! n) as [nd|]; [|cbn in H; discriminate]);
    (destruct (nodes w !! n) as [nd'|]; [|contradiction]);
    cbv beta iota in Hn; rewrite Hn; cbn in *.
  - destruct (off =? _); [|cbn in H; discriminate].
    cbn in H. now inversion H.
  - destruct (load_int (priv_data nd) off); [|cbn in H; discriminate].
    cbn in H. now inversion H.
Qed.

Lemma load_elem_stable (elems j v : Z) :
  value_of (load_elem elems j) w0 = Some v -> load_elem elems j w = Done v w.
Proof.
  destruct Hw as (Ha & _).
  unfold value_of, load_elem. rewrite Ha. intros H.
  destruct (arrays w0 !! elems) as [l|]; [|discriminate].
  destruct (j <? 0); [discriminate|].
  destruct (l !! Z.to_nat j); [|discriminate]. now inversion H.
Qed.

Lemma load_hmap_stable (hmap : Z) (l : list (string * Z)) :
  value_of (load_hmap hmap) w0 = Some l -> load_hmap hmap w = Done l w.
Proof.
  destruct Hw as (_ & Hh & _).
  unfold value_of, load_hmap. rewrite Hh. intros H.
  destruct (hmaps w0 !! hmap); [|discriminate]. now inversion H.
Qed.

End Reads.

(** A walk whose operation succeeds on every child succeeds: [Inv] is kept
    by the operation and only lets contexts differ from those of [w0], where
    the children are read. *)
Section WalkTotal.

Variable w0 : world.
Variable P : Z -> Prop.
Variable Inv : world -> Prop.
Variable f : Z -> M Z.
Hypothesis Inv_ctx : forall w, Inv w -> only_ctx_changed w0 w.
Hypothesis f_total : forall child w,
    P child -> Inv w -> exists w', f child w = Done 0 w' /\ Inv w'.

Lemma for_each_elem_total (elems : Z) (n : nat) :
  forall i l w,
    elems_of elems i n w0 = Some l -> Forall P l -> Inv w ->
    exists w', for_each_elem f elems i n w = Done 0 w' /\ Inv w'.
Proof.
  induction n as [|n IH]; intros i l w Hl HP Hi; cbn in *.
  - eauto.
  - destruct (value_of (load_elem elems i) w0) as [c|] eqn:Ec;
      [|discriminate].
    cbn in Hl.
    destruct (elems_of elems (i + 1) n w0) as [l'|] eqn:El; [|discriminate].
    cbn in Hl. inversion Hl; subst l. clear Hl.
    apply Forall_cons in HP. destruct HP as [Hc HP].
    step (load_elem_stable w0 w (Inv_ctx w Hi) _ _ _ Ec).
    destruct (f_total c w Hc Hi) as (w1 & Hf & Hi1).
    step Hf. cbn. now apply (IH _ l').
Qed.

Lemma for_each_entry_total (entries : list (string * Z)) :
  forall w,
    Forall P (entries.*2) -> Inv w ->
    exists w', for_each_entry f entries w = Done 0 w' /\ Inv w'.
Proof.
  induction entries as [|entry rest IH]; intros w HP Hi; cbn in *.
  - eauto.
  - apply Forall_cons in HP. destruct HP as [Hc HP].
    destruct (f_total entry.2 w Hc Hi) as (w1 & Hf & Hi1).
    step Hf. cbn. now apply IH.
Qed.

Lemma for_each_field_total (base : base_ptr) (p : node_param) (l : list Z)
    (w : world) :
  field_children base p w0 = Some l -> Forall P l -> Inv w ->
  exists w', for_each_field f base p w = Done 0 w' /\ Inv w'.
Proof.
  intros Hl HP Hi. unfold field_children in Hl. unfold for_each_field.
  pose proof (Inv_ctx w Hi) as Hw.
  destruct (type p); try (cbn; eauto).
  - destruct (value_of (base_load_ptr base (offset p)) w0) as [c|] eqn:Ec;
      [|discriminate].
    cbn in Hl. inversion Hl; subst l. clear Hl.
    step (base_load_ptr_stable w0 w Hw _ _ _ Ec).
    destruct (c =? 0); [cbn; eauto|].
    apply Forall_cons in HP. destruct HP as [Hc _]. now apply f_total.
  - destruct (value_of (base_load_ptr base (offset p)) w0) as [c|] eqn:Ec;
      [|discriminate].
    cbn in Hl.
    destruct (value_of (base_load_int base (offset p + 8)) w0) as [k|] eqn:Ek;
      [|discriminate].
    cbn in Hl.
    step (base_load_ptr_stable w0 w Hw _ _ _ Ec).
    step (base_load_int_stable w0 w Hw _ _ _ Ek).
    now apply (for_each_elem_total _ _ _ l).
  - destruct (value_of (base_load_ptr base (offset p)) w0) as [c|] eqn:Ec;
      [|discriminate].
    cbn in Hl.
    step (base_load_ptr_stable w0 w Hw _ _ _ Ec).
    destruct (c =? 0); [cbn; eauto|].
    destruct (value_of (load_hmap c) w0) as [entries|] eqn:Eh; [|discriminate].
    cbn in Hl. inversion Hl; subst l. clear Hl.
    step (load_hmap_stable w0 w Hw _ _ Eh).
    now apply for_each_entry_total.
Qed.

Lemma for_each_child_total (base : base_ptr) (params : list node_param) :
  forall l w,
    params_children base params w0 = Some l -> Forall P l -> Inv w ->
    exists w', for_each_child f base params w = Done 0 w' /\ Inv w'.
Proof.
  induction params as [|p rest IH]; intros l w Hl HP Hi; cbn in *.
  - eauto.
  - destruct (field_children base p w0) as [l1|] eqn:E1; [|discriminate].
    cbn in Hl.
    destruct (params_children base rest w0) as [l2|] eqn:E2; [|discriminate].
    cbn in Hl. inversion Hl; subst l. clear Hl.
    apply Forall_app in HP. destruct HP as [HP1 HP2].
    destruct (for_each_field_total base p l1 w E1 HP1 Hi) as (w1 & Hf & Hi1).
    step Hf. cbn. now apply (IH l2).
Qed.

End WalkTotal.

Section AttachTotal.

Variable classes : Z -> node_class.
Variable c : Z.
Hypothesis Hc : c <> 0.

(** With calls nested deep enough for the graph, on a graph none of whose
    nodes is attached to another context, attaching returns 0. *)
Lemma attach_call_total (fuel : nat) :
  forall node w0 w,
    graph_attachable classes c fuel node w0 = true ->
    only_ctx_changed w0 w -> ctx_grows c w0 w ->
    exists w', call_attach_ctx (engine_of classes fuel) node c w = Done 0 w'.
Proof.
  induction fuel as [|fuel IH]; intros node w0 w Hg Hoc Hgr; [discriminate|].
  cbn [graph_attachable] in Hg.
  destruct (nodes w0 !! node) as [nd0|] eqn:Hl0; [|discriminate].
  destruct (children classes node w0) as [l|] eqn:Hch; [|discriminate].
  apply andb_prop in Hg. destruct Hg as [Hctx0 Hall].
  assert (HP : Forall (fun child =>
                         graph_attachable classes c fuel child w0 = true) l).
  { apply Forall_forall. intros x Hx.
    apply (proj1 (forallb_forall _ _) Hall). now apply list_elem_of_In. }
  (* the node in the current world *)
  pose proof Hoc as (_ & _ & _ & Hn). specialize (Hn node).
  pose proof (Hgr node) as Hgn. rewrite Hl0 in Hn, Hgn.
  destruct (nodes w !! node) as [nd|] eqn:Hl; [|contradiction].
  assert (Hctx : ctx nd = 0 \/ ctx nd = c).
  { apply orb_prop in Hctx0.
    destruct Hctx0 as [E|E]; apply Z.eqb_eq in E;
      destruct Hgn as [Hgn|[_ Hgn]]; rewrite ?Hgn; auto. }
  (* the children, as read in [w0] *)
  unfold children in Hch.
  apply bind_Some in Hch. destruct Hch as (nd0' & Hl0' & Hch).
  rewrite Hl0 in Hl0'. inversion Hl0'; subst nd0'. clear Hl0'.
  apply bind_Some in Hch. destruct Hch as (l1 & E1 & Hch).
  apply bind_Some in Hch. destruct Hch as (l2 & E2 & Hch).
  inversion Hch; subst l. clear Hch.
  apply Forall_app in HP. destruct HP as [HP1 HP2].
  (* the calls on the children keep the invariant *)
  set (Inv := fun w' => only_ctx_changed w0 w' /\ ctx_grows c w0 w').
  assert (Hf : forall child w1,
             graph_attachable classes c fuel child w0 = true -> Inv w1 ->
             exists w', call_attach_ctx (engine_of classes fuel) child c w1
                        = Done 0 w' /\ Inv w').
  { intros child w1 Hg1 [Ho1 Hg1'].
    destruct (IH child w0 w1 Hg1 Ho1 Hg1') as [w' Hr].
    exists w'. split; [exact Hr|]. split.
    - eapply only_ctx_changed_trans; [exact Ho1|].
      exact (attach_call_only_ctx classes c fuel Hc _ _ _ _ Hr).
    - eapply ctx_grows_trans; [exact Hg1'|].
      exact (proj1 (attach_ctx_inv classes c fuel Hc _ _ _ _ Hr)). }
  assert (Hchildren : forall w1 nd1,
             Inv w1 -> nodes w1 !! node = Some nd1 ->
             exists w', attach_children classes (engine_of classes fuel)
                          node c w1 = Done 0 w').
  { intros w1 nd1 Hi1 Hl1. unfold attach_children.
    step (get_node_Done _ _ _ Hl1).
    assert (Hcl : class nd1 = class nd0).
    { destruct Hi1 as [(_ & _ & _ & Hn1) _]. specialize (Hn1 node).
      rewrite Hl0, Hl1 in Hn1. rewrite Hn1. reflexivity. }
    rewrite Hcl.
    destruct (for_each_child_total w0 _ Inv _ (fun w' Hi' => proj1 Hi') Hf
                _ _ l1 w1 E1 HP1 Hi1) as (w2 & Hr2 & Hi2).
    step Hr2. cbn.
    destruct (for_each_child_total w0 _ Inv _ (fun w' Hi' => proj1 Hi') Hf
                _ _ l2 w2 E2 HP2 Hi2) as (w3 & Hr3 & Hi3).
    step Hr3. cbn. eauto. }
  cbn [engine_of call_attach_ctx engine_step]. unfold ngli_node_attach_ctx.
  rewrite (node_set_ctx_cases classes _ _ _ _ _ Hc Hl).
  destruct (ctx nd =? 0) eqn:E0.
  - apply Z.eqb_eq in E0.
    apply (Hchildren _ (set_ctx c nd)); [|cbn; apply lookup_insert_eq].
    split.
    + eapply only_ctx_changed_trans; [exact Hoc|].
      repeat (split; [reflexivity|]). intros n. cbn.
      destruct (Z.eq_dec n node) as [->|Hne].
      * rewrite Hl, lookup_insert_eq. reflexivity.
      * rewrite lookup_insert_ne by congruence.
        destruct (nodes w !! n) as [x|]; [now destruct x | exact I].
    + eapply ctx_grows_trans; [exact Hgr|].
      intros n. cbn. destruct (Z.eq_dec n node) as [->|Hne].
      * rewrite Hl, lookup_insert_eq. right. now split.
      * rewrite lookup_insert_ne by congruence.
        destruct (nodes w !! n); auto.
  - destruct Hctx as [Hz|Hz]; [apply Z.eqb_neq in E0; contradiction|].
    replace (ctx nd =? c) with true by (symmetry; now apply Z.eqb_eq).
    now apply (Hchildren _ nd).
Qed.

End AttachTotal.

(** C8 (amended).  Exclusive context ownership.  For a node attached to
    [c1]: attaching it to another context [c2] returns -1, logs the conflict
    and changes nothing else, so the node stays attached to [c1]; attaching
    it to [c1] again passes the check on the node and attaches its children.
    A node with no context takes the given one, then its children are
    attached.  In both cases the call returns 0 when no node of the graph
    below is attached to another context (the fields can be read and the
    calls nest deep enough for the graph), and whenever it returns, with an
    error of a descendant or not, the context of the node is the given
    one. *)
Theorem attach_ctx_exclusive (classes : Z -> node_class) (fuel : nat)
    (node c1 c2 : Z) (nd : ngl_node) (w : world) :
  nodes w !! node = Some nd ->
  c1 <> 0 -> c2 <> 0 -> c2 <> c1 ->
  let e := engine_of classes fuel in
  (ctx nd = c1 ->
   ngli_node_attach_ctx classes e node c2 w
   = Done (-1) (add_log (LOG_OTHER_CTX node) w)
   /\ nodes (add_log (LOG_OTHER_CTX node) w) !! node = Some nd)
  /\ (ctx nd = c1 ->
      ngli_node_attach_ctx classes e node c1 w
      = attach_children classes e node c1 w)
  /\ (ctx nd = 0 ->
      ngli_node_attach_ctx classes e node c1 w
      = attach_children classes e node c1
          (set_nodes (<[node := set_ctx c1 nd]> (nodes w)) w))
  /\ (ctx nd = c1 \/ ctx nd = 0 ->
      (graph_attachable classes c1 (S fuel) node w = true ->
       exists w' nd',
         ngli_node_attach_ctx classes e node c1 w = Done 0 w'
         /\ nodes w' !! node = Some nd'
         /\ ctx nd' = c1)
      /\ (forall r w',
             ngli_node_attach_ctx classes e node c1 w = Done r w' ->
             (exists nd', nodes w' !! node = Some nd' /\ ctx nd' = c1)
             /\ (ctx_compatible c1 w -> r = 0))).
Proof.
  intros Hl H1 H2 H12 e.
  assert (Hsame : ctx nd = c1 ->
                  ngli_node_attach_ctx classes e node c1 w
                  = attach_children classes e node c1 w).
  { intros Hc. unfold ngli_node_attach_ctx.
    rewrite (node_set_ctx_cases _ _ _ _ _ _ H1 Hl).
    replace (ctx nd =? 0) with false by (symmetry; apply Z.eqb_neq; congruence).
    now replace (ctx nd =? c1) with true by (symmetry; apply Z.eqb_eq; congruence). }
  assert (Hnone : ctx nd = 0 ->
                  ngli_node_attach_ctx classes e node c1 w
                  = attach_children classes e node c1
                      (set_nodes (<[node := set_ctx c1 nd]> (nodes w)) w)).
  { intros Hc. unfold ngli_node_attach_ctx.
    rewrite (node_set_ctx_cases _ _ _ _ _ _ H1 Hl).
    now replace (ctx nd =? 0) with true by (symmetry; apply Z.eqb_eq; congruence). }
  assert (Hret : ctx nd = c1 \/ ctx nd = 0 ->
                 forall r w',
                   ngli_node_attach_ctx classes e node c1 w = Done r w' ->
                   (exists nd', nodes w' !! node = Some nd' /\ ctx nd' = c1)
                   /\ (ctx_compatible c1 w -> r = 0)).
  { intros [Hc|Hc] r w' H.
    - rewrite (Hsame Hc) in H.
      destruct (attach_children_inv classes e c1
                  (attach_ctx_inv classes c1 fuel H1) _ _ _ _ H) as [HR HQ].
      split; [|assumption].
      specialize (HR node). rewrite Hl in HR.
      destruct (nodes w' !! node) as [nd'|]; [|contradiction].
      exists nd'. split; [reflexivity|]. destruct HR as [HR|[_ HR]]; congruence.
    - rewrite (Hnone Hc) in H.
      destruct (attach_children_inv classes e c1
                  (attach_ctx_inv classes c1 fuel H1) _ _ _ _ H) as [HR HQ].
      split.
      + specialize (HR node). cbn in HR. rewrite lookup_insert_eq in HR.
        destruct (nodes w' !! node) as [nd'|]; [|contradiction].
        exists nd'. split; [reflexivity|].
        destruct HR as [HR|[_ HR]]; [rewrite HR; reflexivity | exact HR].
      + intros Hq. apply HQ. intros n x Hx. cbn in Hx.
        destruct (Z.eq_dec n node) as [->|Hne].
        * rewrite lookup_insert_eq in Hx. inversion Hx; subst x. now right.
        * rewrite lookup_insert_ne in Hx by congruence. eauto. }
  split; [|split; [exact Hsame | split; [exact Hnone|]]].
  - intros Hc. unfold ngli_node_attach_ctx.
    rewrite (node_set_ctx_cases _ _ _ _ _ _ H2 Hl).
    replace (ctx nd =? 0) with false by (symmetry; apply Z.eqb_neq; congruence).
    replace (ctx nd =? c2) with false by (symmetry; apply Z.eqb_neq; congruence).
    split; [reflexivity | exact Hl].
  - intros Hc. split; [|exact (Hret Hc)].
    intros Hg.
    destruct (attach_call_total classes c1 H1 (S fuel) node w w Hg
                (only_ctx_changed_refl w) (ctx_grows_refl c1 w)) as [w' Hr].
    change (ngli_node_attach_ctx classes e node c1 w = Done 0 w') in Hr.
    destruct (Hret Hc _ _ Hr) as [(nd' & Hl' & Hc') _].
    exists w', nd'. auto.
Qed.

(** C8, counterexample.  Attaching a node to the context it is attached to
    does not always succeed: the parent of [Scene.split_ownership] is
    attached to the context 64 and its child to another one, and attaching
    the parent to 64 again returns the error of the child. *)
Lemma attach_same_ctx_counterexample :
  exists nd w',
    nodes Scene.split_ownership !! 100 = Some nd
    /\ ctx nd = 64
    /\ ngli_node_attach_ctx Scene.classes (engine_of Scene.classes 4) 100 64
         Scene.split_ownership = Done (-1) w'.
Proof.
  exists (Scene.node_at Scene.split_ownership 100),
    (world_after
       (ngli_node_attach_ctx Scene.classes (engine_of Scene.classes 4) 100 64)
       Scene.split_ownership).
  repeat match goal with |- _ /\ _ => split end; vm_compute; reflexivity.
Qed.

Lemma attach_ctx_exclusive_witness :
  let e := engine_of Scene.classes 4 in
  (ngli_node_attach_ctx Scene.classes e 100 128 Scene.diamond
   = Done (-1) (add_log (LOG_OTHER_CTX 100) Scene.diamond)
   /\ nodes (add_log (LOG_OTHER_CTX 100) Scene.diamond) !! 100
      = Some (Scene.node_at Scene.diamond 100))
  /\ (exists w' nd',
        ngli_node_attach_ctx Scene.classes e 100 64 Scene.diamond = Done 0 w'
        /\ nodes w' !! 100 = Some nd'
        /\ ctx nd' = 64)
  /\ (exists w' nd',
        ngli_node_attach_ctx Scene.classes e 100 64 Scene.detached_diamond
        = Done 0 w'
        /\ nodes w' !! 100 = Some nd'
        /\ ctx nd' = 64).
Proof.
  intros e. split; [|split].
  - apply (proj1 (attach_ctx_exclusive Scene.classes 4 100 64 128
                    (Scene.node_at Scene.diamond 100) Scene.diamond
                    ltac:(vm_compute; reflexivity)
                    ltac:(lia) ltac:(lia) ltac:(lia))).
    vm_compute; reflexivity.
  - apply (proj1 (proj2 (proj2 (proj2
             (attach_ctx_exclusive Scene.classes 4 100 64 128
                (Scene.node_at Scene.diamond 100) Scene.diamond
                ltac:(vm_compute; reflexivity)
                ltac:(lia) ltac:(lia) ltac:(lia))))
             ltac:(left; vm_compute; reflexivity))).
    vm_compute; reflexivity.
  - apply (proj1 (proj2 (proj2 (proj2
             (attach_ctx_exclusive Scene.classes 4 100 64 128
                (Scene.node_at Scene.detached_diamond 100)
                Scene.detached_diamond
                ltac:(vm_compute; reflexivity)
                ltac:(lia) ltac:(lia) ltac:(lia))))
             ltac:(right; vm_compute; reflexivity))).
    vm_compute; reflexivity.
Defined.

(** ** Instances of the further properties *)

Lemma setup_idempotent_after_success_witness :
  let e := engine_of Scene.classes 4 in
  let w1 := world_after (node_prefetch Scene.classes e 103) Scene.diamond in
  node_prefetch Scene.classes e 103 w1 = Done 0 w1
  /\ ngli_node_init Scene.classes e 103 w1 = Done 0 w1.
Proof.
  intros e w1.
  apply (proj2 (setup_idempotent_after_success Scene.classes e 103 0
                  Scene.diamond w1 (Z.le_refl 0))).
  vm_compute; reflexivity.
Defined.

Lemma lifecycle_requires_ctx_witness :
  ngli_node_init Scene.classes (engine_of Scene.classes 4) 103
    Scene.detached_diamond = Fault AssertFailed
  /\ ngli_node_visit Scene.classes (engine_of Scene.classes 4) 103 0 1
       Scene.detached_diamond = Fault AssertFailed
  /\ node_prefetch Scene.classes (engine_of Scene.classes 4) 103
       Scene.detached_diamond = Fault AssertFailed
  /\ ngli_node_update Scene.classes (engine_of Scene.classes 4) 103 1
       Scene.detached_diamond = Fault AssertFailed.
Proof.
  apply (proj1 (lifecycle_requires_ctx Scene.classes
                  (engine_of Scene.classes 4) 103 0 1%float
                  (Scene.node_at Scene.detached_diamond 103)
                  Scene.detached_diamond
                  ltac:(vm_compute; reflexivity)
                  ltac:(vm_compute; reflexivity))).
  vm_compute; reflexivity.
Defined.

Lemma ref_then_unref_witness :
  (let* p := ngl_node_ref 200 in
   ngl_node_unrefp Scene.classes Scene.params_free p) (Scene.counted_scene 1)
  = Done 0 (Scene.counted_scene 1).
Proof.
  apply (ref_then_unref Scene.classes Scene.params_free 200
           (Scene.node_at (Scene.counted_scene 1) 200) (Scene.counted_scene 1)).
  - lia.
  - vm_compute; reflexivity.
  - vm_compute. split; [discriminate | reflexivity].
Defined.

Lemma param_mutation_unknown_key_witness :
  ngl_node_param_set Scene.classes Scene.params_set
    (engine_of Scene.classes 2) 103 "colour" [9] Scene.dirty_probe
  = Done (-1) (add_log (LOG_PARAM_NOT_FOUND 103 "colour") Scene.dirty_probe)
  /\ ngl_node_param_add Scene.classes Scene.params_add
       (engine_of Scene.classes 2) 103 "colour" 1 0 Scene.dirty_probe
     = Done (-1) (add_log (LOG_PARAM_NOT_FOUND 103 "colour") Scene.dirty_probe)
  /\ nodes (add_log (LOG_PARAM_NOT_FOUND 103 "colour") Scene.dirty_probe)
       !! 103 = Some (Scene.node_at Scene.dirty_probe 103).
Proof.
  apply (param_mutation_unknown_key Scene.classes Scene.params_set
           Scene.params_add (engine_of Scene.classes 2) 103 "colour" [9] 1 0
           (Scene.node_at Scene.dirty_probe 103) Scene.dirty_probe).
  - vm_compute; reflexivity.
  - vm_compute; reflexivity.
  - vm_compute; reflexivity.
Defined.

Lemma update_failure_not_stamped_witness :
  let e := engine_of Cases.classes 2 in
  let w' := world_after (ngli_node_update Cases.classes e 200 1)
              (Cases.single 8 20) in
  ngli_node_init Cases.classes e 200 (Cases.single 8 20) = Done (-1) w'
  \/ exists w1 nd1 cb,
       ngli_node_init Cases.classes e 200 (Cases.single 8 20) = Done 0 w1
       /\ nodes w1 !! 200 = Some nd1
       /\ update (Cases.classes (class nd1)) = Some cb
       /\ double_ne (last_update_time nd1) 1 = true
       /\ (node_prefetch Cases.classes e 200 w1 = Done (-1) w'
           \/ exists w2,
               node_prefetch Cases.classes e 200 w1 = Done 0 w2
               /\ cb e 200 1%float (add_log (LOG_UPDATE 200 1) w2)
                  = Done (-1) w').
Proof.
  intros e w'.
  apply (update_failure_not_stamped Cases.classes e 200 1%float (-1)
           (Cases.single 8 20) w').
  - vm_compute; reflexivity.
  - lia.
Defined.

Lemma detach_never_reports_witness :
  let e := engine_of Scene.classes 4 in
  let w' := world_after (node_set_ctx Scene.classes e 100 0) Scene.diamond in
  0 = 0
  /\ ngli_node_detach_ctx Scene.classes e 100 Scene.diamond = Done tt w'
  /\ exists w0 nd0,
       node_uninit Scene.classes e 100 Scene.diamond = Done tt w0
       /\ nodes w0 !! 100 = Some nd0
       /\ state nd0 = STATE_UNINITIALIZED
       /\ attach_children Scene.classes e 100 0
            (set_nodes (<[100 := set_ctx 0 nd0]> (nodes w0)) w0) = Done 0 w'.
Proof.
  intros e w'.
  apply (detach_never_reports Scene.classes 4 100 Scene.diamond 0 w').
  vm_compute; reflexivity.
Defined.

Lemma attach_changes_contexts_only_witness :
  let w' := world_after
              (ngli_node_attach_ctx Scene.classes (engine_of Scene.classes 4)
                 100 64) Scene.detached_diamond in
  only_ctx_changed Scene.detached_diamond w'
  /\ ctx_grows 64 Scene.detached_diamond w'.
Proof.
  intros w'.
  apply (attach_changes_contexts_only Scene.classes 4 100 64
           Scene.detached_diamond 0 w').
  - lia.
  - vm_compute; reflexivity.
Defined.

Lemma default_name_round_trip_witness :
  c_str "group" = "group"%string
  /\ strlen "group" = strlen "Group"
  /\ ngli_node_default_name "group" = Some "group"%string
  /\ ngli_is_default_name "Group" "group" = Some 1.
Proof.
  apply (default_name_round_trip "Group" "group"). vm_compute; reflexivity.
Defined.

Lemma node_create_asserts_iff_witness :
  (Alloc.ALIGN 32 (2 ^ 4) mod 2 ^ 4 = 0 <-> 32 mod 2 ^ 4 = 0)
  /\ (Alloc.node_create_asserts 32 (2 ^ 4) 4096 = (true, true)
      <-> 4096 mod 2 ^ 4 = 0 /\ 32 mod 2 ^ 4 = 0).
Proof.
  apply (node_create_asserts_iff 32 4 4096).
  - lia.
  - lia.
  - vm_compute. discriminate.
  - lia.
  - vm_compute. reflexivity.
Defined.

Lemma ALIGN_bounds_witness : 24 <= Alloc.ALIGN 24 16 <= 2 * 24 + 16 - 1.
Proof.
  apply (ALIGN_bounds 24 16).
  - lia.
  - lia.
  - vm_compute. discriminate.
Defined.

Lemma reset_non_params_idempotent_witness :
  (reset_non_params Scene.classes 103;; reset_non_params Scene.classes 103)
    Scene.dirty_probe
  = reset_non_params Scene.classes 103 Scene.dirty_probe
  /\ exists w', reset_non_params Scene.classes 103 Scene.dirty_probe
                = Done tt w'.
Proof.
  apply (reset_non_params_idempotent Scene.classes 103
           (Scene.node_at Scene.dirty_probe 103) Scene.dirty_probe).
  - vm_compute; reflexivity.
  - vm_compute; reflexivity.
  - vm_compute; reflexivity.
  - vm_compute. split; discriminate.
Defined.

Lemma reset_non_params_unsorted_schema_witness :
  reset_block Cases.unsorted_params
    (priv_size (Cases.classes (class (Scene.node_at (Cases.single 9 12) 200))))
    (priv_data (Scene.node_at (Cases.single 9 12) 200)) = None
  /\ reset_non_params Cases.classes 200 (Cases.single 9 12) = Fault BadAccess.
Proof.
  apply (reset_non_params_unsorted_schema Cases.classes 200
           (Scene.node_at (Cases.single 9 12) 200) (Cases.single 9 12) []
           {| key := "second"; type := PARAM_TYPE_INT; offset := 8; flags := 0 |}
           {| key := "first"; type := PARAM_TYPE_INT; offset := 0; flags := 0 |}
           []).
  - vm_compute; reflexivity.
  - vm_compute; reflexivity.
  - vm_compute. discriminate.
  - vm_compute. reflexivity.
  - vm_compute. split; [discriminate | reflexivity].
  - vm_compute. reflexivity.
Defined.

Lemma generic_override_round_trip_witness :
  let w := Scene.override_scene 7 (Scene.capability_off GL_BLEND)
             Scene.blending_gl in
  exists bs1,
    length bs1 = length (priv_data (Scene.node_at w 301))
    /\ (ngli_honor_glstates Scene.classes 64 1 3000;;
        ngli_restore_glstates Scene.classes 64 1 3000) w
       = Done tt
           (set_nodes
              (<[301 := set_priv_data bs1 (Scene.node_at w 301)]> (nodes w)) w).
Proof.
  intros w.
  apply (generic_override_round_trip Scene.classes 64 3000 301
           (Scene.node_at w 301) w).
  - lia.
  - vm_compute; reflexivity.
  - vm_compute; reflexivity.
  - vm_compute. discriminate.
  - vm_compute. discriminate.
  - vm_compute. discriminate.
  - vm_compute. discriminate.
  - vm_compute. discriminate.
  - unfold value_pnames.
    repeat (apply not_elem_of_cons; split; [vm_compute; discriminate|]).
    apply not_elem_of_nil.
Defined.

Lemma polygon_mode_override_round_trip_witness :
  let w := Scene.override_scene 10 Cases.polygon_line Scene.default_gl in
  exists bs1,
    length bs1 = length (priv_data (Scene.node_at w 301))
    /\ (ngli_honor_glstates Cases.classes 64 1 3000;;
        ngli_restore_glstates Cases.classes 64 1 3000) w
       = Done tt
           (set_nodes
              (<[301 := set_priv_data bs1 (Scene.node_at w 301)]> (nodes w)) w).
Proof.
  intros w.
  apply (polygon_mode_override_round_trip Cases.classes 64 3000 301
           (Scene.node_at w 301) w).
  - lia.
  - vm_compute; reflexivity.
  - vm_compute; reflexivity.
  - vm_compute; reflexivity.
  - vm_compute. discriminate.
  - vm_compute. split; [discriminate | reflexivity].
Defined.

Lemma polygon_mode_overrides_restore_in_order_witness :
  let w := Cases.two_overrides 10 Cases.polygon_line Cases.polygon_point
             Scene.default_gl in
  exists w',
    (ngli_honor_glstates Cases.classes 64 2 3000;;
     ngli_restore_glstates Cases.classes 64 2 3000) w = Done tt w'
    /\ gl_polygon_mode (gl w')
       = glstate_word (priv_data (Scene.node_at w 301)) mode 0 mod 2 ^ 32.
Proof.
  intros w.
  apply (polygon_mode_overrides_restore_in_order Cases.classes 64 3000 301 302
           (Scene.node_at w 301) (Scene.node_at w 302) w).
  - lia.
  - vm_compute; reflexivity.
  - lia.
  - vm_compute; reflexivity.
  - vm_compute; reflexivity.
  - vm_compute; reflexivity.
  - vm_compute; reflexivity.
  - vm_compute. discriminate.
  - vm_compute. discriminate.
Defined.

Lemma color_mask_override_round_trip_witness :
  let w := Scene.override_scene 11 Cases.mask_red Scene.default_gl in
  exists bs4,
    length bs4 = length (priv_data (Scene.node_at w 301))
    /\ (ngli_honor_glstates Cases.classes 64 1 3000;;
        ngli_restore_glstates Cases.classes 64 1 3000) w
       = Done tt
           (set_nodes
              (<[301 := set_priv_data bs4 (Scene.node_at w 301)]> (nodes w)) w).
Proof.
  intros w.
  apply (color_mask_override_round_trip Cases.classes 64 3000 301
           (Scene.node_at w 301) w).
  - lia.
  - vm_compute; reflexivity.
  - vm_compute; reflexivity.
  - vm_compute; reflexivity.
  - vm_compute. discriminate.
  - exists true, true, true, true. vm_compute; reflexivity.
Defined.

Lemma nan_timestamp_defeats_gates_witness :
  ngli_node_honor_release_prefetch Scene.classes (engine_of Scene.classes 4)
    100 nan Scene.visited_diamond = Done 0 Scene.visited_diamond.
Proof.
  apply (proj1 (nan_timestamp_defeats_gates Scene.classes
                  (engine_of Scene.classes 4) 100 nan
                  (Scene.node_at Scene.visited_diamond 100)
                  Scene.visited_diamond
                  ltac:(vm_compute; reflexivity)
                  ltac:(vm_compute; reflexivity))).
Defined.

Lemma detach_then_attach_leaf_witness :
  let e := engine_of Scene.classes 2 in
  let w0 := world_after (node_uninit Scene.classes e 103) Scene.dirty_probe in
  (ngli_node_detach_ctx Scene.classes e 103;;
   ngli_node_attach_ctx Scene.classes e 103 128) Scene.dirty_probe
  = Done 0
      (set_nodes (<[103 := set_ctx 128 (Scene.node_at w0 103)]> (nodes w0)) w0)
  /\ state (Scene.node_at w0 103) = STATE_UNINITIALIZED.
Proof.
  intros e w0.
  apply (detach_then_attach_leaf Scene.classes e 103 128 Scene.dirty_probe w0
           (Scene.node_at w0 103)).
  - lia.
  - vm_compute; reflexivity.
  - vm_compute; reflexivity.
  - replace (class (Scene.node_at w0 103)) with 2 by (vm_compute; reflexivity).
    repeat constructor.
  - vm_compute; reflexivity.
Defined.

Lemma blend_override_round_trip_witness :
  let w := Scene.override_scene 6 Scene.blend_additive Scene.blending_gl in
  exists bs',
    length bs' = length (priv_data (Scene.node_at w 301))
    /\ (ngli_honor_glstates Scene.classes 64 1 3000;;
        ngli_restore_glstates Scene.classes 64 1 3000) w
       = Done tt
           (set_nodes
              (<[301 := set_priv_data bs' (Scene.node_at w 301)]> (nodes w)) w).
Proof.
  intros w.
  apply (blend_override_round_trip Scene.classes 64 3000 301
           (Scene.node_at w 301) w).
  - lia.
  - vm_compute; reflexivity.
  - vm_compute; reflexivity.
  - vm_compute; reflexivity.
  - vm_compute. discriminate.
  - unfold value_pnames.
    repeat (apply not_elem_of_cons; split; [vm_compute; discriminate|]).
    apply not_elem_of_nil.
  - split; intros _.
    + vm_compute. reflexivity.
    + vm_compute. discriminate.
  - repeat constructor; vm_compute; discriminate || reflexivity.
Defined.

Lemma stencil_override_round_trip_witness :
  let w := Scene.override_scene 12 (Scene.capability_off GL_STENCIL_TEST)
             Scene.default_gl in
  exists bs',
    length bs' = length (priv_data (Scene.node_at w 301))
    /\ (ngli_honor_glstates Cases.classes 64 1 3000;;
        ngli_restore_glstates Cases.classes 64 1 3000) w
       = Done tt
           (set_nodes
              (<[301 := set_priv_data bs' (Scene.node_at w 301)]> (nodes w)) w).
Proof.
  intros w.
  apply (stencil_override_round_trip Cases.classes 64 3000 301
           (Scene.node_at w 301) w).
  - lia.
  - vm_compute; reflexivity.
  - vm_compute; reflexivity.
  - vm_compute; reflexivity.
  - vm_compute. discriminate.
  - unfold value_pnames.
    repeat (apply not_elem_of_cons; split; [vm_compute; discriminate|]).
    apply not_elem_of_nil.
  - split.
    + intros H. exfalso. apply H. vm_compute; reflexivity.
    + intros H. exfalso. revert H. apply not_elem_of_empty.
  - repeat constructor; vm_compute; discriminate || reflexivity.
Defined.

Lemma blend_override_flipping_enable_bit_witness :
  let w := Scene.override_scene 6 Scene.blend_off Scene.blending_gl in
  let word := glstate_word (priv_data (Scene.node_at w 301)) in
  let slot := if word enabled 0 =? 0 then 1 else 0 in
  exists w',
    (ngli_honor_glstates Scene.classes 64 1 3000;;
     ngli_restore_glstates Scene.classes 64 1 3000) w = Done tt w'
    /\ gl_caps (gl w') = gl_caps (gl w)
    /\ gl_blend_src_rgb (gl w') = word src_rgb slot
    /\ gl_blend_dst_rgb (gl w') = word dst_rgb slot
    /\ gl_blend_src_alpha (gl w') = word src_alpha slot
    /\ gl_blend_dst_alpha (gl w') = word dst_alpha slot
    /\ gl_blend_equation_rgb (gl w') = word mode_rgb slot
    /\ gl_blend_equation_alpha (gl w') = word mode_alpha slot.
Proof.
  intros w.
  apply (blend_override_flipping_enable_bit Scene.classes 64 3000 301
           (Scene.node_at w 301) w).
  - lia.
  - vm_compute; reflexivity.
  - vm_compute; reflexivity.
  - vm_compute; reflexivity.
  - vm_compute. discriminate.
  - unfold value_pnames.
    repeat (apply not_elem_of_cons; split; [vm_compute; discriminate|]).
    apply not_elem_of_nil.
  - split; intros _.
    + vm_compute. reflexivity.
    + vm_compute. reflexivity.
Defined.
